(** * A model of [vector.h]: [RawMemory<T>] and [Vector<T>]

    The development embeds the two class templates of
    [src/advanced-vector/vector.h] over an explicit store:

    - raw memory is a finite map from block addresses to lists of slots; a
      slot either holds no object ([Raw]: never constructed, or destroyed)
      or a live object ([Live x]);
    - [size_t] is [Z] with the wrap-around modulo [2^64] written out;
    - a [T*] is a block address and an offset in that block;
    - the template parameter [T] is an [Element]: what its constructors and
      assignments do, which of them can throw, and what the two type traits
      read by [if constexpr] answer;
    - a call returns normally ([Ok]), leaves with an exception ([Throw]) or
      has no defined behaviour ([UB]: a failed [assert], an access outside a
      block or to a slot without an object, a second release of a block, an
      algorithm called on a pair of iterators that is not a range).  *)

From Stdlib Require Import ZArith Lia List Bool.
From stdpp Require Import base option list gmap.

Local Open Scope Z_scope.

(** ** [size_t] *)

Definition SIZE_MOD : Z := 2 ^ 64.

(** Unsigned arithmetic on [size_t] is taken modulo [2^64]. *)
Definition wrap (x : Z) : Z := x mod SIZE_MOD.

(** ** The element type [T]

    [moved_from x] is the state a move (construction or assignment) leaves in
    its source; for [int] it is [x] itself.  [copy_throws x] says that
    copying from an object in state [x] (by construction or by assignment)
    throws.  Moves, value-initialisation and destructors do not throw at run
    time.  [sizeof_T] is [sizeof(T)].  [max_bytes] is the largest number of
    bytes [operator new] grants; a larger request raises [std::bad_alloc].
    No object is larger than [PTRDIFF_MAX] bytes, hence the bound on
    [max_bytes]. *)
Class Element (T : Type) := {
  value_init : T;
  moved_from : T → T;
  copy_throws : T → bool;
  is_nothrow_move_constructible : bool;
  is_copy_constructible : bool;
  sizeof_T : Z;
  max_bytes : Z;
  sizeof_bound : 0 < sizeof_T < 2 ^ 63;
  max_bytes_bound : 0 ≤ max_bytes < 2 ^ 63;
}.

(** The largest number of elements whose size in bytes [operator new]
    grants: [n <= max_alloc] exactly when [n * sizeof(T) <= max_bytes]. *)
Definition max_alloc {T : Type} {E : Element T} : Z := max_bytes / sizeof_T.

(** The element type of the scenarios on [Vector<int>]. *)
Definition int_element : Element Z := {|
  value_init := 0;
  moved_from := λ x, x;
  copy_throws := λ _, false;
  is_nothrow_move_constructible := true;
  is_copy_constructible := true;
  sizeof_T := 4;
  max_bytes := 2 ^ 63 - 1;
  sizeof_bound := ltac:(lia);
  max_bytes_bound := ltac:(lia);
|}.

(** An element type in the manner of [std::string]: a move leaves the source
    empty, and copying the value [13] fails. *)
Definition tracked_element : Element Z := {|
  value_init := 0;
  moved_from := λ _, 0;
  copy_throws := λ x, x =? 13;
  is_nothrow_move_constructible := false;
  is_copy_constructible := true;
  sizeof_T := 8;
  max_bytes := 8000;
  sizeof_bound := ltac:(lia);
  max_bytes_bound := ltac:(lia);
|}.

Section Vec.

Context {T : Type} {E : Element T}.

(** ** Memory *)

Inductive slot : Type :=
  | Raw
  | Live (x : T).

Record ptr : Type := Ptr { blk : Z; ofs : Z }.

Definition nullptr : ptr := {| blk := 0; ofs := 0 |}.

Definition ptr_add (p : ptr) (d : Z) : ptr := {| blk := blk p; ofs := ofs p + d |}.

(** [p - q] on pointers into one array. *)
Definition ptr_diff (p q : ptr) : Z := ofs p - ofs q.

Definition ptr_ltb (p q : ptr) : bool := ofs p <? ofs q.

Definition ptr_eqb (p q : ptr) : bool := (blk p =? blk q) && (ofs p =? ofs q).

(** What was done to elements so far: calls of the copy and move
    constructors, of the copy and move assignments and of the destructor,
    and [n_leaked], the live objects whose storage was released under them. *)
Record counters : Type := {
  n_copy_ctor : Z;
  n_move_ctor : Z;
  n_copy_assign : Z;
  n_move_assign : Z;
  n_dtor : Z;
  n_leaked : Z;
}.

Definition no_counts : counters :=
  {| n_copy_ctor := 0; n_move_ctor := 0; n_copy_assign := 0;
     n_move_assign := 0; n_dtor := 0; n_leaked := 0 |}.

Definition counters_add (c d : counters) : counters :=
  {| n_copy_ctor := n_copy_ctor c + n_copy_ctor d;
     n_move_ctor := n_move_ctor c + n_move_ctor d;
     n_copy_assign := n_copy_assign c + n_copy_assign d;
     n_move_assign := n_move_assign c + n_move_assign d;
     n_dtor := n_dtor c + n_dtor d;
     n_leaked := n_leaked c + n_leaked d |}.

Definition one_copy_ctor : counters :=
  {| n_copy_ctor := 1; n_move_ctor := 0; n_copy_assign := 0;
     n_move_assign := 0; n_dtor := 0; n_leaked := 0 |}.
Definition one_move_ctor : counters :=
  {| n_copy_ctor := 0; n_move_ctor := 1; n_copy_assign := 0;
     n_move_assign := 0; n_dtor := 0; n_leaked := 0 |}.
Definition one_copy_assign : counters :=
  {| n_copy_ctor := 0; n_move_ctor := 0; n_copy_assign := 1;
     n_move_assign := 0; n_dtor := 0; n_leaked := 0 |}.
Definition one_move_assign : counters :=
  {| n_copy_ctor := 0; n_move_ctor := 0; n_copy_assign := 0;
     n_move_assign := 1; n_dtor := 0; n_leaked := 0 |}.
Definition one_dtor : counters :=
  {| n_copy_ctor := 0; n_move_ctor := 0; n_copy_assign := 0;
     n_move_assign := 0; n_dtor := 1; n_leaked := 0 |}.
Definition leaks (k : Z) : counters :=
  {| n_copy_ctor := 0; n_move_ctor := 0; n_copy_assign := 0;
     n_move_assign := 0; n_dtor := 0; n_leaked := k |}.

(** [k] times the counts [d]. *)
Definition times (k : Z) (d : counters) : counters :=
  {| n_copy_ctor := k * n_copy_ctor d;
     n_move_ctor := k * n_move_ctor d;
     n_copy_assign := k * n_copy_assign d;
     n_move_assign := k * n_move_assign d;
     n_dtor := k * n_dtor d;
     n_leaked := k * n_leaked d |}.

(** ** The two classes' data members *)

Record RawMemory : Type := {
  buffer_ : ptr;      (* T* buffer_ = nullptr; *)
  capacity_ : Z;      (* size_t capacity_ = 0; *)
}.

Record Vector : Type := {
  data_ : RawMemory;  (* RawMemory<T> data_; *)
  size_ : Z;          (* size_t size_ = 0; *)
}.

(** ** Program states

    [this] is the vector a member function of [Vector] runs on; [heap] maps
    the address of each allocated block to its slots; [next] is the address
    the next allocation returns (addresses are not reused, and none is 0,
    the null pointer). *)
Record state : Type := State {
  this : Vector;
  heap : gmap Z (list slot);
  next : Z;
  stats : counters;
}.

Definition set_this (v : Vector) (s : state) : state :=
  {| this := v; heap := heap s; next := next s; stats := stats s |}.

Definition set_heap (h : gmap Z (list slot)) (s : state) : state :=
  {| this := this s; heap := h; next := next s; stats := stats s |}.

Definition add_stats (d : counters) (s : state) : state :=
  {| this := this s; heap := heap s; next := next s;
     stats := counters_add (stats s) d |}.

(** ** Calls and their outcomes *)

Inductive outcome (A : Type) : Type :=
  | Ok (a : A) (s : state)
  | Throw (s : state)
  | UB.

Arguments Ok {A} a s.
Arguments Throw {A} s.
Arguments UB {A}.

Definition M (A : Type) : Type := state → outcome A.

Definition ret {A} (a : A) : M A := λ s, Ok a s.

Definition bind {A B} (c : M A) (k : A → M B) : M B := λ s,
  match c s with
  | Ok a s' => k a s'
  | Throw s' => Throw s'
  | UB => UB
  end.

Local Notation "x <- c ;; k" := (bind c (λ x, k))
  (at level 100, c at next level, right associativity).
Local Notation "c ;; k" := (bind c (λ _, k))
  (at level 100, right associativity).

Definition throw {A} : M A := λ s, Throw s.

Definition undefined {A} : M A := λ _, UB.

(** [on_throw c h]: the handler [h] runs when [c] leaves with an exception,
    which is then thrown on ([catch (...) { h; throw; }], or the destructor
    of a local object during stack unwinding).  An exception out of the
    handler itself ends the program. *)
Definition on_throw {A} (c : M A) (h : M unit) : M A := λ s,
  match c s with
  | Throw s' =>
      match h s' with
      | Ok _ s'' => Throw s''
      | _ => UB
      end
  | r => r
  end.


(** ** Primitive accesses to memory *)

Definition get_this : M Vector := λ s, Ok (this s) s.

Definition put_this (v : Vector) : M unit := λ s, Ok tt (set_this v s).

Definition count (d : counters) : M unit := λ s, Ok tt (add_stats d s).

(** The slot a pointer designates; there is none outside an allocated
    block. *)
Definition load (p : ptr) : M slot := λ s,
  match heap s !! blk p with
  | Some b =>
      if 0 <=? ofs p then
        match b !! Z.to_nat (ofs p) with
        | Some x => Ok x s
        | None => UB
        end
      else UB
  | None => UB
  end.

Definition store (p : ptr) (x : slot) : M unit := λ s,
  match heap s !! blk p with
  | Some b =>
      if (0 <=? ofs p) && (ofs p <? Z.of_nat (length b)) then
        Ok tt (set_heap (<[blk p := <[Z.to_nat (ofs p) := x]> b]> (heap s)) s)
      else UB
  | None => UB
  end.

(** The value of the object at [p]; reading where no object lives is
    undefined. *)
Definition read (p : ptr) : M T :=
  x <- load p ;;
  match x with
  | Live v => ret v
  | Raw => undefined
  end.

(** ** Operations of the element type *)

(** The arguments a constructor call forwards: an lvalue to copy from, an
    rvalue to move from, or other arguments that build the value [x]. *)
Inductive ctor_args : Type :=
  | CopyOf (x : T)
  | MoveOf (x : T)
  | Build (x : T).

(** [T temp{std::forward<Args>(args)...}]: the value of a new object. *)
Definition construct (a : ctor_args) : M T :=
  match a with
  | CopyOf x => if copy_throws x then throw else (count one_copy_ctor ;; ret x)
  | MoveOf x => count one_move_ctor ;; ret x
  | Build x => ret x
  end.

(** The value the arguments build, whether building it throws, and the
    constructor call it counts as. *)
Definition arg_value (a : ctor_args) : T :=
  match a with
  | CopyOf x | MoveOf x | Build x => x
  end.

Definition arg_throws (a : ctor_args) : bool :=
  match a with
  | CopyOf x => copy_throws x
  | MoveOf _ | Build _ => false
  end.

Definition arg_cost (a : ctor_args) : counters :=
  match a with
  | CopyOf _ => one_copy_ctor
  | MoveOf _ => one_move_ctor
  | Build _ => no_counts
  end.

(** [new (p) T{std::forward<Args>(args)...}] *)
Definition construct_at (p : ptr) (a : ctor_args) : M unit :=
  x <- construct a ;; store p (Live x).

(** [new (dst) T{src[0]}] *)
Definition copy_construct_at (dst src : ptr) : M unit :=
  x <- read src ;; construct_at dst (CopyOf x).

(** [new (dst) T{std::move(src[0])}] *)
Definition move_construct_at (dst src : ptr) : M unit :=
  x <- read src ;;
  store dst (Live x) ;;
  store src (Live (moved_from x)) ;;
  count one_move_ctor.

(** [new (p) T()] *)
Definition value_construct_at (p : ptr) : M unit := store p (Live value_init).

(** [dst[0] = src[0]] *)
Definition copy_assign_at (dst src : ptr) : M unit :=
  x <- read src ;;
  _ <- read dst ;;
  if copy_throws x then throw
  else (store dst (Live x) ;; count one_copy_assign).

(** [dst[0] = std::move(src[0])] *)
Definition move_assign_at (dst src : ptr) : M unit :=
  x <- read src ;;
  _ <- read dst ;;
  store dst (Live x) ;;
  store src (Live (moved_from x)) ;;
  count one_move_assign.

(** [dst[0] = std::move(temp)] for a local object [temp] of value [x]. *)
Definition move_assign_value (dst : ptr) (x : T) : M unit :=
  _ <- read dst ;;
  store dst (Live x) ;;
  count one_move_assign.

(** [std::destroy_at(p)] *)
Definition destroy_at (p : ptr) : M unit :=
  _ <- read p ;;
  store p Raw ;;
  count one_dtor.

(** ** The algorithms of [<memory>] and [<algorithm>] the source calls

    Each loop runs [count] times for a [size_t] count.  The algorithms on a
    pair of iterators run [last - first] times and need [first <= last]: the
    library gives no meaning to a call on a pair that is not a range, and
    its implementations differ there (for a class type a counted loop that
    does not run, for a trivially copyable type a [memmove] of
    [last - first] elements), so such a call is undefined here. *)

Fixpoint destroy_loop (count : nat) (first : ptr) : M unit :=
  match count with
  | O => ret tt
  | S c => destroy_at first ;; destroy_loop c (ptr_add first 1)
  end.

(** [std::destroy_n(first, n)] *)
Definition destroy_n (first : ptr) (n : Z) : M unit :=
  destroy_loop (Z.to_nat n) first.

(** The [catch] block of the [uninitialized_*] algorithms destroys what was
    constructed so far, [d_first, current), before it throws on. *)
Definition destroy_constructed (d_first current : ptr) : M unit :=
  destroy_n d_first (ptr_diff current d_first).

Fixpoint uninitialized_copy_loop (count : nat) (first d_first current : ptr) : M unit :=
  match count with
  | O => ret tt
  | S c =>
      on_throw (copy_construct_at current first)
               (destroy_constructed d_first current) ;;
      uninitialized_copy_loop c (ptr_add first 1) d_first (ptr_add current 1)
  end.

(** [std::uninitialized_copy_n(first, n, d_first)] *)
Definition uninitialized_copy_n (first : ptr) (n : Z) (d_first : ptr) : M unit :=
  uninitialized_copy_loop (Z.to_nat n) first d_first d_first.

Fixpoint uninitialized_move_loop (count : nat) (first d_first current : ptr) : M unit :=
  match count with
  | O => ret tt
  | S c =>
      on_throw (move_construct_at current first)
               (destroy_constructed d_first current) ;;
      uninitialized_move_loop c (ptr_add first 1) d_first (ptr_add current 1)
  end.

(** [std::uninitialized_move_n(first, n, d_first)] *)
Definition uninitialized_move_n (first : ptr) (n : Z) (d_first : ptr) : M unit :=
  uninitialized_move_loop (Z.to_nat n) first d_first d_first.

Fixpoint uninitialized_value_construct_loop (count : nat) (first current : ptr) : M unit :=
  match count with
  | O => ret tt
  | S c =>
      on_throw (value_construct_at current)
               (destroy_constructed first current) ;;
      uninitialized_value_construct_loop c first (ptr_add current 1)
  end.

(** [std::uninitialized_value_construct_n(first, n)] *)
Definition uninitialized_value_construct_n (first : ptr) (n : Z) : M unit :=
  uninitialized_value_construct_loop (Z.to_nat n) first first.

Fixpoint copy_loop (count : nat) (first result : ptr) : M unit :=
  match count with
  | O => ret tt
  | S c => copy_assign_at result first ;; copy_loop c (ptr_add first 1) (ptr_add result 1)
  end.

(** [std::copy_n(first, n, result)] *)
Definition copy_n (first : ptr) (n : Z) (result : ptr) : M unit :=
  copy_loop (Z.to_nat n) first result.

Fixpoint move_loop (count : nat) (first d_first : ptr) : M unit :=
  match count with
  | O => ret tt
  | S c => move_assign_at d_first first ;; move_loop c (ptr_add first 1) (ptr_add d_first 1)
  end.

(** [std::move(first, last, d_first)] *)
Definition move_range (first last d_first : ptr) : M unit :=
  if ptr_diff last first <? 0 then undefined
  else move_loop (Z.to_nat (ptr_diff last first)) first d_first.

Fixpoint move_backward_loop (count : nat) (last d_last : ptr) : M unit :=
  match count with
  | O => ret tt
  | S c =>
      move_assign_at (ptr_add d_last (-1)) (ptr_add last (-1)) ;;
      move_backward_loop c (ptr_add last (-1)) (ptr_add d_last (-1))
  end.

(** [std::move_backward(first, last, d_last)] *)
Definition move_backward (first last d_last : ptr) : M unit :=
  if ptr_diff last first <? 0 then undefined
  else move_backward_loop (Z.to_nat (ptr_diff last first)) last d_last.

(** ** [operator new] and [operator delete] *)

(** [operator new(bytes)]: a fresh block of [bytes] bytes, which has room
    for [bytes / sizeof(T)] objects and holds none, or [std::bad_alloc].  A
    request of no bytes is granted like any other. *)
Definition operator_new (bytes : Z) : M ptr := λ s,
  if max_bytes <? bytes then Throw s
  else Ok {| blk := next s; ofs := 0 |}
          {| this := this s;
             heap := <[next s := replicate (Z.to_nat (bytes / sizeof_T)) Raw]>
                       (heap s);
             next := next s + 1;
             stats := stats s |}.

Definition is_live (x : slot) : bool :=
  match x with
  | Live _ => true
  | Raw => false
  end.

Definition live_count (b : list slot) : Z := Z.of_nat (length (filter is_live b)).

(** [operator delete(buf)]: nothing for the null pointer; otherwise [buf]
    must be the start of a block that is still allocated.  The objects
    still alive in the block are lost without a destructor call. *)
Definition operator_delete (buf : ptr) : M unit := λ s,
  if ptr_eqb buf nullptr then Ok tt s
  else
    match heap s !! blk buf with
    | Some b =>
        if ofs buf =? 0 then
          Ok tt {| this := this s;
                   heap := delete (blk buf) (heap s);
                   next := next s;
                   stats := counters_add (stats s) (leaks (live_count b)) |}
        else UB
    | None => UB
    end.

(** ** [RawMemory<T>]

    A member function of [RawMemory] takes the object it runs on, [self],
    and returns what the call leaves in the objects it can change.  A failed
    [assert] is [UB]. *)

(** An argument passed by reference: the object the call runs on, or
    another object. *)
Inductive arg (A : Type) : Type :=
  | Itself
  | Another (o : A).

Arguments Itself {A}.
Arguments Another {A} o.

(** [static T* Allocate(size_t n)]; the product [n * sizeof(T)] is a
    [size_t] and wraps around. *)
Definition Allocate (n : Z) : M ptr :=
  if n =? 0 then ret nullptr else operator_new (wrap (n * sizeof_T)).

(** [static void Deallocate(T* buf) noexcept] *)
Definition Deallocate (buf : ptr) : M unit := operator_delete buf.

(** [RawMemory() = default] *)
Definition RawMemory_default : RawMemory :=
  {| buffer_ := nullptr; capacity_ := 0 |}.

(** [explicit RawMemory(size_t capacity)] *)
Definition RawMemory_sized (capacity : Z) : M RawMemory :=
  b <- Allocate capacity ;;
  ret {| buffer_ := b; capacity_ := capacity |}.

(** [RawMemory(RawMemory&& other) noexcept]: the new object and what is left
    of [other]. *)
Definition RawMemory_move (other : RawMemory) : RawMemory * RawMemory :=
  ({| buffer_ := buffer_ other; capacity_ := capacity_ other |},
   {| buffer_ := nullptr; capacity_ := 0 |}).

(** [void Swap(RawMemory& other) noexcept] *)
Definition RawMemory_Swap (self other : RawMemory) : RawMemory * RawMemory :=
  ({| buffer_ := buffer_ other; capacity_ := capacity_ other |},
   {| buffer_ := buffer_ self; capacity_ := capacity_ self |}).

(** [RawMemory& operator=(RawMemory&& other) noexcept] *)
Definition RawMemory_move_assign (self : RawMemory) (other : arg RawMemory)
  : M (RawMemory * arg RawMemory) :=
  match other with
  | Itself => ret (self, Itself)
  | Another o =>
      let '(self', o') := RawMemory_Swap self o in
      Deallocate (buffer_ o') ;;
      ret (self', Another {| buffer_ := buffer_ o'; capacity_ := 0 |})
  end.

(** [~RawMemory()] *)
Definition RawMemory_dtor (self : RawMemory) : M unit :=
  Deallocate (buffer_ self).

(** [T* operator+(size_t offset) noexcept] *)
Definition RawMemory_plus (self : RawMemory) (offset : Z) : M ptr :=
  if offset <=? capacity_ self then ret (ptr_add (buffer_ self) offset)
  else undefined.

(** [T& operator[](size_t index) noexcept]; the reference is the address of
    the slot. *)
Definition RawMemory_at (self : RawMemory) (index : Z) : M ptr :=
  if index <? capacity_ self then ret (ptr_add (buffer_ self) index)
  else undefined.

Definition GetAddress (self : RawMemory) : ptr := buffer_ self.

Definition RawMemory_Capacity (self : RawMemory) : Z := capacity_ self.

(** ** [Vector<T>] *)

(** [Vector() = default] *)
Definition Vector_default : Vector :=
  {| data_ := RawMemory_default; size_ := 0 |}.

Definition Size (v : Vector) : Z := size_ v.

Definition Capacity (v : Vector) : Z := RawMemory_Capacity (data_ v).

Definition begin_ (v : Vector) : ptr := GetAddress (data_ v).

Definition end_ (v : Vector) : ptr := ptr_add (GetAddress (data_ v)) (size_ v).

Definition cbegin_ (v : Vector) : ptr := GetAddress (data_ v).

Definition cend_ (v : Vector) : ptr := ptr_add (GetAddress (data_ v)) (size_ v).

Definition with_size (v : Vector) (n : Z) : Vector :=
  {| data_ := data_ v; size_ := n |}.

(** [explicit Vector(size_t size)]; the destructor of the member [data_]
    releases the block when a constructor of an element throws. *)
Definition Vector_sized (size : Z) : M Vector :=
  d <- RawMemory_sized size ;;
  let v := {| data_ := d; size_ := size |} in
  on_throw (uninitialized_value_construct_n (begin_ v) size)
           (RawMemory_dtor d) ;;
  ret v.

(** [Vector(const Vector& other)] *)
Definition Vector_copy (other : Vector) : M Vector :=
  d <- RawMemory_sized (size_ other) ;;
  let v := {| data_ := d; size_ := size_ other |} in
  on_throw (uninitialized_copy_n (begin_ other) (size_ v) (begin_ v))
           (RawMemory_dtor d) ;;
  ret v.

(** What [Swap] leaves in the two vectors. *)
Definition swapped (self other : Vector) : Vector * Vector :=
  let '(d, od) := RawMemory_Swap (data_ self) (data_ other) in
  ({| data_ := d; size_ := size_ other |},
   {| data_ := od; size_ := size_ self |}).

(** [void Swap(Vector& other) noexcept]; returns what is left in [other]. *)
Definition Swap (other : Vector) : M Vector :=
  v <- get_this ;;
  let '(v', o') := swapped v other in
  put_this v' ;;
  ret o'.

(** [Vector(Vector&& other) noexcept]: the new vector and what is left of
    [other]. *)
Definition Vector_move (other : Vector) : Vector * Vector :=
  swapped Vector_default other.

(** [~Vector()], followed by the destructor of the member [data_]. *)
Definition Vector_dtor (v : Vector) : M unit :=
  destroy_n (begin_ v) (size_ v) ;;
  RawMemory_dtor (data_ v).

(** [Vector& operator=(const Vector& other)] *)
Definition assign_copy (other : arg Vector) : M unit :=
  match other with
  | Itself => ret tt
  | Another o =>
      v <- get_this ;;
      if Capacity v <? size_ o then
        copy <- Vector_copy o ;;
        copy' <- Swap copy ;;
        Vector_dtor copy'
      else
        let min_size := Z.min (size_ v) (size_ o) in
        copy_n (begin_ o) min_size (begin_ v) ;;
        (if size_ o <? size_ v then
           destroy_n (ptr_add (begin_ v) (size_ o)) (wrap (size_ v - size_ o))
         else
           src <- RawMemory_plus (data_ o) (size_ v) ;;
           dst <- RawMemory_plus (data_ v) (size_ v) ;;
           uninitialized_copy_n src (wrap (size_ o - size_ v)) dst) ;;
        put_this (with_size v (size_ o))
  end.

(** [Vector& operator=(Vector&& rhs) noexcept]; returns what is left in
    [rhs]. *)
Definition assign_move (rhs : arg Vector) : M (arg Vector) :=
  match rhs with
  | Itself => ret Itself
  | Another o => o' <- Swap o ;; ret (Another o')
  end.

(** [T& operator[](size_t index) noexcept] *)
Definition Vector_at (index : Z) : M ptr :=
  v <- get_this ;;
  if index <? size_ v then RawMemory_at (data_ v) index else undefined.

(** The condition of the two [if constexpr]:
    [is_nothrow_move_constructible_v<T> || !is_copy_constructible_v<T>]. *)
Definition relocate_by_move : bool :=
  is_nothrow_move_constructible || negb is_copy_constructible.

(** [void Reserve(size_t new_capacity)]; the destructor of the local
    [new_data] releases the block it holds on every way out. *)
Definition Reserve (new_capacity : Z) : M unit :=
  v <- get_this ;;
  if new_capacity <=? RawMemory_Capacity (data_ v) then ret tt
  else
    new_data <- RawMemory_sized new_capacity ;;
    on_throw
      ((if relocate_by_move
        then uninitialized_move_n (begin_ v) (size_ v) (GetAddress new_data)
        else uninitialized_copy_n (begin_ v) (size_ v) (GetAddress new_data)) ;;
       destroy_n (begin_ v) (size_ v))
      (RawMemory_dtor new_data) ;;
    let '(d, new_data') := RawMemory_Swap (data_ v) new_data in
    put_this {| data_ := d; size_ := size_ v |} ;;
    RawMemory_dtor new_data'.

(** [void Resize(size_t new_size)] *)
Definition Resize (new_size : Z) : M unit :=
  v <- get_this ;;
  (if size_ v <? new_size then
     Reserve new_size ;;
     v' <- get_this ;;
     uninitialized_value_construct_n (ptr_add (begin_ v') (size_ v'))
                                     (wrap (new_size - size_ v'))
   else
     destroy_n (ptr_add (begin_ v) new_size) (wrap (size_ v - new_size))) ;;
  v'' <- get_this ;;
  put_this (with_size v'' new_size).

(** [void PopBack()] *)
Definition PopBack : M unit :=
  v <- get_this ;;
  if 0 <? size_ v then
    destroy_at (ptr_add (end_ v) (-1)) ;;
    put_this (with_size v (wrap (size_ v - 1)))
  else ret tt.

(** [void NoRealloc(size_t index, Args&&... args)]; the local [temp] is
    destroyed on every way out. *)
Definition NoRealloc (index : Z) (args : ctor_args) : M unit :=
  temp <- construct args ;;
  v <- get_this ;;
  on_throw
    (last <- RawMemory_at (data_ v) (wrap (size_ v - 1)) ;;
     move_construct_at (end_ v) last ;;
     move_backward (ptr_add (begin_ v) index) (ptr_add (end_ v) (-1)) (end_ v) ;;
     dst <- RawMemory_at (data_ v) index ;;
     move_assign_value dst temp)
    (count one_dtor) ;;
  count one_dtor.

(** [void Realloc(size_t index, Args&&... args)] up to the end of its body:
    returns the local [new_data], which holds the old block after the swap. *)
Definition Realloc_body (new_data : RawMemory) (index : Z) (args : ctor_args)
  : M RawMemory :=
  v <- get_this ;;
  p <- RawMemory_plus new_data index ;;
  construct_at p args ;;
  (if relocate_by_move then
     uninitialized_move_n (ptr_add (begin_ v) index) (wrap (size_ v - index))
                          (ptr_add (ptr_add (GetAddress new_data) index) 1) ;;
     uninitialized_move_n (begin_ v) index (GetAddress new_data)
   else
     uninitialized_copy_n (ptr_add (begin_ v) index) (wrap (size_ v - index))
                          (ptr_add (ptr_add (GetAddress new_data) index) 1) ;;
     uninitialized_copy_n (begin_ v) index (GetAddress new_data)) ;;
  destroy_n (begin_ v) (wrap (size_ v - index)) ;;
  let '(d, new_data') := RawMemory_Swap (data_ v) new_data in
  put_this {| data_ := d; size_ := size_ v |} ;;
  ret new_data'.

(** [void Realloc(size_t index, Args&&... args)] *)
Definition Realloc (index : Z) (args : ctor_args) : M unit :=
  v <- get_this ;;
  new_data <- RawMemory_sized (if size_ v =? 0 then 1 else wrap (size_ v * 2)) ;;
  new_data' <- on_throw (Realloc_body new_data index args)
                        (RawMemory_dtor new_data) ;;
  RawMemory_dtor new_data'.

(** [iterator Emplace(const_iterator pos, Args&&... args)] *)
Definition Emplace (pos : ptr) (args : ctor_args) : M ptr :=
  v <- get_this ;;
  let index := wrap (ptr_diff pos (cbegin_ v)) in
  (if size_ v <? RawMemory_Capacity (data_ v)
   then NoRealloc index args
   else Realloc index args) ;;
  v' <- get_this ;;
  put_this (with_size v' (wrap (size_ v' + 1))) ;;
  RawMemory_plus (data_ v') index.

(** [T& EmplaceBack(Args&&... args)] *)
Definition EmplaceBack (args : ctor_args) : M ptr :=
  v <- get_this ;;
  Emplace (end_ v) args ;;
  v' <- get_this ;;
  RawMemory_at (data_ v') (wrap (size_ v' - 1)).

(** [void PushBack(const T& value)] *)
Definition PushBack (value : T) : M unit :=
  EmplaceBack (CopyOf value) ;; ret tt.

(** [void PushBack(T&& value)] *)
Definition PushBack_move (value : T) : M unit :=
  EmplaceBack (MoveOf value) ;; ret tt.

(** [iterator Insert(const_iterator pos, const T& value)] *)
Definition Insert (pos : ptr) (value : T) : M ptr :=
  Emplace pos (CopyOf value).

(** [iterator Insert(const_iterator pos, T&& value)] *)
Definition Insert_move (pos : ptr) (value : T) : M ptr :=
  Emplace pos (MoveOf value).

(** [iterator Erase(const_iterator pos)] *)
Definition Erase (pos : ptr) : M ptr :=
  v <- get_this ;;
  if ptr_ltb pos (cend_ v) then
    let index := wrap (ptr_diff pos (cbegin_ v)) in
    first <- RawMemory_plus (data_ v) index ;;
    d_first <- RawMemory_plus (data_ v) index ;;
    move_range (ptr_add first 1) (end_ v) d_first ;;
    PopBack ;;
    v' <- get_this ;;
    RawMemory_plus (data_ v') index
  else
    PopBack ;;
    v' <- get_this ;;
    ret (end_ v').

(** ** Observations, scenarios and invariants *)

(** The program state before anything was allocated. *)
Definition initial : state :=
  {| this := Vector_default; heap := ∅; next := 1; stats := no_counts |}.

Definition block_at (s : state) (p : ptr) : list slot :=
  default [] (heap s !! blk p).

(** The slots [begin(), end()) of the current vector. *)
Definition contents (s : state) : list slot :=
  take (Z.to_nat (size_ (this s))) (block_at s (begin_ (this s))).

(** [Size()], [Capacity()], [begin()] and the elements of the current
    vector. *)
Definition observe (s : state) : Z * Z * ptr * list slot :=
  (Size (this s), Capacity (this s), begin_ (this s), contents s).

(** [PushBack] of each value in turn; what is observed after each call. *)
Fixpoint push_all (xs : list T) (s : state) : list (Z * Z * ptr * list slot) :=
  match xs with
  | [] => []
  | x :: xs' =>
      match PushBack x s with
      | Ok _ s' => observe s' :: push_all xs' s'
      | _ => []
      end
  end.

(** [PushBack] of each value in turn, as one program. *)
Fixpoint push_each (xs : list T) : M unit :=
  match xs with
  | [] => ret tt
  | x :: xs' => PushBack x ;; push_each xs'
  end.

(** Runs [c] in [s] and keeps the state of a normal return. *)
Definition state_after {A} (c : M A) (s : state) : option state :=
  match c s with
  | Ok _ s' => Some s'
  | _ => None
  end.

(** A vector of three elements in a block of four slots, as three calls of
    [PushBack] on an empty vector leave it. *)
Definition three_of_four (x y z : T) : state :=
  {| this := {| data_ := {| buffer_ := Ptr 1 0; capacity_ := 4 |}; size_ := 3 |};
     heap := {[ 1 := [Live x; Live y; Live z; Raw] ]};
     next := 2;
     stats := no_counts |}.

(** A full vector of two elements. *)
Definition two_of_two (x y : T) : state :=
  {| this := {| data_ := {| buffer_ := Ptr 1 0; capacity_ := 2 |}; size_ := 2 |};
     heap := {[ 1 := [Live x; Live y] ]};
     next := 2;
     stats := no_counts |}.

(** [PushBack(y)] on a full vector up to the end of the body of [Realloc]:
    the result is the local [new_data], which holds the old block at the
    moment its destructor releases it. *)
Definition push_back_until_release (y : T) : M RawMemory :=
  v <- get_this ;;
  new_data <- RawMemory_sized (if size_ v =? 0 then 1 else wrap (size_ v * 2)) ;;
  Realloc_body new_data (wrap (ptr_diff (end_ v) (cbegin_ v))) (CopyOf y).

(** [Emplace(pos, args)] on a full vector up to the end of the body of
    [Realloc]: the result is the local [new_data], which holds the old block
    at the moment its destructor releases it. *)
Definition emplace_until_release (pos : ptr) (args : ctor_args) : M RawMemory :=
  v <- get_this ;;
  new_data <- RawMemory_sized (if size_ v =? 0 then 1 else wrap (size_ v * 2)) ;;
  Realloc_body new_data (wrap (ptr_diff pos (cbegin_ v))) args.

(** Two [RawMemory] objects of one slot each, [a = std::move(b)], and what
    is left in both. *)
Definition move_assign_scenario : M (RawMemory * arg RawMemory) :=
  a <- RawMemory_sized 1 ;;
  b <- RawMemory_sized 1 ;;
  RawMemory_move_assign a (Another b).

(** [v.Reserve(1); v.Insert(v.begin(), x);] *)
Definition reserve_then_insert (x : T) : M ptr :=
  Reserve 1 ;;
  v <- get_this ;;
  Insert (begin_ v) x.

(** [v.Insert(v.end(), x);] *)
Definition insert_at_end (x : T) : M ptr :=
  v <- get_this ;;
  Insert (end_ v) x.

(** A vector of three elements in a block of four slots, and a second block
    with the two elements of another vector. *)
Definition three_and_two (x y z u w : T) : state :=
  {| this := {| data_ := {| buffer_ := Ptr 1 0; capacity_ := 4 |}; size_ := 3 |};
     heap := <[ 2 := [Live u; Live w] ]> {[ 1 := [Live x; Live y; Live z; Raw] ]};
     next := 3;
     stats := no_counts |}.

(** The vector that owns the second block of [three_and_two]. *)
Definition second_vector : Vector :=
  {| data_ := {| buffer_ := Ptr 2 0; capacity_ := 2 |}; size_ := 2 |}.

(** The vector [v] holds the elements [l] in the heap [h]: [l] lives in the
    first [size_] slots of its block, no object lives in the others, and a
    vector without capacity has no block. *)
Definition holds (h : gmap Z (list slot)) (v : Vector) (l : list T) : Prop :=
  size_ v = Z.of_nat (length l) ∧
  size_ v ≤ Capacity v ∧ Capacity v ≤ max_alloc ∧
  ofs (buffer_ (data_ v)) = 0 ∧
  if Capacity v =? 0 then buffer_ (data_ v) = nullptr
  else blk (buffer_ (data_ v)) ≠ 0 ∧
       h !! blk (buffer_ (data_ v)) =
         Some (map Live l ++ replicate (Z.to_nat (Capacity v) - length l)%nat Raw).

(** Allocated blocks have addresses between 1 and [next]. *)
Definition fresh (s : state) : Prop :=
  0 < next s ∧ map_Forall (λ a _, 0 < a < next s) (heap s).

(** ** Programs over several vectors

    A world is a finite set of vectors, named by numbers, over one memory.
    An operation constructs a vector, destroys one, or calls a public member
    function on one of them; the caller respects the contracts on positions
    ([begin() <= pos <= end()]) and passes [size_t] values, and asks for
    numbers of elements whose size in bytes is a [size_t] too. *)

Record world : Type := {
  objects : gmap nat Vector;
  mem : state;
}.

Definition empty_world : world := {| objects := ∅; mem := initial |}.

Inductive op : Type :=
  | NewDefault (i : nat)
  | NewSized (i : nat) (n : Z)
  | NewCopy (i j : nat)
  | NewMove (i j : nat)
  | Destroy (i : nat)
  | CallReserve (i : nat) (n : Z)
  | CallResize (i : nat) (n : Z)
  | CallPushBack (i : nat) (x : T)
  | CallPushBack_move (i : nat) (x : T)
  | CallEmplaceBack (i : nat) (a : ctor_args)
  | CallPopBack (i : nat)
  | CallInsert (i : nat) (k : Z) (x : T)
  | CallInsert_move (i : nat) (k : Z) (x : T)
  | CallEmplace (i : nat) (k : Z) (a : ctor_args)
  | CallErase (i : nat) (k : Z)
  | AssignCopy (i j : nat)
  | AssignMove (i j : nat)
  | CallSwap (i j : nat).

(** The operations that move from a vector or swap two. *)
Definition moves_or_swaps (o : op) : bool :=
  match o with
  | NewMove _ _ | AssignMove _ _ | CallSwap _ _ => true
  | _ => false
  end.

Definition is_size_t (n : Z) : bool := (0 <=? n) && (n <? SIZE_MOD).

(** A number of elements a caller asks storage for: a [size_t] whose size
    in bytes is a [size_t] too. *)
Definition is_count (n : Z) : bool :=
  is_size_t n && (n * sizeof_T <? SIZE_MOD).

Definition valid_position (v : Vector) (k : Z) : bool :=
  (0 <=? k) && (k <=? size_ v).

(** A member function called on the vector [i]; the world after a normal
    return or after an exception. *)
Definition call_on {A} (i : nat) (c : M A) (w : world) : option world :=
  match objects w !! i with
  | Some v =>
      match c (set_this v (mem w)) with
      | Ok _ s' | Throw s' =>
          Some {| objects := <[i := this s']> (objects w); mem := s' |}
      | UB => None
      end
  | None => None
  end.

(** A constructor of the new vector [i]; after an exception there is no
    such vector. *)
Definition construct_as (i : nat) (c : M Vector) (w : world) : option world :=
  match objects w !! i with
  | Some _ => None
  | None =>
      match c (mem w) with
      | Ok v s' => Some {| objects := <[i := v]> (objects w); mem := s' |}
      | Throw s' => Some {| objects := objects w; mem := s' |}
      | UB => None
      end
  end.

(** A member function called on the vector [i] that returns what it leaves
    in its argument, the vector [j]. *)
Definition call_with (i j : nat) (c : M Vector) (w : world) : option world :=
  match objects w !! i with
  | Some v =>
      match c (set_this v (mem w)) with
      | Ok o' s' =>
          Some {| objects := <[i := this s']> (<[j := o']> (objects w));
                  mem := s' |}
      | Throw s' =>
          Some {| objects := <[i := this s']> (objects w); mem := s' |}
      | UB => None
      end
  | None => None
  end.

Definition exec (o : op) (w : world) : option world :=
  match o with
  | NewDefault i => construct_as i (ret Vector_default) w
  | NewSized i n =>
      if is_count n then construct_as i (Vector_sized n) w else None
  | NewCopy i j =>
      match objects w !! j with
      | Some o => construct_as i (Vector_copy o) w
      | None => None
      end
  | NewMove i j =>
      match objects w !! i, objects w !! j with
      | None, Some o =>
          let '(v, o') := Vector_move o in
          Some {| objects := <[i := v]> (<[j := o']> (objects w)); mem := mem w |}
      | _, _ => None
      end
  | Destroy i =>
      match objects w !! i with
      | Some v =>
          match Vector_dtor v (mem w) with
          | Ok _ s' => Some {| objects := delete i (objects w); mem := s' |}
          | _ => None
          end
      | None => None
      end
  | CallReserve i n => if is_count n then call_on i (Reserve n) w else None
  | CallResize i n => if is_count n then call_on i (Resize n) w else None
  | CallPushBack i x => call_on i (PushBack x) w
  | CallPushBack_move i x => call_on i (PushBack_move x) w
  | CallEmplaceBack i a => call_on i (EmplaceBack a) w
  | CallPopBack i => call_on i PopBack w
  | CallInsert i k x =>
      match objects w !! i with
      | Some v =>
          if valid_position v k
          then call_on i (Insert (ptr_add (begin_ v) k) x) w else None
      | None => None
      end
  | CallInsert_move i k x =>
      match objects w !! i with
      | Some v =>
          if valid_position v k
          then call_on i (Insert_move (ptr_add (begin_ v) k) x) w else None
      | None => None
      end
  | CallEmplace i k a =>
      match objects w !! i with
      | Some v =>
          if valid_position v k
          then call_on i (Emplace (ptr_add (begin_ v) k) a) w else None
      | None => None
      end
  | CallErase i k =>
      match objects w !! i with
      | Some v =>
          if valid_position v k
          then call_on i (Erase (ptr_add (begin_ v) k)) w else None
      | None => None
      end
  | AssignCopy i j =>
      if decide (i = j) then call_on i (assign_copy Itself) w
      else
        match objects w !! j with
        | Some o => call_on i (assign_copy (Another o)) w
        | None => None
        end
  | AssignMove i j =>
      if decide (i = j) then call_on i (assign_move Itself) w
      else
        match objects w !! j with
        | Some o =>
            call_with i j
              (r <- assign_move (Another o) ;;
               ret (match r with Another o' => o' | Itself => o end)) w
        | None => None
        end
  | CallSwap i j =>
      match objects w !! j with
      | Some o => if decide (i = j) then call_on i (Swap o) w
                  else call_with i j (Swap o) w
      | None => None
      end
  end.

(** The worlds a program can be in. *)
Inductive reachable : world → Prop :=
  | reachable_start : reachable empty_world
  | reachable_step w o w' : reachable w → exec o w = Some w' → reachable w'.

(** The operations of a program in turn; there is no world after an
    operation without defined behaviour. *)
Fixpoint run (ops : list op) (w : world) : option world :=
  match ops with
  | [] => Some w
  | o :: ops' =>
      match exec o w with
      | Some w' => run ops' w'
      | None => None
      end
  end.

(** The data members of a vector are in range: [size_ <= capacity_], and
    the capacity is one an allocation can have. *)
Definition sized (v : Vector) : Prop :=
  0 ≤ size_ v ∧ size_ v ≤ Capacity v ∧ Capacity v ≤ max_alloc.

Definition all_sized (w : world) : Prop :=
  ∀ i v, objects w !! i = Some v → sized v.

(** Every vector is in range after the step, and those that exist before
    and after it have not lost capacity. *)
Definition step_ok (w w' : world) : Prop :=
  all_sized w'
  ∧ ∀ j v v', objects w !! j = Some v → objects w' !! j = Some v' →
      Capacity v ≤ Capacity v'.

(** After a call: the members are in range and the capacity has not
    decreased. *)
Definition grown (s s' : state) : Prop :=
  sized (this s') ∧ Capacity (this s) ≤ Capacity (this s').

(** [ensures c s Q R]: when [c] runs in [s] and returns, [Q] holds of the
    result and the state; when it leaves with an exception, [R] holds of the
    state. *)
Definition ensures {A} (c : M A) (s : state) (Q : A → state → Prop)
    (R : state → Prop) : Prop :=
  match c s with
  | Ok a s' => Q a s'
  | Throw s' => R s'
  | UB => True
  end.

(** [c] does not write the data members of the vector it is called on. *)
Definition frame {A} (c : M A) : Prop :=
  ∀ s, ensures c s (λ _ s', this s' = this s) (λ s', this s' = this s).

(** * Proofs *)

(** ** Counters *)

Ltac counters_eq :=
  repeat match goal with
         | |- context [arg_cost ?a] =>
             let d := fresh "d" in generalize (arg_cost a); intros d
         end;
  repeat match goal with c : counters |- _ => destruct c end;
  unfold counters_add, times, leaks, one_copy_ctor, one_move_ctor,
    one_copy_assign, one_move_assign, one_dtor, no_counts;
  cbn [n_copy_ctor n_move_ctor n_copy_assign n_move_assign n_dtor n_leaked];
  f_equal; lia.

Lemma counters_add_assoc c d e :
  counters_add (counters_add c d) e = counters_add c (counters_add d e).
Proof. counters_eq. Qed.

Lemma counters_add_0 c : counters_add c no_counts = c.
Proof. counters_eq. Qed.

Lemma times_0 d : times 0 d = no_counts.
Proof. counters_eq. Qed.

Lemma times_succ (k : nat) d :
  times (Z.of_nat (S k)) d = counters_add d (times (Z.of_nat k) d).
Proof. counters_eq. Qed.

Lemma leaks_0 c : counters_add c (leaks 0) = c.
Proof. counters_eq. Qed.

(** ** The monad *)

Lemma bind_Ok {A B} (c : M A) (k : A → M B) s a s' :
  c s = Ok a s' → bind c k s = k a s'.
Proof. unfold bind. by intros ->. Qed.

Lemma bind_Throw {A B} (c : M A) (k : A → M B) s s' :
  c s = Throw s' → bind c k s = Throw s'.
Proof. unfold bind. by intros ->. Qed.

Lemma bind_assoc {A B C} (c : M A) (f : A → M B) (k : B → M C) s :
  bind (bind c f) k s = bind c (λ x, bind (f x) k) s.
Proof. unfold bind. by destruct (c s). Qed.

Lemma bind_UB {A B} (c : M A) (k : A → M B) s :
  c s = UB → bind c k s = UB.
Proof. unfold bind. by intros ->. Qed.

Lemma on_throw_Ok {A} (c : M A) h s a s' :
  c s = Ok a s' → on_throw c h s = Ok a s'.
Proof. unfold on_throw. by intros ->. Qed.

Lemma on_throw_Throw {A} (c : M A) h s s' s'' :
  c s = Throw s' → h s' = Ok tt s'' → on_throw c h s = Throw s''.
Proof. unfold on_throw. by intros -> ->. Qed.

(** ** Lists of slots *)

Lemma lookup_mid {A} (p q : list A) x : (p ++ x :: q) !! length p = Some x.
Proof. by apply list_lookup_middle. Qed.

Lemma insert_mid {A} (p q : list A) x y :
  <[length p := y]> (p ++ x :: q) = p ++ y :: q.
Proof. induction p as [|z p IH]; simpl; [done | by rewrite IH]. Qed.

Lemma length_mid {A} (p q : list A) x :
  (Z.of_nat (length p) <? Z.of_nat (length (p ++ x :: q))) = true.
Proof. apply Z.ltb_lt. rewrite length_app. simpl. lia. Qed.

Lemma snoc_app {A} (p q : list A) x : p ++ x :: q = (p ++ [x]) ++ q.
Proof. by rewrite <- app_assoc. Qed.

Lemma length_snoc_Z {A} (p : list A) x :
  Z.of_nat (length (p ++ [x])) = Z.of_nat (length p) + 1.
Proof. rewrite length_app. simpl. lia. Qed.

Lemma live_count_app b1 b2 : live_count (b1 ++ b2) = live_count b1 + live_count b2.
Proof. unfold live_count. rewrite filter_app, length_app. lia. Qed.

Lemma live_count_Raw n : live_count (replicate n Raw) = 0.
Proof.
  induction n as [|n IH]; [done|].
  unfold live_count in *. cbn [replicate]. by rewrite filter_cons_False by (by intros ?).
Qed.

Lemma live_count_Live (l : list T) : live_count (map Live l) = Z.of_nat (length l).
Proof.
  induction l as [|x l IH]; [done|].
  unfold live_count in *. cbn [map]. rewrite filter_cons_True by done.
  cbn [length]. lia.
Qed.

(** ** Single accesses *)

Section Access.

Variables (v : Vector) (h : gmap Z (list slot)) (n : Z) (c : counters).
Variables (a : Z) (p q : list slot).

Lemma load_mid x :
  h !! a = Some (p ++ x :: q) →
  load (Ptr a (Z.of_nat (length p))) (State v h n c) = Ok x (State v h n c).
Proof.
  intros Ha. unfold load. cbn [heap blk ofs]. rewrite Ha.
  destruct (Z.leb_spec 0 (Z.of_nat (length p))); [|lia].
  by rewrite Nat2Z.id, lookup_mid.
Qed.

Lemma read_mid x :
  h !! a = Some (p ++ Live x :: q) →
  read (Ptr a (Z.of_nat (length p))) (State v h n c) = Ok x (State v h n c).
Proof. intros Ha. unfold read. by rewrite (bind_Ok _ _ _ _ _ (load_mid _ Ha)). Qed.

Lemma read_Raw :
  h !! a = Some (p ++ Raw :: q) →
  read (Ptr a (Z.of_nat (length p))) (State v h n c) = UB.
Proof. intros Ha. unfold read. by rewrite (bind_Ok _ _ _ _ _ (load_mid _ Ha)). Qed.

Lemma store_mid x y :
  h !! a = Some (p ++ x :: q) →
  store (Ptr a (Z.of_nat (length p))) y (State v h n c)
  = Ok tt (State v (<[a := p ++ y :: q]> h) n c).
Proof.
  intros Ha. unfold store. cbn [heap blk ofs]. rewrite Ha.
  destruct (Z.leb_spec 0 (Z.of_nat (length p))); [|lia].
  rewrite length_mid. cbn [andb]. by rewrite Nat2Z.id, insert_mid.
Qed.

Lemma destroy_at_mid x :
  h !! a = Some (p ++ Live x :: q) →
  destroy_at (Ptr a (Z.of_nat (length p))) (State v h n c)
  = Ok tt (State v (<[a := p ++ Raw :: q]> h) n (counters_add c one_dtor)).
Proof.
  intros Ha. unfold destroy_at.
  rewrite (bind_Ok _ _ _ _ _ (read_mid _ Ha)).
  by rewrite (bind_Ok _ _ _ _ _ (store_mid _ _ Ha)).
Qed.

End Access.

Lemma store_eq v h n c a p q x y i :
  i = Z.of_nat (length p) → h !! a = Some (p ++ x :: q) →
  store (Ptr a i) y (State v h n c) = Ok tt (State v (<[a := p ++ y :: q]> h) n c).
Proof. intros ->. apply store_mid. Qed.

Lemma read_eq v h n c a p q x i :
  i = Z.of_nat (length p) → h !! a = Some (p ++ Live x :: q) →
  read (Ptr a i) (State v h n c) = Ok x (State v h n c).
Proof. intros ->. apply read_mid. Qed.

Lemma destroy_at_eq v h n c a p q x i :
  i = Z.of_nat (length p) → h !! a = Some (p ++ Live x :: q) →
  destroy_at (Ptr a i) (State v h n c)
  = Ok tt (State v (<[a := p ++ Raw :: q]> h) n (counters_add c one_dtor)).
Proof. intros ->. apply destroy_at_mid. Qed.

Lemma construct_Ok a v h n c :
  arg_throws a = false →
  construct a (State v h n c)
  = Ok (arg_value a) (State v h n (counters_add c (arg_cost a))).
Proof.
  destruct a as [x|x|x]; cbn [arg_throws arg_value arg_cost construct].
  - by intros ->.
  - done.
  - intros _. unfold ret. by rewrite counters_add_0.
Qed.

Lemma construct_Throw a s : arg_throws a = true → construct a s = Throw s.
Proof. destruct a as [x|x|x]; cbn; [by intros ->|done|done]. Qed.

(** ** The loops of the algorithms *)

Lemma ptr_add_Ptr a i d : ptr_add (Ptr a i) d = Ptr a (i + d).
Proof. done. Qed.

Lemma ptr_next {A} a (p : list A) x :
  ptr_add (Ptr a (Z.of_nat (length p))) 1 = Ptr a (Z.of_nat (length (p ++ [x]))).
Proof. by rewrite ptr_add_Ptr, length_snoc_Z. Qed.

Lemma insert_pair_twice (h : gmap Z (list slot)) a b x1 y1 x2 y2 :
  a ≠ b →
  <[a := x2]> (<[b := y2]> (<[a := x1]> (<[b := y1]> h)))
  = <[a := x2]> (<[b := y2]> h).
Proof.
  intros Hab. rewrite (insert_insert_ne _ b a) by done.
  by rewrite !insert_insert_eq.
Qed.

Lemma destroy_loop_spec xs : ∀ v h n c a p q,
  h !! a = Some (p ++ map Live xs ++ q) →
  destroy_loop (length xs) (Ptr a (Z.of_nat (length p))) (State v h n c)
  = Ok tt (State v (<[a := p ++ replicate (length xs) Raw ++ q]> h) n
             (counters_add c (times (Z.of_nat (length xs)) one_dtor))).
Proof.
  induction xs as [|x xs IH]; intros v h n c a p q Ha.
  - cbn [length destroy_loop replicate app]. unfold ret.
    rewrite insert_id by done. by rewrite times_0, counters_add_0.
  - cbn [length destroy_loop]. cbn [map app] in Ha.
    rewrite (bind_Ok _ _ _ _ _ (destroy_at_mid _ _ _ _ _ _ _ _ Ha)).
    rewrite (ptr_next _ _ Raw), (IH _ _ _ _ _ _ q).
    + rewrite insert_insert_eq, times_succ, <- app_assoc.
      by rewrite counters_add_assoc.
    + by rewrite lookup_insert_eq, <- app_assoc.
Qed.

Lemma move_construct_at_spec v h n c a b pa qa pb qb x y :
  a ≠ b →
  h !! a = Some (pa ++ Live x :: qa) → h !! b = Some (pb ++ y :: qb) →
  move_construct_at (Ptr b (Z.of_nat (length pb))) (Ptr a (Z.of_nat (length pa)))
    (State v h n c)
  = Ok tt (State v (<[a := pa ++ Live (moved_from x) :: qa]>
                      (<[b := pb ++ Live x :: qb]> h)) n
             (counters_add c one_move_ctor)).
Proof.
  intros Hab Ha Hb. unfold move_construct_at.
  rewrite (bind_Ok _ _ _ _ _ (read_mid _ _ _ _ _ _ _ _ Ha)).
  rewrite (bind_Ok _ _ _ _ _ (store_mid _ _ _ _ _ _ _ _ (Live x) Hb)).
  erewrite bind_Ok;
    [|apply store_mid with (x := Live x); by rewrite lookup_insert_ne].
  done.
Qed.

Lemma uninitialized_move_loop_spec xs : ∀ v h n c a b pa qa pb ys qb d_first,
  a ≠ b → length ys = length xs →
  h !! a = Some (pa ++ map Live xs ++ qa) → h !! b = Some (pb ++ ys ++ qb) →
  uninitialized_move_loop (length xs) (Ptr a (Z.of_nat (length pa))) d_first
    (Ptr b (Z.of_nat (length pb))) (State v h n c)
  = Ok tt (State v (<[a := pa ++ map Live (map moved_from xs) ++ qa]>
                      (<[b := pb ++ map Live xs ++ qb]> h)) n
             (counters_add c (times (Z.of_nat (length xs)) one_move_ctor))).
Proof.
  induction xs as [|x xs IH]; intros v h n c a b pa qa pb ys qb d_first Hab Hlen Ha Hb.
  - destruct ys; [|done]. cbn [length uninitialized_move_loop map app] in *.
    unfold ret. rewrite (insert_id h b), (insert_id h a) by done.
    by rewrite times_0, counters_add_0.
  - destruct ys as [|y ys]; [done|]. cbn [length uninitialized_move_loop map app] in *.
    erewrite bind_Ok;
      [|apply on_throw_Ok, (move_construct_at_spec _ _ _ _ _ _ _ _ _ _ _ y Hab Ha Hb)].
    rewrite (ptr_next _ pa (Live (moved_from x))), (ptr_next _ pb (Live x)).
    rewrite (IH _ _ _ _ a b _ qa _ ys qb); [|done|lia| |].
    + rewrite insert_pair_twice by done.
      by rewrite times_succ, counters_add_assoc, <- !app_assoc.
    + by rewrite lookup_insert_eq, <- app_assoc.
    + rewrite lookup_insert_ne, lookup_insert_eq by done. by rewrite <- app_assoc.
Qed.

Lemma copy_construct_at_Ok v h n c a b pa qa pb qb x y i j :
  i = Z.of_nat (length pa) → j = Z.of_nat (length pb) →
  copy_throws x = false →
  h !! a = Some (pa ++ Live x :: qa) → h !! b = Some (pb ++ y :: qb) →
  copy_construct_at (Ptr b j) (Ptr a i) (State v h n c)
  = Ok tt (State v (<[b := pb ++ Live x :: qb]> h) n
             (counters_add c one_copy_ctor)).
Proof.
  intros -> -> Hx Ha Hb. unfold copy_construct_at, construct_at, construct.
  rewrite (bind_Ok _ _ _ _ _ (read_mid _ _ _ _ _ _ _ _ Ha)), Hx.
  unfold bind at 1. unfold bind at 1. unfold count, ret. unfold add_stats.
  cbn [this heap next stats].
  by rewrite (store_mid _ _ _ _ _ _ _ _ _ Hb).
Qed.

Lemma copy_construct_at_Throw v h n c a pa qa x i dst :
  i = Z.of_nat (length pa) → copy_throws x = true →
  h !! a = Some (pa ++ Live x :: qa) →
  copy_construct_at dst (Ptr a i) (State v h n c) = Throw (State v h n c).
Proof.
  intros -> Hx Ha. unfold copy_construct_at, construct_at, construct.
  by rewrite (bind_Ok _ _ _ _ _ (read_mid _ _ _ _ _ _ _ _ Ha)), Hx.
Qed.

Lemma uninitialized_copy_loop_spec xs : ∀ v h n c a b pa qa pb ys qb d_first,
  a ≠ b → length ys = length xs →
  Forall (λ x, copy_throws x = false) xs →
  h !! a = Some (pa ++ map Live xs ++ qa) → h !! b = Some (pb ++ ys ++ qb) →
  uninitialized_copy_loop (length xs) (Ptr a (Z.of_nat (length pa))) d_first
    (Ptr b (Z.of_nat (length pb))) (State v h n c)
  = Ok tt (State v (<[b := pb ++ map Live xs ++ qb]> h) n
             (counters_add c (times (Z.of_nat (length xs)) one_copy_ctor))).
Proof.
  induction xs as [|x xs IH];
    intros v h n c a b pa qa pb ys qb d_first Hab Hlen Hxs Ha Hb.
  - destruct ys; [|done]. cbn [length uninitialized_copy_loop map app] in *.
    unfold ret. rewrite (insert_id h b) by done.
    by rewrite times_0, counters_add_0.
  - destruct ys as [|y ys]; [done|]. apply Forall_cons in Hxs as [Hx Hxs].
    cbn [length uninitialized_copy_loop map app] in *.
    erewrite bind_Ok;
      [|apply on_throw_Ok; by eapply (copy_construct_at_Ok _ _ _ _ _ _ pa _ pb _ _ y)].
    rewrite (ptr_next _ pa (Live x)), (ptr_next _ pb (Live x)).
    rewrite (IH _ _ _ _ a b _ qa _ ys qb); [|done|lia|done| |].
    + rewrite insert_insert_eq.
      by rewrite times_succ, counters_add_assoc, <- !app_assoc.
    + rewrite lookup_insert_ne by done. by rewrite <- app_assoc.
    + rewrite lookup_insert_eq. by rewrite <- app_assoc.
Qed.

(** When the copy of an element throws, the copies made so far are
    destroyed again. *)
Lemma uninitialized_copy_loop_Throw xs1 :
  ∀ v h n c a b pa qa pb0 built ys qb x xs2,
  a ≠ b → (length xs1 ≤ length ys)%nat →
  Forall (λ z, copy_throws z = false) xs1 → copy_throws x = true →
  h !! a = Some (pa ++ map Live (xs1 ++ x :: xs2) ++ qa) →
  h !! b = Some (pb0 ++ map Live built ++ ys ++ qb) →
  uninitialized_copy_loop (length (xs1 ++ x :: xs2))
    (Ptr a (Z.of_nat (length pa))) (Ptr b (Z.of_nat (length pb0)))
    (Ptr b (Z.of_nat (length pb0) + Z.of_nat (length built))) (State v h n c)
  = Throw (State v
      (<[b := pb0 ++ replicate (length built + length xs1) Raw
                  ++ drop (length xs1) ys ++ qb]> h) n
      (counters_add c
         (counters_add (times (Z.of_nat (length xs1)) one_copy_ctor)
            (times (Z.of_nat (length built + length xs1)) one_dtor)))).
Proof.
  induction xs1 as [|x1 xs1 IH];
    intros v h n c a b pa qa pb0 built ys qb x xs2 Hab Hlen Hxs Hx Ha Hb.
  - cbn [app length uninitialized_copy_loop map] in *.
    apply bind_Throw. eapply on_throw_Throw.
    + by eapply copy_construct_at_Throw.
    + unfold destroy_constructed, destroy_n, ptr_diff. cbn [ofs].
      replace (Z.to_nat _) with (length built) by lia.
      rewrite (destroy_loop_spec built _ _ _ _ b pb0 (ys ++ qb)) by done.
      rewrite Nat.add_0_r, drop_0. do 2 f_equal; try counters_eq.
  - destruct ys as [|y ys]; [cbn in Hlen; lia|].
    apply Forall_cons in Hxs as [Hx1 Hxs].
    cbn [app length uninitialized_copy_loop map] in *.
    erewrite bind_Ok; cycle 1.
    { apply on_throw_Ok.
      eapply (copy_construct_at_Ok _ _ _ _ a b pa _ (pb0 ++ map Live built)
                (ys ++ qb) x1 y); [done| |done|done|].
      - rewrite length_app, length_map. lia.
      - by rewrite <- app_assoc. }
    rewrite (ptr_next _ pa (Live x1)), ptr_add_Ptr.
    replace (Z.of_nat (length pb0) + Z.of_nat (length built) + 1)
      with (Z.of_nat (length pb0) + Z.of_nat (length (built ++ [x1])))
      by (rewrite length_app; cbn [length]; lia).
    rewrite (IH _ _ _ _ a b _ qa pb0 (built ++ [x1]) ys qb x xs2);
      [|done|lia|done|done| |].
    + rewrite insert_insert_eq, length_app. cbn [length drop].
      replace (length built + 1 + length xs1)%nat
        with (length built + S (length xs1))%nat by lia.
      do 2 f_equal. rewrite !Nat2Z.inj_add, !Nat2Z.inj_succ. counters_eq.
    + rewrite lookup_insert_ne by done. by rewrite <- app_assoc.
    + rewrite lookup_insert_eq, map_app. cbn [map].
      by rewrite <- !app_assoc.
Qed.

(** ** Allocation and release *)

Lemma bind_get_this {B} (k : Vector → M B) s : bind get_this k s = k (this s) s.
Proof. done. Qed.

Lemma bind_put_this {B} (k : unit → M B) v s :
  bind (put_this v) k s = k tt (set_this v s).
Proof. done. Qed.

Lemma bind_ret {A B} (a : A) (k : A → M B) s : bind (ret a) k s = k a s.
Proof. done. Qed.

Lemma bind_count {B} (k : unit → M B) d s :
  bind (count d) k s = k tt (add_stats d s).
Proof. done. Qed.

Lemma fresh_lookup s a b : fresh s → heap s !! a = Some b → 0 < a < next s.
Proof. intros [_ Hall] Ha. exact (map_Forall_lookup_1 _ _ _ _ Hall Ha). Qed.

Lemma fresh_next s a : fresh s → next s ≤ a → heap s !! a = None.
Proof.
  intros Hf Hle. destruct (heap s !! a) eqn:Ha; [|done].
  apply (fresh_lookup _ _ _ Hf) in Ha. lia.
Qed.

Lemma fresh_null s : fresh s → heap s !! 0 = None.
Proof.
  intros Hf. destruct (heap s !! 0) eqn:Ha; [|done].
  apply (fresh_lookup _ _ _ Hf) in Ha. lia.
Qed.

Lemma max_alloc_bound : 0 ≤ max_alloc < 2 ^ 63.
Proof.
  pose proof sizeof_bound. pose proof max_bytes_bound. unfold max_alloc. split.
  - apply Z.div_pos; lia.
  - apply Z.div_lt_upper_bound; nia.
Qed.

(** [n <= max_alloc] says that [n] elements fit in what [operator new]
    grants. *)
Lemma max_alloc_bytes n : n ≤ max_alloc ↔ n * sizeof_T ≤ max_bytes.
Proof.
  pose proof sizeof_bound. unfold max_alloc. split; intros Hn.
  - pose proof (Z.mul_div_le max_bytes sizeof_T). nia.
  - apply Z.div_le_lower_bound; lia.
Qed.

Lemma operator_new_Ok v h nx c bytes :
  bytes ≤ max_bytes →
  operator_new bytes (State v h nx c)
  = Ok (Ptr nx 0)
       (State v (<[nx := replicate (Z.to_nat (bytes / sizeof_T)) Raw]> h) (nx + 1) c).
Proof.
  intros Hn. unfold operator_new.
  by destruct (Z.ltb_spec max_bytes bytes); [lia|].
Qed.

Lemma operator_new_Throw s bytes :
  max_bytes < bytes → operator_new bytes s = Throw s.
Proof.
  intros Hn. unfold operator_new.
  by destruct (Z.ltb_spec max_bytes bytes); [|lia].
Qed.

(** The byte count of an allocation of [n] elements that fit. *)
Lemma wrap_bytes n : 0 ≤ n → n ≤ max_alloc → wrap (n * sizeof_T) = n * sizeof_T.
Proof.
  intros H0 Hn. apply max_alloc_bytes in Hn.
  pose proof sizeof_bound. pose proof max_bytes_bound.
  unfold wrap, SIZE_MOD. apply Z.mod_small. nia.
Qed.

Lemma RawMemory_sized_Ok v h nx c n :
  0 < n → n ≤ max_alloc →
  RawMemory_sized n (State v h nx c)
  = Ok {| buffer_ := Ptr nx 0; capacity_ := n |}
       (State v (<[nx := replicate (Z.to_nat n) Raw]> h) (nx + 1) c).
Proof.
  intros H0 Hn. unfold RawMemory_sized, Allocate.
  destruct (Z.eqb_spec n 0); [lia|].
  rewrite (wrap_bytes n) by lia.
  rewrite (bind_Ok _ _ _ _ _
             (operator_new_Ok _ _ _ _ _ (proj1 (max_alloc_bytes n) Hn))).
  by rewrite Z.div_mul by (pose proof sizeof_bound; lia).
Qed.

Lemma RawMemory_sized_0 s :
  RawMemory_sized 0 s = Ok RawMemory_default s.
Proof. done. Qed.

(** [std::bad_alloc]: more elements than fit, of a size in bytes that is
    still a [size_t]. *)
Lemma RawMemory_sized_Throw n s :
  max_alloc < n → n * sizeof_T < SIZE_MOD → RawMemory_sized n s = Throw s.
Proof.
  intros Hn Hfit. pose proof max_alloc_bound. pose proof sizeof_bound.
  unfold RawMemory_sized, Allocate. apply bind_Throw.
  destruct (Z.eqb_spec n 0); [lia|].
  unfold wrap. rewrite Z.mod_small by nia.
  apply operator_new_Throw.
  destruct (Z.le_gt_cases (n * sizeof_T) max_bytes) as [Hle|?]; [|lia].
  apply max_alloc_bytes in Hle. lia.
Qed.

Lemma operator_delete_null s : operator_delete nullptr s = Ok tt s.
Proof. done. Qed.

Lemma operator_delete_block v h nx c a b :
  a ≠ 0 → h !! a = Some b →
  operator_delete (Ptr a 0) (State v h nx c)
  = Ok tt (State v (delete a h) nx (counters_add c (leaks (live_count b)))).
Proof.
  intros Ha Hb. unfold operator_delete, ptr_eqb, nullptr. cbn [blk ofs heap].
  destruct (Z.eqb_spec a 0); [done|]. cbn [andb]. by rewrite Hb.
Qed.

Lemma replicate_split {A} (n k : nat) (x : A) :
  (k ≤ n)%nat → replicate n x = replicate k x ++ replicate (n - k) x.
Proof. intros Hk. rewrite <- replicate_add. f_equal. lia. Qed.

(** ** The algorithms on a range of live elements *)

Lemma destroy_n_spec xs v h n c a p q k i :
  k = Z.of_nat (length xs) → i = Z.of_nat (length p) →
  h !! a = Some (p ++ map Live xs ++ q) →
  destroy_n (Ptr a i) k (State v h n c)
  = Ok tt (State v (<[a := p ++ replicate (length xs) Raw ++ q]> h) n
             (counters_add c (times k one_dtor))).
Proof.
  intros -> -> Ha. unfold destroy_n. rewrite Nat2Z.id.
  by apply destroy_loop_spec.
Qed.

Lemma destroy_n_0 p s : destroy_n p 0 s = Ok tt s.
Proof. done. Qed.

Lemma uninitialized_move_n_spec xs v h n c a b pa qa pb ys qb k i j :
  k = Z.of_nat (length xs) → i = Z.of_nat (length pa) →
  j = Z.of_nat (length pb) →
  a ≠ b → length ys = length xs →
  h !! a = Some (pa ++ map Live xs ++ qa) → h !! b = Some (pb ++ ys ++ qb) →
  uninitialized_move_n (Ptr a i) k (Ptr b j) (State v h n c)
  = Ok tt (State v (<[a := pa ++ map Live (map moved_from xs) ++ qa]>
                      (<[b := pb ++ map Live xs ++ qb]> h)) n
             (counters_add c (times k one_move_ctor))).
Proof.
  intros -> -> -> Hab Hlen Ha Hb. unfold uninitialized_move_n.
  rewrite Nat2Z.id. by apply uninitialized_move_loop_spec with (ys := ys).
Qed.

Lemma uninitialized_copy_n_spec xs v h n c a b pa qa pb ys qb k i j :
  k = Z.of_nat (length xs) → i = Z.of_nat (length pa) →
  j = Z.of_nat (length pb) →
  a ≠ b → length ys = length xs →
  Forall (λ x, copy_throws x = false) xs →
  h !! a = Some (pa ++ map Live xs ++ qa) → h !! b = Some (pb ++ ys ++ qb) →
  uninitialized_copy_n (Ptr a i) k (Ptr b j) (State v h n c)
  = Ok tt (State v (<[b := pb ++ map Live xs ++ qb]> h) n
             (counters_add c (times k one_copy_ctor))).
Proof.
  intros -> -> -> Hab Hlen Hxs Ha Hb. unfold uninitialized_copy_n.
  rewrite Nat2Z.id. by apply uninitialized_copy_loop_spec with (qa := qa) (ys := ys).
Qed.

(** The copy of [x] throws after the elements [xs1] were copied: the copies
    are destroyed, and the destination holds no object where it held
    none. *)
Lemma uninitialized_copy_n_Throw xs1 x xs2 v h n c a b pa qa pb m qb k i j :
  k = Z.of_nat (length (xs1 ++ x :: xs2)) → i = Z.of_nat (length pa) →
  j = Z.of_nat (length pb) →
  a ≠ b → (length xs1 ≤ m)%nat →
  Forall (λ z, copy_throws z = false) xs1 → copy_throws x = true →
  h !! a = Some (pa ++ map Live (xs1 ++ x :: xs2) ++ qa) →
  h !! b = Some (pb ++ replicate m Raw ++ qb) →
  uninitialized_copy_n (Ptr a i) k (Ptr b j) (State v h n c)
  = Throw (State v h n
      (counters_add c
         (counters_add (times (Z.of_nat (length xs1)) one_copy_ctor)
            (times (Z.of_nat (length xs1)) one_dtor)))).
Proof.
  intros -> -> -> Hab Hlen Hxs Hx Ha Hb. unfold uninitialized_copy_n.
  rewrite Nat2Z.id.
  replace (Ptr b (Z.of_nat (length pb)))
    with (Ptr b (Z.of_nat (length pb) + Z.of_nat (length (@nil T)))) at 2
    by (cbn [length]; f_equal; lia).
  rewrite (uninitialized_copy_loop_Throw xs1 _ _ _ _ a b pa qa pb []
             (replicate m Raw) qb x xs2);
    [|done|by rewrite length_replicate|done|done|done|done].
  cbn [length Nat.add].
  rewrite drop_replicate, (app_assoc (replicate _ _)), <- replicate_add.
  replace (length xs1 + (m - length xs1))%nat with m by lia.
  by rewrite insert_id.
Qed.

(** ** [Reserve] *)

Lemma Reserve_grows v h nx c l n :
  holds h v l → fresh (State v h nx c) →
  Capacity v < n → n ≤ max_alloc →
  relocate_by_move = true ∨ Forall (λ x, copy_throws x = false) l →
  Reserve n (State v h nx c)
  = Ok tt (State
      {| data_ := {| buffer_ := Ptr nx 0; capacity_ := n |}; size_ := size_ v |}
      (delete (blk (begin_ v))
         (<[nx := map Live l ++ replicate (Z.to_nat n - length l) Raw]> h))
      (nx + 1)
      (counters_add c (counters_add
         (times (Z.of_nat (length l))
            (if relocate_by_move then one_move_ctor else one_copy_ctor))
         (times (Z.of_nat (length l)) one_dtor)))).
Proof.
  destruct v as [[[a o] cap] sz].
  unfold holds, begin_, GetAddress, Capacity, RawMemory_Capacity.
  cbn [data_ size_ buffer_ capacity_ blk ofs].
  intros (-> & Hle & Hmax & -> & Hb) Hf Hn Hnmax Hrel.
  unfold Reserve. rewrite bind_get_this.
  unfold begin_, GetAddress, RawMemory_Capacity.
  cbn [this data_ size_ buffer_ capacity_].
  destruct (Z.leb_spec n cap); [lia|].
  rewrite (bind_Ok _ _ _ _ _ (RawMemory_sized_Ok _ _ _ _ n ltac:(lia) Hnmax)).
  cbn [buffer_ capacity_].
  destruct (Z.eqb_spec cap 0) as [->|Hcap].
  - destruct l; [|cbn in Hle; lia]. injection Hb as ->.
    assert (Hnx : 0 < nx) by apply Hf.
    rewrite delete_id
      by (rewrite lookup_insert_ne by lia; apply (fresh_null _ Hf)).
    cbn [length map app]. rewrite Nat.sub_0_r.
    destruct relocate_by_move; cbn; by rewrite counters_add_0.
  - destruct Hb as [Ha Hb].
    assert (Hanx : a ≠ nx) by (apply (fresh_lookup _ _ _ Hf) in Hb; cbn in Hb; lia).
    assert (Hl : (length l ≤ Z.to_nat n)%nat) by lia.
    set (qa := replicate (Z.to_nat cap - length l) Raw) in *.
    set (qb := replicate (Z.to_nat n - length l) Raw).
    set (h1 := <[nx := replicate (Z.to_nat n) Raw]> h).
    assert (Ha1 : h1 !! a = Some ([] ++ map Live l ++ qa))
      by (unfold h1; by rewrite lookup_insert_ne).
    assert (Hb1 : h1 !! nx = Some ([] ++ replicate (length l) Raw ++ qb)).
    { unfold h1, qb. rewrite lookup_insert_eq. cbn [app].
      by rewrite <- replicate_split. }
    assert (Hfin : ∀ x y z, delete a (<[a := x]> (<[a := y]> (<[nx := z]> h1)))
                            = delete a (<[nx := z]> h)).
    { intros. unfold h1. by rewrite !delete_insert_eq, insert_insert_eq. }
    destruct relocate_by_move.
    + erewrite bind_Ok; cycle 1.
      { apply on_throw_Ok. erewrite bind_Ok; cycle 1.
        { by apply (uninitialized_move_n_spec l _ _ _ _ a nx [] qa []
                   (replicate (length l) Raw) qb);
            [..|rewrite length_replicate| |]. }
        apply (destroy_n_spec (map moved_from l) _ _ _ _ a [] qa);
          [by rewrite length_map|done|by rewrite lookup_insert_eq]. }
      cbn [RawMemory_Swap buffer_ capacity_]. rewrite bind_put_this.
      unfold RawMemory_dtor, Deallocate, set_this.
      cbn [this heap next stats buffer_].
      erewrite operator_delete_block; [|done|by rewrite lookup_insert_eq].
      cbn [app]. unfold qa. rewrite live_count_app, !live_count_Raw, Hfin.
      do 2 f_equal. counters_eq.
    + destruct Hrel as [?|Hrel]; [done|].
      erewrite bind_Ok; cycle 1.
      { apply on_throw_Ok. erewrite bind_Ok; cycle 1.
        { by apply (uninitialized_copy_n_spec l _ _ _ _ a nx [] qa []
                   (replicate (length l) Raw) qb);
            [..|rewrite length_replicate| | |]. }
        apply (destroy_n_spec l _ _ _ _ a [] qa);
          [done|done|by rewrite lookup_insert_ne]. }
      cbn [RawMemory_Swap buffer_ capacity_]. rewrite bind_put_this.
      unfold RawMemory_dtor, Deallocate, set_this.
      cbn [this heap next stats buffer_].
      erewrite operator_delete_block; [|done|by rewrite lookup_insert_eq].
      cbn [app]. unfold qa, h1. rewrite live_count_app, !live_count_Raw.
      rewrite delete_insert_eq, insert_insert_eq.
      do 2 f_equal. counters_eq.
Qed.

Lemma holds_relocated h v l nx n :
  holds h v l → Capacity v < n → n ≤ max_alloc → 0 < nx → h !! nx = None →
  holds (delete (blk (begin_ v))
           (<[nx := map Live l ++ replicate (Z.to_nat n - length l) Raw]> h))
    {| data_ := {| buffer_ := Ptr nx 0; capacity_ := n |}; size_ := size_ v |} l.
Proof.
  destruct v as [[[a o] cap] sz].
  unfold holds, begin_, GetAddress, Capacity, RawMemory_Capacity.
  cbn [data_ size_ buffer_ capacity_ blk ofs].
  intros (-> & Hle & Hmax & -> & Hb) Hn Hnmax Hnx Hnone.
  repeat split; [lia|done|].
  destruct (Z.eqb_spec n 0); [lia|]. split; [lia|].
  destruct (Z.eqb_spec cap 0) as [->|Hcap].
  - injection Hb as ->. rewrite lookup_delete_ne by lia. by rewrite lookup_insert_eq.
  - destruct Hb as [Ha Hb].
    rewrite lookup_delete_ne by congruence. by rewrite lookup_insert_eq.
Qed.


(** ** [size_t] arithmetic below the allocation bound *)

Lemma wrap_small x : 0 ≤ x < SIZE_MOD → wrap x = x.
Proof. intros Hx. unfold wrap. by apply Z.mod_small. Qed.

Lemma max_alloc_small x : x ≤ max_alloc → 2 * x + 1 < SIZE_MOD.
Proof. pose proof max_alloc_bound. unfold SIZE_MOD. lia. Qed.

Lemma wrap_le_max x : 0 ≤ x → x ≤ 2 * max_alloc + 1 → wrap x = x.
Proof.
  intros H0 Hx. apply wrap_small. pose proof (max_alloc_small max_alloc). lia.
Qed.

(** ** [Emplace] when the vector is full *)

Lemma heap_swap_out (h : gmap Z (list slot)) a nx x1 x2 y1 y2 y3 y4 :
  a ≠ nx →
  delete a (<[a := x2]> (<[a := x1]> (<[nx := y4]>
    (<[a := x1]> (<[nx := y3]> (<[nx := y2]> (<[nx := y1]> h)))))))
  = delete a (<[nx := y4]> h).
Proof.
  intros Hne. rewrite !delete_insert_eq.
  rewrite (delete_insert_ne _ a nx) by done.
  rewrite delete_insert_eq. rewrite <- (delete_insert_ne _ a nx) by done.
  by rewrite !insert_insert_eq.
Qed.

(** What relocation leaves in the old block. *)
Lemma Realloc_body_spec a h n c l1 l2 args nx new_cap :
  let l := l1 ++ l2 in
  let sz := Z.of_nat (length l) in
  let v := {| data_ := {| buffer_ := Ptr a 0; capacity_ := sz |}; size_ := sz |} in
  let left := if relocate_by_move then map moved_from l else l in
  h !! a = Some (map Live l) → h !! nx = Some (replicate (Z.to_nat new_cap) Raw) →
  a ≠ nx → sz + 1 ≤ new_cap → sz ≤ max_alloc →
  arg_throws args = false →
  relocate_by_move = true ∨ Forall (λ x, copy_throws x = false) l →
  Realloc_body {| buffer_ := Ptr nx 0; capacity_ := new_cap |}
    (Z.of_nat (length l1)) args (State v h n c)
  = Ok {| buffer_ := Ptr a 0; capacity_ := sz |}
      (State
         {| data_ := {| buffer_ := Ptr nx 0; capacity_ := new_cap |}; size_ := sz |}
         (<[a := replicate (length l2) Raw ++ map Live (drop (length l2) left)]>
            (<[nx := map Live (l1 ++ arg_value args :: l2)
                     ++ replicate (Z.to_nat new_cap - S (length l)) Raw]> h))
         n
         (counters_add c (counters_add (arg_cost args) (counters_add
            (times sz (if relocate_by_move then one_move_ctor else one_copy_ctor))
            (times (Z.of_nat (length l2)) one_dtor))))).
Proof.
  intros l sz v left Ha Hb Hne Hcap Hmax Hargs Hrel.
  pose proof (max_alloc_small _ Hmax) as Hsmall.
  assert (Hsz : sz = Z.of_nat (length l1) + Z.of_nat (length l2))
    by (unfold sz, l; rewrite length_app; lia).
  set (r3 := replicate (Z.to_nat new_cap - S (length l)) Raw).
  assert (Hb0 : h !! nx = Some (replicate (length l1) Raw ++ Raw ::
                                  replicate (length l2) Raw ++ r3)).
  { rewrite Hb. f_equal. unfold r3, l.
    change (Raw :: ?x) with (replicate 1 Raw ++ x).
    rewrite !app_assoc, <- !replicate_add. f_equal. rewrite length_app. lia. }
  unfold Realloc_body. rewrite bind_get_this.
  unfold RawMemory_plus, begin_, GetAddress.
  cbn [this data_ size_ buffer_ capacity_].
  destruct (Z.leb_spec (Z.of_nat (length l1)) new_cap); [|lia].
  rewrite bind_ret. unfold construct_at. rewrite bind_assoc.
  rewrite (bind_Ok _ _ _ _ _ (construct_Ok _ _ _ _ _ Hargs)).
  rewrite !ptr_add_Ptr.
  erewrite bind_Ok; cycle 1.
  { eapply (store_eq _ _ _ _ nx (replicate (length l1) Raw));
      [rewrite length_replicate; lia | exact Hb0]. }
  fold sz. rewrite (wrap_small (sz - _)) by lia.
  set (x := arg_value args). set (r1 := replicate (length l1) Raw).
  set (r2 := replicate (length l2) Raw).
  assert (Hleft : map Live left
                  = map Live (take (length l2) left) ++ map Live (drop (length l2) left))
    by (by rewrite <- map_app, take_drop).
  assert (Hlen : length (take (length l2) left) = length l2).
  { rewrite length_take. unfold left, l.
    destruct relocate_by_move; rewrite ?length_map, length_app; lia. }
  unfold v. cbn [data_ buffer_ size_ RawMemory_Swap capacity_].
  rewrite !ptr_add_Ptr. unfold left in *. clear left v.
  destruct relocate_by_move.
  - rewrite bind_assoc. erewrite bind_Ok; cycle 1.
    { apply (uninitialized_move_n_spec l2 _ _ _ _ a nx (map Live l1) []
               (r1 ++ [Live x]) r2 r3).
      - lia.
      - rewrite length_map. lia.
      - rewrite length_app. unfold r1. rewrite length_replicate. cbn [length]. lia.
      - done.
      - unfold r2. by rewrite length_replicate.
      - rewrite lookup_insert_ne by done. unfold l in Ha.
        by rewrite Ha, map_app, app_nil_r.
      - rewrite lookup_insert_eq. by rewrite <- app_assoc. }
    erewrite bind_Ok; cycle 1.
    { apply (uninitialized_move_n_spec l1 _ _ _ _ a nx [] (map Live (map moved_from l2) ++ [])
               [] r1 ([Live x] ++ map Live l2 ++ r3)).
      - lia.
      - done.
      - done.
      - done.
      - unfold r1. by rewrite length_replicate.
      - by rewrite lookup_insert_eq.
      - rewrite lookup_insert_ne by done. rewrite lookup_insert_eq.
        by rewrite <- app_assoc. }
    erewrite bind_Ok; cycle 1.
    { apply (destroy_n_spec (take (length l2) (map moved_from l)) _ _ _ _ a []
               (map Live (drop (length l2) (map moved_from l)))).
      - rewrite Hlen. lia.
      - done.
      - rewrite lookup_insert_eq. cbn [app]. rewrite app_nil_r.
        rewrite <- Hleft. unfold l. by rewrite !map_app. }
    rewrite bind_put_this, Hlen. unfold ret, set_this. cbn [this heap next stats app].
    f_equal. f_equal.
    + rewrite insert_insert_eq, insert_pair_twice by done.
      rewrite insert_insert_eq. do 2 f_equal. unfold l, r3.
      rewrite !map_app. cbn [map]. by rewrite <- !app_assoc.
    + counters_eq.
  - destruct Hrel as [?|Hrel]; [done|].
    apply Forall_app in Hrel as [Hrel1 Hrel2].
    rewrite bind_assoc. erewrite bind_Ok; cycle 1.
    { apply (uninitialized_copy_n_spec l2 _ _ _ _ a nx (map Live l1) []
               (r1 ++ [Live x]) r2 r3).
      - lia.
      - rewrite length_map. lia.
      - rewrite length_app. unfold r1. rewrite length_replicate. cbn [length]. lia.
      - done.
      - unfold r2. by rewrite length_replicate.
      - done.
      - rewrite lookup_insert_ne by done. unfold l in Ha.
        by rewrite Ha, map_app, app_nil_r.
      - rewrite lookup_insert_eq. by rewrite <- app_assoc. }
    erewrite bind_Ok; cycle 1.
    { apply (uninitialized_copy_n_spec l1 _ _ _ _ a nx [] (map Live l2)
               [] r1 ([Live x] ++ map Live l2 ++ r3)).
      - lia.
      - done.
      - done.
      - done.
      - unfold r1. by rewrite length_replicate.
      - done.
      - rewrite !lookup_insert_ne by done. unfold l in Ha.
        by rewrite Ha, map_app.
      - rewrite lookup_insert_eq. by rewrite <- app_assoc. }
    erewrite bind_Ok; cycle 1.
    { apply (destroy_n_spec (take (length l2) l) _ _ _ _ a []
               (map Live (drop (length l2) l))).
      - rewrite Hlen. lia.
      - done.
      - rewrite !lookup_insert_ne by done. cbn [app]. by rewrite <- Hleft. }
    rewrite bind_put_this, Hlen. unfold ret, set_this. cbn [this heap next stats app].
    f_equal. f_equal.
    + rewrite !insert_insert_eq. do 2 f_equal. unfold l, r3.
      rewrite !map_app. cbn [map]. by rewrite <- !app_assoc.
    + counters_eq.
Qed.

Lemma Realloc_spec v h nx c l1 l2 args :
  holds h v (l1 ++ l2) → fresh (State v h nx c) →
  size_ v = Capacity v →
  (if size_ v =? 0 then 1 else 2 * size_ v) ≤ max_alloc →
  arg_throws args = false →
  relocate_by_move = true ∨ Forall (λ x, copy_throws x = false) (l1 ++ l2) →
  Realloc (Z.of_nat (length l1)) args (State v h nx c)
  = Ok tt
      (State
         {| data_ := {| buffer_ := Ptr nx 0;
                        capacity_ := if size_ v =? 0 then 1 else 2 * size_ v |};
            size_ := size_ v |}
         (delete (blk (begin_ v))
            (<[nx := map Live (l1 ++ arg_value args :: l2)
                     ++ replicate (Z.to_nat (if size_ v =? 0 then 1 else 2 * size_ v)
                                   - S (length (l1 ++ l2))) Raw]> h))
         (nx + 1)
         (counters_add c (counters_add (arg_cost args) (counters_add
            (times (Z.of_nat (length (l1 ++ l2)))
               (if relocate_by_move then one_move_ctor else one_copy_ctor))
            (counters_add (times (Z.of_nat (length l2)) one_dtor)
               (leaks (Z.of_nat (length l1)))))))).
Proof.
  destruct v as [[[a o] cap] sz].
  unfold holds, begin_, GetAddress, Capacity, RawMemory_Capacity.
  cbn [data_ size_ buffer_ capacity_ blk ofs].
  intros (-> & _ & Hmax & -> & Hb) Hf <- Hnew Hargs Hrel.
  pose proof (max_alloc_small _ Hmax) as Hsmall.
  assert (Hnx : 0 < nx) by apply Hf.
  unfold Realloc. rewrite bind_get_this. cbn [this size_].
  set (sz := Z.of_nat (length (l1 ++ l2))) in *.
  assert (HS : sz = Z.of_nat (length l1) + Z.of_nat (length l2))
    by (unfold sz; rewrite length_app; lia).
  rewrite (wrap_small (sz * 2)) by lia.
  replace (sz * 2) with (2 * sz) by lia.
  set (new_cap := if sz =? 0 then 1 else 2 * sz) in *.
  assert (Hcap : sz + 1 ≤ new_cap)
    by (unfold new_cap; destruct (Z.eqb_spec sz 0); lia).
  rewrite (bind_Ok _ _ _ _ _ (RawMemory_sized_Ok _ _ _ _ new_cap ltac:(lia) Hnew)).
  destruct (Z.eqb_spec sz 0) as [Hz|Hz].
  - destruct l1; [|unfold sz in Hz; cbn in Hz; lia].
    destruct l2; [|unfold sz in Hz; cbn in Hz; lia].
    injection Hb as ->. unfold sz, new_cap. cbn [app length].
    change (Z.of_nat 0) with 0. cbn [Z.eqb].
    assert (Hnone : ∀ p q p' q' s,
      (if relocate_by_move
       then bind (uninitialized_move_n p 0 q) (λ _, uninitialized_move_n p' 0 q')
       else bind (uninitialized_copy_n p 0 q) (λ _, uninitialized_copy_n p' 0 q')) s
      = Ok tt s) by (intros; by destruct relocate_by_move).
    erewrite bind_Ok; cycle 1.
    { apply on_throw_Ok. unfold Realloc_body. rewrite bind_get_this.
      cbn [RawMemory_plus capacity_ Z.leb Z.compare buffer_ ptr_add blk ofs Z.add].
      rewrite bind_ret. unfold construct_at. rewrite bind_assoc.
      rewrite (bind_Ok _ _ _ _ _ (construct_Ok _ _ _ _ _ Hargs)).
      erewrite bind_Ok; cycle 1.
      { apply (store_eq _ _ _ _ nx [] [] Raw); [done|by rewrite lookup_insert_eq]. }
      rewrite insert_insert_eq. cbn [this size_ Z.sub Z.opp Z.add].
      change (wrap 0) with 0.
      rewrite (bind_Ok _ _ _ _ _ (Hnone _ _ _ _ _)).
      reflexivity. }
    cbn. rewrite delete_id
      by (rewrite lookup_insert_ne by lia; apply (fresh_null _ Hf)).
    unfold set_this. cbn [this heap next stats]. do 2 f_equal. counters_eq.
  - destruct Hb as [Ha Hb].
    replace (Z.to_nat sz - length (l1 ++ l2))%nat with 0%nat in Hb by lia.
    cbn [replicate] in Hb. rewrite app_nil_r in Hb.
    assert (Hanx : a ≠ nx) by (apply (fresh_lookup _ _ _ Hf) in Hb; cbn in Hb; lia).
    erewrite bind_Ok; cycle 1.
    { apply on_throw_Ok. apply Realloc_body_spec; try done.
      - by rewrite lookup_insert_ne.
      - by rewrite lookup_insert_eq. }
    unfold RawMemory_dtor, Deallocate. cbn [buffer_].
    erewrite operator_delete_block; [|done|by rewrite lookup_insert_eq].
    rewrite delete_insert_eq, insert_insert_eq.
    rewrite live_count_app, live_count_Raw, live_count_Live, length_drop.
    do 2 f_equal.
    replace (length (if relocate_by_move then map moved_from (l1 ++ l2) else l1 ++ l2))
      with (length l1 + length l2)%nat
      by (destruct relocate_by_move; by rewrite ?length_map, length_app).
    unfold sz. destruct relocate_by_move; counters_eq.
Qed.


Lemma Emplace_realloc v h nx c l1 l2 args :
  holds h v (l1 ++ l2) → fresh (State v h nx c) →
  size_ v = Capacity v →
  (if size_ v =? 0 then 1 else 2 * size_ v) ≤ max_alloc →
  arg_throws args = false →
  relocate_by_move = true ∨ Forall (λ x, copy_throws x = false) (l1 ++ l2) →
  Emplace (ptr_add (begin_ v) (Z.of_nat (length l1))) args (State v h nx c)
  = Ok (Ptr nx (Z.of_nat (length l1)))
      (State
         {| data_ := {| buffer_ := Ptr nx 0;
                        capacity_ := if size_ v =? 0 then 1 else 2 * size_ v |};
            size_ := size_ v + 1 |}
         (delete (blk (begin_ v))
            (<[nx := map Live (l1 ++ arg_value args :: l2)
                     ++ replicate (Z.to_nat (if size_ v =? 0 then 1 else 2 * size_ v)
                                   - S (length (l1 ++ l2))) Raw]> h))
         (nx + 1)
         (counters_add c (counters_add (arg_cost args) (counters_add
            (times (Z.of_nat (length (l1 ++ l2)))
               (if relocate_by_move then one_move_ctor else one_copy_ctor))
            (counters_add (times (Z.of_nat (length l2)) one_dtor)
               (leaks (Z.of_nat (length l1)))))))).
Proof.
  intros Hv Hf Hfull Hnew Hargs Hrel.
  pose proof (Realloc_spec _ _ _ _ _ _ _ Hv Hf Hfull Hnew Hargs Hrel) as HR.
  destruct v as [[[a o] cap] sz].
  unfold holds, begin_, GetAddress, Capacity, RawMemory_Capacity in *.
  cbn [data_ size_ buffer_ capacity_ blk ofs] in *.
  destruct Hv as (-> & _ & Hmax & -> & Hb). subst cap.
  pose proof (max_alloc_small _ Hmax) as Hsmall.
  unfold Emplace. rewrite bind_get_this.
  unfold cbegin_, begin_, GetAddress, RawMemory_Capacity, ptr_diff.
  cbn [this data_ size_ buffer_ capacity_ ptr_add blk ofs].
  rewrite Z.ltb_irrefl.
  replace (0 + Z.of_nat (length l1) - 0) with (Z.of_nat (length l1)) by lia.
  assert (Hl1 : Z.of_nat (length l1) ≤ Z.of_nat (length (l1 ++ l2)))
    by (rewrite length_app; lia).
  rewrite (wrap_small (Z.of_nat (length l1))) by lia.
  rewrite (bind_Ok _ _ _ _ _ HR).
  rewrite bind_get_this, bind_put_this. unfold set_this, with_size, RawMemory_plus.
  cbn [this heap next stats data_ size_ capacity_ buffer_].
  rewrite wrap_small by lia.
  destruct (Z.leb_spec (Z.of_nat (length l1))
              (if Z.of_nat (length (l1 ++ l2)) =? 0 then 1
               else 2 * Z.of_nat (length (l1 ++ l2)))) as [_|Hlt].
  - by rewrite ptr_add_Ptr.
  - destruct (Z.eqb_spec (Z.of_nat (length (l1 ++ l2))) 0); lia.
Qed.

(** ** [PopBack] and [Erase] *)

Lemma move_assign_at_left v h n c a p q w x :
  h !! a = Some (p ++ Live w :: Live x :: q) →
  move_assign_at (Ptr a (Z.of_nat (length p))) (Ptr a (Z.of_nat (length p) + 1))
    (State v h n c)
  = Ok tt (State v (<[a := p ++ Live x :: Live (moved_from x) :: q]> h) n
             (counters_add c one_move_assign)).
Proof.
  intros Ha. unfold move_assign_at.
  assert (Ha' : h !! a = Some ((p ++ [Live w]) ++ Live x :: q))
    by (by rewrite <- app_assoc).
  rewrite <- (length_snoc_Z p (Live w)).
  rewrite (bind_Ok _ _ _ _ _ (read_mid _ _ _ _ _ _ _ _ Ha')).
  rewrite (bind_Ok _ _ _ _ _ (read_mid _ _ _ _ _ _ _ _ Ha)).
  rewrite (bind_Ok _ _ _ _ _ (store_mid _ _ _ _ _ _ _ _ (Live x) Ha)).
  erewrite bind_Ok; cycle 1.
  { apply (store_eq _ _ _ _ _ (p ++ [Live x]) q (Live x)).
    - by rewrite !length_app.
    - by rewrite lookup_insert_eq, <- app_assoc. }
  by rewrite insert_insert_eq, <- app_assoc.
Qed.

Lemma from_last_cons {A B} (f : A → B) (w w' : B) xs : ∀ t,
  from_option f w (last (t :: xs)) = from_option f w' (last (t :: xs)).
Proof. induction xs as [|y xs IH]; intros t; [done|]. apply (IH y). Qed.

Lemma move_loop_spec xs : ∀ v h n c a p q w,
  h !! a = Some (p ++ Live w :: map Live xs ++ q) →
  move_loop (length xs) (Ptr a (Z.of_nat (length p) + 1))
    (Ptr a (Z.of_nat (length p))) (State v h n c)
  = Ok tt (State v
      (<[a := p ++ map Live xs
               ++ Live (from_option moved_from w (last xs)) :: q]> h) n
      (counters_add c (times (Z.of_nat (length xs)) one_move_assign))).
Proof.
  induction xs as [|x xs IH]; intros v h n c a p q w Ha.
  - cbn [length move_loop map app last from_option] in *. unfold ret.
    rewrite insert_id by done. by rewrite times_0, counters_add_0.
  - cbn [length move_loop map app] in *.
    rewrite (bind_Ok _ _ _ _ _ (move_assign_at_left _ _ _ _ _ _ _ _ _ Ha)).
    rewrite (ptr_next _ p (Live x)), ptr_add_Ptr.
    rewrite <- (length_snoc_Z p (Live x)).
    rewrite (IH _ _ _ _ a (p ++ [Live x]) q (moved_from x)).
    + rewrite insert_insert_eq, times_succ, counters_add_assoc, <- app_assoc.
      cbn [app].
      replace (from_option moved_from w (last (x :: xs)))
        with (from_option moved_from (moved_from x) (last xs)); [done|].
      destruct xs as [|t xs]; [done|].
      exact (from_last_cons moved_from (moved_from x) w xs t).
    + by rewrite lookup_insert_eq, <- app_assoc.
Qed.

Lemma PopBack_spec v h n c l x :
  holds h v (l ++ [x]) →
  PopBack (State v h n c)
  = Ok tt (State (with_size v (size_ v - 1))
             (<[blk (begin_ v) :=
                  map Live l ++ replicate (Z.to_nat (Capacity v) - length l) Raw]> h)
             n (counters_add c one_dtor)).
Proof.
  destruct v as [[[a o] cap] sz].
  unfold holds, begin_, GetAddress, Capacity, RawMemory_Capacity.
  cbn [data_ size_ buffer_ capacity_ blk ofs].
  intros (-> & Hle & Hmax & -> & Hb).
  pose proof (max_alloc_small _ Hmax) as Hsmall.
  rewrite length_app in *. cbn [length] in *.
  destruct (Z.eqb_spec cap 0) as [->|Hcap]; [lia|]. destruct Hb as [Ha Hb].
  unfold PopBack. rewrite bind_get_this. unfold end_, GetAddress.
  cbn [this data_ size_ buffer_]. rewrite !ptr_add_Ptr.
  destruct (Z.ltb_spec 0 (Z.of_nat (length l + 1))); [|lia].
  erewrite bind_Ok; cycle 1.
  { apply (destroy_at_eq _ _ _ _ a (map Live l)
             (replicate (Z.to_nat cap - (length l + 1)) Raw) x).
    - rewrite length_map. lia.
    - rewrite Hb, map_app. by rewrite <- app_assoc. }
  unfold put_this, set_this, with_size.
  cbn [this heap next stats data_ size_]. rewrite wrap_small by lia.
  replace (Z.of_nat (length l + 1) - 1) with (Z.of_nat (length l)) by lia.
  replace (Z.to_nat cap - length l)%nat
    with (S (Z.to_nat cap - (length l + 1))) by lia.
  done.
Qed.


Lemma Erase_spec v h n c l1 x l2 :
  holds h v (l1 ++ x :: l2) →
  Erase (ptr_add (begin_ v) (Z.of_nat (length l1))) (State v h n c)
  = Ok (ptr_add (begin_ v) (Z.of_nat (length l1)))
      (State (with_size v (size_ v - 1))
         (<[blk (begin_ v) :=
              map Live (l1 ++ l2)
              ++ replicate (Z.to_nat (Capacity v) - length (l1 ++ l2)) Raw]> h)
         n
         (counters_add c
            (counters_add (times (Z.of_nat (length l2)) one_move_assign) one_dtor))).
Proof.
  intros Hv.
  set (z := from_option moved_from x (last l2)).
  set (h' := <[blk (begin_ v) :=
                 map Live ((l1 ++ l2) ++ [z])
                 ++ replicate (Z.to_nat (Capacity v) - length ((l1 ++ l2) ++ [z])) Raw]> h).
  assert (Hv' : holds h' v ((l1 ++ l2) ++ [z])).
  { unfold holds in *. destruct Hv as (Hsz & Hle & Hmax & Hofs & Hb).
    rewrite !length_app in *. cbn [length] in *.
    repeat split; [lia|done|done|done|].
    destruct (Capacity v =? 0); [done|]. split; [apply Hb|].
    unfold h', begin_, GetAddress. by rewrite lookup_insert_eq, !length_app. }
  pose proof (PopBack_spec v h' n
    (counters_add c (times (Z.of_nat (length l2)) one_move_assign)) _ _ Hv') as HP.
  destruct v as [[[a o] cap] sz].
  unfold holds, begin_, GetAddress, Capacity, RawMemory_Capacity in *.
  cbn [data_ size_ buffer_ capacity_ blk ofs] in *.
  destruct Hv as (-> & Hle & Hmax & -> & Hb). clear Hv'.
  pose proof (max_alloc_small _ Hmax) as Hsmall.
  rewrite length_app in *. cbn [length] in *.
  destruct (Z.eqb_spec cap 0) as [->|Hcap]; [lia|]. destruct Hb as [Ha Hb].
  unfold Erase. rewrite bind_get_this.
  unfold cend_, cbegin_, end_, GetAddress, ptr_ltb, ptr_diff, RawMemory_plus.
  cbn [this data_ size_ buffer_ capacity_ ptr_add blk ofs].
  destruct (Z.ltb_spec (0 + Z.of_nat (length l1))
              (0 + Z.of_nat (length l1 + S (length l2)))); [|lia].
  replace (0 + Z.of_nat (length l1) - 0) with (Z.of_nat (length l1)) by lia.
  rewrite (wrap_small (Z.of_nat (length l1))) by lia.
  destruct (Z.leb_spec (Z.of_nat (length l1)) cap); [|lia].
  rewrite !bind_ret. unfold move_range, ptr_diff. rewrite !ptr_add_Ptr.
  cbn [ofs blk].
  match goal with |- context [?d <? 0] => destruct (Z.ltb_spec d 0); [lia|] end.
  replace (Z.to_nat _) with (length l2) by lia.
  erewrite bind_Ok; cycle 1.
  { replace (0 + Z.of_nat (length l1)) with (Z.of_nat (length (map Live l1)))
      by (rewrite length_map; lia).
    apply (move_loop_spec l2 _ _ _ _ a (map Live l1)
             (replicate (Z.to_nat cap - (length l1 + S (length l2))) Raw) x).
    rewrite Hb, map_app. cbn [map]. by rewrite <- !app_assoc. }
  fold z.
  replace (<[a := _]> h) with h'; cycle 1.
  { unfold h'. f_equal. rewrite !map_app, !length_app. cbn [map length].
    rewrite <- !app_assoc. cbn [app]. do 4 f_equal. lia. }
  rewrite (bind_Ok _ _ _ _ _ HP), bind_get_this. unfold with_size.
  cbn [this data_ size_ buffer_ capacity_].
  destruct (Z.leb_spec (Z.of_nat (length l1)) cap); [|lia].
  unfold ret, h'. rewrite insert_insert_eq, ptr_add_Ptr, counters_add_assoc.
  done.
Qed.

Lemma holds_erased h v l1 x l2 :
  holds h v (l1 ++ x :: l2) →
  holds (<[blk (begin_ v) :=
             map Live (l1 ++ l2)
             ++ replicate (Z.to_nat (Capacity v) - length (l1 ++ l2)) Raw]> h)
    (with_size v (size_ v - 1)) (l1 ++ l2).
Proof.
  unfold holds, with_size, Capacity, RawMemory_Capacity, begin_, GetAddress.
  cbn [data_ size_]. rewrite !length_app. cbn [length].
  intros (Hsz & Hle & Hmax & Hofs & Hb).
  repeat split; [lia|lia|done|done|].
  destruct (Z.eqb_spec (capacity_ (data_ v)) 0); [lia|].
  split; [apply Hb|]. by rewrite lookup_insert_eq.
Qed.


(** ** Copy construction, destruction and copy assignment *)

Lemma first_throw (l : list T) :
  Exists (λ x, copy_throws x = true) l →
  ∃ xs1 x xs2, l = xs1 ++ x :: xs2
    ∧ Forall (λ z, copy_throws z = false) xs1 ∧ copy_throws x = true.
Proof.
  induction l as [|y l IH]; intros Hex; [by apply Exists_nil in Hex|].
  destruct (copy_throws y) eqn:Hy.
  - by exists [], y, l.
  - apply Exists_cons in Hex as [Hex|Hex]; [congruence|].
    destruct (IH Hex) as (xs1 & x & xs2 & -> & Hxs & Hx).
    exists (y :: xs1), x, xs2. repeat split; [|done]. by constructor.
Qed.

Lemma Vector_copy_spec v h nx c o lo :
  holds h o lo → fresh (State v h nx c) → 0 < size_ o →
  Forall (λ x, copy_throws x = false) lo →
  Vector_copy o (State v h nx c)
  = Ok {| data_ := {| buffer_ := Ptr nx 0; capacity_ := size_ o |};
          size_ := size_ o |}
      (State v (<[nx := map Live lo]> h) (nx + 1)
         (counters_add c (times (size_ o) one_copy_ctor))).
Proof.
  destruct o as [[[a k] cap] sz].
  unfold holds, begin_, GetAddress, Capacity, RawMemory_Capacity.
  cbn [data_ size_ buffer_ capacity_ blk ofs].
  intros (-> & Hle & Hmax & -> & Hb) Hf Hpos Hlo.
  destruct (Z.eqb_spec cap 0) as [->|Hcap]; [lia|]. destruct Hb as [Ha Hb].
  assert (Hanx : a ≠ nx) by (apply (fresh_lookup _ _ _ Hf) in Hb; cbn in Hb; lia).
  unfold Vector_copy. cbn [size_].
  rewrite (bind_Ok _ _ _ _ _ (RawMemory_sized_Ok _ _ _ _ _ Hpos ltac:(lia))).
  unfold begin_, GetAddress. cbn [data_ buffer_ size_].
  erewrite bind_Ok; cycle 1.
  { apply on_throw_Ok.
    apply (uninitialized_copy_n_spec lo _ _ _ _ a nx []
             (replicate (Z.to_nat cap - length lo) Raw) []
             (replicate (length lo) Raw) []); try done.
    - by rewrite length_replicate.
    - by rewrite lookup_insert_ne.
    - by rewrite lookup_insert_eq, Nat2Z.id, app_nil_r. }
  unfold ret. cbn [app]. by rewrite insert_insert_eq, app_nil_r.
Qed.

Lemma Vector_copy_Throw v h nx c o xs1 x xs2 :
  holds h o (xs1 ++ x :: xs2) → fresh (State v h nx c) →
  Forall (λ z, copy_throws z = false) xs1 → copy_throws x = true →
  Vector_copy o (State v h nx c)
  = Throw (State v h (nx + 1)
      (counters_add c
         (counters_add (times (Z.of_nat (length xs1)) one_copy_ctor)
            (times (Z.of_nat (length xs1)) one_dtor)))).
Proof.
  destruct o as [[[a k] cap] sz].
  unfold holds, begin_, GetAddress, Capacity, RawMemory_Capacity.
  cbn [data_ size_ buffer_ capacity_ blk ofs].
  intros (-> & Hle & Hmax & -> & Hb) Hf Hxs Hx.
  assert (Hlen : length (xs1 ++ x :: xs2) = (length xs1 + S (length xs2))%nat)
    by (by rewrite length_app).
  destruct (Z.eqb_spec cap 0) as [->|Hcap]; [lia|]. destruct Hb as [Ha Hb].
  assert (Hanx : a ≠ nx) by (apply (fresh_lookup _ _ _ Hf) in Hb; cbn in Hb; lia).
  unfold Vector_copy. cbn [size_].
  rewrite (bind_Ok _ _ _ _ _ (RawMemory_sized_Ok _ _ _ _
             (Z.of_nat (length (xs1 ++ x :: xs2))) ltac:(lia) ltac:(lia))).
  unfold begin_, GetAddress. cbn [data_ buffer_ size_].
  apply bind_Throw. eapply on_throw_Throw.
  - apply (uninitialized_copy_n_Throw xs1 x xs2 _ _ _ _ a nx []
             (replicate (Z.to_nat cap - length (xs1 ++ x :: xs2)) Raw) []
             (length (xs1 ++ x :: xs2)) []); try done.
    + lia.
    + by rewrite lookup_insert_ne.
    + by rewrite lookup_insert_eq, Nat2Z.id, app_nil_r.
  - assert (Hnx : 0 < nx) by apply Hf.
    unfold RawMemory_dtor, Deallocate. cbn [buffer_].
    erewrite operator_delete_block; [|lia|by rewrite lookup_insert_eq].
    rewrite live_count_Raw, leaks_0.
    rewrite delete_insert_id; [done|].
    apply (fresh_next _ _ Hf). cbn. lia.
Qed.

Lemma Vector_dtor_spec v0 h n c v l :
  holds h v l →
  Vector_dtor v (State v0 h n c)
  = Ok tt (State v0 (delete (blk (begin_ v)) h) n
             (counters_add c (times (Z.of_nat (length l)) one_dtor)))
    ∨ (Capacity v = 0 ∧ Vector_dtor v (State v0 h n c) = Ok tt (State v0 h n c)).
Proof.
  destruct v as [[[a k] cap] sz].
  unfold holds, begin_, GetAddress, Capacity, RawMemory_Capacity.
  cbn [data_ size_ buffer_ capacity_ blk ofs].
  intros (-> & Hle & Hmax & -> & Hb).
  destruct (Z.eqb_spec cap 0) as [->|Hcap].
  - right. split; [done|]. destruct l; [|cbn in Hle; lia].
    by injection Hb as ->.
  - left. destruct Hb as [Ha Hb]. unfold Vector_dtor, begin_, GetAddress.
    cbn [data_ buffer_ size_].
    erewrite bind_Ok; cycle 1.
    { by apply (destroy_n_spec l _ _ _ _ a []
                  (replicate (Z.to_nat cap - length l) Raw)). }
    unfold RawMemory_dtor, Deallocate. cbn [buffer_].
    erewrite operator_delete_block; [|done|by rewrite lookup_insert_eq].
    cbn [app]. rewrite live_count_app, !live_count_Raw, delete_insert_eq.
    do 2 f_equal. counters_eq.
Qed.

Lemma holds_insert h v l b x :
  holds h v l → blk (begin_ v) ≠ b → holds (<[b := x]> h) v l.
Proof.
  unfold holds, begin_, GetAddress. intros (? & ? & ? & ? & Hb) Hne.
  repeat split; try done. destruct (Capacity v =? 0); [done|].
  split; [apply Hb|]. rewrite lookup_insert_ne by done. apply Hb.
Qed.

Lemma holds_delete h v l b :
  holds h v l → blk (begin_ v) ≠ b → holds (delete b h) v l.
Proof.
  unfold holds, begin_, GetAddress. intros (? & ? & ? & ? & Hb) Hne.
  repeat split; try done. destruct (Capacity v =? 0); [done|].
  split; [apply Hb|]. rewrite lookup_delete_ne by done. apply Hb.
Qed.

Lemma holds_block h v l :
  holds h v l → Capacity v ≠ 0 →
  blk (begin_ v) ≠ 0 ∧ is_Some (h !! blk (begin_ v)).
Proof.
  unfold holds, begin_, GetAddress. intros (? & ? & ? & ? & Hb) Hne.
  destruct (Z.eqb_spec (Capacity v) 0); [done|]. destruct Hb as [? ->]. eauto.
Qed.

Lemma holds_null h v l :
  holds h v l → Capacity v = 0 → blk (begin_ v) = 0 ∧ l = [].
Proof.
  unfold holds, begin_, GetAddress. intros (? & ? & ? & ? & Hb) Hz.
  rewrite Hz in *. cbn in Hb. rewrite Hb. split; [done|].
  destruct l; [done|]. cbn in *. lia.
Qed.

Lemma holds_fresh_ne s v l :
  fresh s → holds (heap s) v l → blk (begin_ v) ≠ next s.
Proof.
  intros Hf Hv. assert (0 < next s) by apply Hf.
  destruct (Z.eq_dec (Capacity v) 0) as [Hz|Hz].
  - destruct (holds_null _ _ _ Hv Hz) as [-> _]. lia.
  - destruct (holds_block _ _ _ Hv Hz) as [_ [b Hb]].
    apply (fresh_lookup _ _ _ Hf) in Hb. lia.
Qed.

(** ** [Emplace] when there is room *)

Lemma move_assign_at_right v h n c a p q w x :
  h !! a = Some (p ++ Live x :: Live w :: q) →
  move_assign_at (Ptr a (Z.of_nat (length p) + 1)) (Ptr a (Z.of_nat (length p)))
    (State v h n c)
  = Ok tt (State v (<[a := p ++ Live (moved_from x) :: Live x :: q]> h) n
             (counters_add c one_move_assign)).
Proof.
  intros Ha. unfold move_assign_at.
  assert (Ha' : h !! a = Some ((p ++ [Live x]) ++ Live w :: q))
    by (by rewrite <- app_assoc).
  rewrite (bind_Ok _ _ _ _ _ (read_mid _ _ _ _ _ _ _ _ Ha)).
  rewrite <- (length_snoc_Z p (Live x)).
  rewrite (bind_Ok _ _ _ _ _ (read_mid _ _ _ _ _ _ _ _ Ha')).
  rewrite (bind_Ok _ _ _ _ _ (store_mid _ _ _ _ _ _ _ _ (Live x) Ha')).
  erewrite bind_Ok; cycle 1.
  { apply (store_eq _ _ _ _ _ p (Live x :: q) (Live x)).
    - done.
    - by rewrite lookup_insert_eq, <- app_assoc. }
  by rewrite insert_insert_eq.
Qed.

Lemma from_head_snoc {A B} (f : A → B) (w : B) xs x :
  from_option f w (head (xs ++ [x])) = from_option f (f x) (head xs).
Proof. by destruct xs. Qed.

Lemma move_backward_loop_spec xs : ∀ v h n c a p q w,
  h !! a = Some (p ++ map Live xs ++ Live w :: q) →
  move_backward_loop (length xs)
    (Ptr a (Z.of_nat (length p) + Z.of_nat (length xs)))
    (Ptr a (Z.of_nat (length p) + Z.of_nat (length xs) + 1)) (State v h n c)
  = Ok tt (State v
      (<[a := p ++ Live (from_option moved_from w (head xs)) :: map Live xs ++ q]> h)
      n (counters_add c (times (Z.of_nat (length xs)) one_move_assign))).
Proof.
  induction xs as [|x xs IH] using rev_ind; intros v h n c a p q w Ha.
  - cbn [length move_backward_loop map app head from_option] in *. unfold ret.
    rewrite insert_id by done. by rewrite times_0, counters_add_0.
  - rewrite length_app, Nat.add_comm. cbn [length Nat.add move_backward_loop].
    rewrite map_app in Ha. cbn [map] in Ha. rewrite <- app_assoc in Ha.
    cbn [app] in Ha. rewrite !ptr_add_Ptr.
    replace (Z.of_nat (length p) + Z.of_nat (S (length xs)) + 1 + -1)
      with (Z.of_nat (length (p ++ map Live xs)) + 1)
      by (rewrite length_app, length_map; lia).
    replace (Z.of_nat (length p) + Z.of_nat (S (length xs)) + -1)
      with (Z.of_nat (length (p ++ map Live xs)))
      by (rewrite length_app, length_map; lia).
    erewrite bind_Ok; cycle 1.
    { apply (move_assign_at_right _ _ _ _ a (p ++ map Live xs) q w x).
      by rewrite <- app_assoc. }
    rewrite length_app, length_map, Nat2Z.inj_add.
    rewrite (IH _ _ _ _ a p (Live x :: q) (moved_from x)).
    + rewrite insert_insert_eq, from_head_snoc, map_app. cbn [map].
      rewrite <- !app_assoc. cbn [app]. do 2 f_equal. rewrite !Nat2Z.inj_succ.
      counters_eq.
    + by rewrite lookup_insert_eq, <- app_assoc.
Qed.

Lemma move_construct_at_next v h n c a p q z y :
  h !! a = Some (p ++ Live z :: y :: q) →
  move_construct_at (Ptr a (Z.of_nat (length p) + 1)) (Ptr a (Z.of_nat (length p)))
    (State v h n c)
  = Ok tt (State v (<[a := p ++ Live (moved_from z) :: Live z :: q]> h) n
             (counters_add c one_move_ctor)).
Proof.
  intros Ha. unfold move_construct_at.
  assert (Ha' : h !! a = Some ((p ++ [Live z]) ++ y :: q))
    by (by rewrite <- app_assoc).
  rewrite (bind_Ok _ _ _ _ _ (read_mid _ _ _ _ _ _ _ _ Ha)).
  rewrite <- (length_snoc_Z p (Live z)).
  rewrite (bind_Ok _ _ _ _ _ (store_mid _ _ _ _ _ _ _ _ (Live z) Ha')).
  erewrite bind_Ok; cycle 1.
  { apply (store_eq _ _ _ _ _ p (Live z :: q) (Live z)).
    - done.
    - by rewrite lookup_insert_eq, <- app_assoc. }
  by rewrite insert_insert_eq.
Qed.

Lemma move_assign_value_spec v h n c a p q w x i :
  i = Z.of_nat (length p) → h !! a = Some (p ++ Live w :: q) →
  move_assign_value (Ptr a i) x (State v h n c)
  = Ok tt (State v (<[a := p ++ Live x :: q]> h) n
             (counters_add c one_move_assign)).
Proof.
  intros -> Ha. unfold move_assign_value.
  rewrite (bind_Ok _ _ _ _ _ (read_mid _ _ _ _ _ _ _ _ Ha)).
  by rewrite (bind_Ok _ _ _ _ _ (store_mid _ _ _ _ _ _ _ _ (Live x) Ha)).
Qed.

(** Insertion before an element, with room for it: the elements from the
    position on move one slot to the right. *)
Lemma NoRealloc_middle v h n c l1 m z args :
  holds h v (l1 ++ m ++ [z]) → size_ v < Capacity v → arg_throws args = false →
  NoRealloc (Z.of_nat (length l1)) args (State v h n c)
  = Ok tt (State v
      (<[blk (begin_ v) :=
           map Live (l1 ++ arg_value args :: m ++ [z])
           ++ replicate (Z.to_nat (Capacity v) - S (length (l1 ++ m ++ [z]))) Raw]> h)
      n
      (counters_add c (counters_add (arg_cost args) (counters_add one_move_ctor
         (counters_add (times (Z.of_nat (length m) + 1) one_move_assign) one_dtor))))).
Proof.
  destruct v as [[[a o] cap] sz].
  unfold holds, begin_, GetAddress, Capacity, RawMemory_Capacity.
  cbn [data_ size_ buffer_ capacity_ blk ofs].
  intros (-> & Hle & Hmax & -> & Hb) Hlt Hargs.
  pose proof (max_alloc_small _ Hmax) as Hsmall.
  rewrite !length_app in *. cbn [length] in *.
  destruct (Z.eqb_spec cap 0) as [->|Hcap]; [lia|]. destruct Hb as [Ha Hb].
  set (r := replicate (Z.to_nat cap - S (length l1 + (length m + 1))) Raw).
  assert (Hb' : h !! a = Some (map Live (l1 ++ m) ++ Live z :: Raw :: r)).
  { rewrite Hb, !map_app. cbn [map]. rewrite <- !app_assoc. cbn [app].
    do 4 f_equal. unfold r.
    replace (Z.to_nat cap - (length l1 + (length m + 1)))%nat
      with (S (Z.to_nat cap - S (length l1 + (length m + 1)))) by lia.
    done. }
  unfold NoRealloc.
  rewrite (bind_Ok _ _ _ _ _ (construct_Ok _ _ _ _ _ Hargs)), bind_get_this.
  unfold RawMemory_at, end_, begin_, GetAddress.
  cbn [this data_ size_ buffer_ capacity_].
  erewrite bind_Ok; cycle 1.
  { apply on_throw_Ok. rewrite wrap_small by lia.
    destruct (Z.ltb_spec (Z.of_nat (length l1 + (length m + 1)) - 1) cap); [|lia].
    rewrite bind_ret, !ptr_add_Ptr.
    replace (0 + (Z.of_nat (length l1 + (length m + 1)) - 1))
      with (Z.of_nat (length (map Live (l1 ++ m))))
      by (rewrite length_map, length_app; lia).
    replace (0 + Z.of_nat (length l1 + (length m + 1)))
      with (Z.of_nat (length (map Live (l1 ++ m))) + 1)
      by (rewrite length_map, length_app; lia).
    rewrite (bind_Ok _ _ _ _ _ (move_construct_at_next _ _ _ _ _ _ _ _ _ Hb')).
    unfold move_backward, ptr_diff. cbn [ofs].
    match goal with |- context [?d <? 0] =>
      destruct (Z.ltb_spec d 0); [rewrite length_map, length_app in *; lia|]
    end.
    replace (Z.to_nat _) with (length m)
      by (rewrite length_map, length_app; lia).
    replace (Z.of_nat (length (map Live (l1 ++ m))) + 1 + -1)
      with (Z.of_nat (length (map Live l1)) + Z.of_nat (length m))
      by (rewrite !length_map, length_app; lia).
    replace (Z.of_nat (length (map Live (l1 ++ m))) + 1)
      with (Z.of_nat (length (map Live l1)) + Z.of_nat (length m) + 1)
      by (rewrite !length_map, length_app; lia).
    erewrite bind_Ok; cycle 1.
    { apply (move_backward_loop_spec m _ _ _ _ a (map Live l1) (Live z :: r)
               (moved_from z)).
      rewrite lookup_insert_eq, map_app. by rewrite <- app_assoc. }
    destruct (Z.ltb_spec (Z.of_nat (length l1)) cap); [|lia].
    rewrite bind_ret.
    eapply (move_assign_value_spec _ _ _ _ a (map Live l1) (map Live m ++ Live z :: r)).
    - rewrite length_map. lia.
    - by rewrite lookup_insert_eq. }
  unfold count, add_stats. cbn [this heap next stats].
  rewrite !insert_insert_eq. do 2 f_equal.
  - f_equal. rewrite !map_app. cbn [map]. rewrite !map_app. cbn [map].
    cbn [app]. rewrite <- ?app_assoc. cbn [app]. by rewrite <- ?app_assoc.
  - counters_eq.
Qed.

(** Insertion at [end()], with room for it: the old last element is moved
    into the new slot, and [std::move_backward] is called with
    [first = end()] and [last = end() - 1]. *)
Lemma NoRealloc_end v h n c l z args :
  holds h v (l ++ [z]) → size_ v < Capacity v → arg_throws args = false →
  NoRealloc (size_ v) args (State v h n c) = UB.
Proof.
  destruct v as [[[a o] cap] sz].
  unfold holds, begin_, GetAddress, Capacity, RawMemory_Capacity.
  cbn [data_ size_ buffer_ capacity_ blk ofs].
  intros (-> & Hle & Hmax & -> & Hb) Hlt Hargs.
  pose proof (max_alloc_small _ Hmax) as Hsmall.
  rewrite !length_app in *. cbn [length] in *.
  destruct (Z.eqb_spec cap 0) as [->|Hcap]; [lia|]. destruct Hb as [Ha Hb].
  set (r := replicate (Z.to_nat cap - S (length l + 1)) Raw).
  assert (Hb' : h !! a = Some (map Live l ++ Live z :: Raw :: r)).
  { rewrite Hb, !map_app. cbn [map]. rewrite <- !app_assoc. cbn [app].
    do 3 f_equal. unfold r.
    replace (Z.to_nat cap - (length l + 1))%nat
      with (S (Z.to_nat cap - S (length l + 1))) by lia.
    done. }
  unfold NoRealloc.
  rewrite (bind_Ok _ _ _ _ _ (construct_Ok _ _ _ _ _ Hargs)), bind_get_this.
  unfold RawMemory_at, end_, begin_, GetAddress.
  cbn [this data_ size_ buffer_ capacity_].
  apply bind_UB. unfold on_throw.
  rewrite wrap_small by lia.
  destruct (Z.ltb_spec (Z.of_nat (length l + 1) - 1) cap); [|lia].
  rewrite bind_ret, !ptr_add_Ptr.
  replace (0 + (Z.of_nat (length l + 1) - 1))
    with (Z.of_nat (length (map Live l))) by (rewrite length_map; lia).
  replace (0 + Z.of_nat (length l + 1))
    with (Z.of_nat (length (map Live l)) + 1) by (rewrite length_map; lia).
  rewrite (bind_Ok _ _ _ _ _ (move_construct_at_next _ _ _ _ _ _ _ _ _ Hb')).
  unfold move_backward, ptr_diff. cbn [ofs].
  match goal with |- context [?d <? 0] => destruct (Z.ltb_spec d 0); [|lia] end.
  done.
Qed.

(** With room but no element the source reads [data_[size_ - 1]] for
    [size_ = 0]: the index wraps to [SIZE_MOD - 1] and the [assert] of
    [operator[]] fails. *)
Lemma NoRealloc_empty v h n c i args :
  size_ v = 0 → Capacity v ≤ max_alloc → arg_throws args = false →
  NoRealloc i args (State v h n c) = UB.
Proof.
  destruct v as [[b cap] sz]. unfold Capacity, RawMemory_Capacity.
  cbn [data_ size_ capacity_]. intros -> Hmax Hargs.
  pose proof (max_alloc_small _ Hmax) as Hsmall.
  unfold NoRealloc.
  rewrite (bind_Ok _ _ _ _ _ (construct_Ok _ _ _ _ _ Hargs)), bind_get_this.
  unfold RawMemory_at. cbn [this data_ size_ capacity_].
  replace (wrap (0 - 1)) with (SIZE_MOD - 1) by done.
  destruct (Z.ltb_spec (SIZE_MOD - 1) cap); [unfold SIZE_MOD in *; lia|]. done.
Qed.

Lemma Emplace_in_place v h n c i args h' c' :
  0 ≤ i ≤ size_ v → size_ v < Capacity v → Capacity v ≤ max_alloc →
  ofs (begin_ v) = 0 →
  NoRealloc i args (State v h n c) = Ok tt (State v h' n c') →
  Emplace (ptr_add (begin_ v) i) args (State v h n c)
  = Ok (ptr_add (begin_ v) i) (State (with_size v (size_ v + 1)) h' n c').
Proof.
  destruct v as [[[a o] cap] sz].
  unfold begin_, GetAddress, Capacity, RawMemory_Capacity.
  cbn [data_ size_ buffer_ capacity_ ofs]. intros Hi Hlt Hmax -> HN.
  pose proof (max_alloc_small _ Hmax) as Hsmall.
  unfold Emplace. rewrite bind_get_this.
  unfold cbegin_, GetAddress, RawMemory_Capacity, ptr_diff.
  cbn [this data_ size_ buffer_ capacity_ ptr_add blk ofs].
  destruct (Z.ltb_spec sz cap); [|lia].
  replace (0 + i - 0) with i by lia. rewrite (wrap_small i) by lia.
  rewrite (bind_Ok _ _ _ _ _ HN).
  rewrite bind_get_this, bind_put_this. unfold set_this, with_size, RawMemory_plus.
  cbn [this heap next stats data_ size_ capacity_ buffer_].
  rewrite wrap_small by lia.
  destruct (Z.leb_spec i cap); [|lia]. done.
Qed.

(** [Emplace] before an element while [Size() < Capacity()]: the new element
    is at its position, the others keep their order, nothing is allocated. *)
Lemma Emplace_in_place_middle v h n c l1 m z args :
  holds h v (l1 ++ m ++ [z]) → size_ v < Capacity v → arg_throws args = false →
  ∃ h' c',
    Emplace (ptr_add (begin_ v) (Z.of_nat (length l1))) args (State v h n c)
    = Ok (ptr_add (begin_ v) (Z.of_nat (length l1)))
         (State (with_size v (size_ v + 1)) h' n c') ∧
    holds h' (with_size v (size_ v + 1)) (l1 ++ arg_value args :: m ++ [z]).
Proof.
  intros Hv Hlt Hargs.
  pose proof (NoRealloc_middle _ _ n c _ _ _ _ Hv Hlt Hargs) as HN.
  destruct Hv as (Hsz & Hle & Hmax & Ho & Hb).
  do 2 eexists. split.
  - apply Emplace_in_place; [|done..|exact HN].
    rewrite Hsz, !length_app. lia.
  - unfold holds, with_size, Capacity, RawMemory_Capacity in *.
    cbn [data_ size_]. rewrite !length_app in *. cbn [length] in *.
    rewrite !length_app in *. cbn [length] in *.
    split; [lia|]. split; [lia|]. split; [done|]. split; [done|].
    destruct (Z.eqb_spec (capacity_ (data_ v)) 0) as [|_]; [lia|].
    destruct Hb as [Ha _]. split; [done|].
    unfold begin_, GetAddress. rewrite lookup_insert_eq. do 2 f_equal.
    repeat (rewrite ?length_app; cbn [length]). f_equal. lia.
Qed.

(** [Emplace] at [end()] while [0 < Size() < Capacity()]. *)
Lemma Emplace_in_place_end v h n c l z args :
  holds h v (l ++ [z]) → size_ v < Capacity v → arg_throws args = false →
  Emplace (end_ v) args (State v h n c) = UB.
Proof.
  intros Hv Hlt Hargs.
  pose proof (NoRealloc_end _ _ n c _ _ _ Hv Hlt Hargs) as HN.
  destruct Hv as (Hsz & Hle & Hmax & Ho & _).
  destruct v as [[[a o] cap] sz].
  unfold Capacity, RawMemory_Capacity in *.
  cbn [data_ size_ buffer_ capacity_ ofs] in *. subst o.
  pose proof (max_alloc_small _ Hmax) as Hsmall.
  unfold Emplace. rewrite bind_get_this.
  unfold cbegin_, end_, GetAddress, RawMemory_Capacity, ptr_diff.
  cbn [this data_ size_ buffer_ capacity_ ptr_add blk ofs].
  destruct (Z.ltb_spec sz cap); [|lia].
  replace (0 + sz - 0) with sz by lia. rewrite (wrap_small sz) by lia.
  by apply bind_UB.
Qed.

(** [Emplace] into an empty vector that has capacity. *)
Lemma Emplace_in_place_empty v h n c pos args :
  size_ v = 0 → 0 < Capacity v ≤ max_alloc → arg_throws args = false →
  Emplace pos args (State v h n c) = UB.
Proof.
  intros Hsz [Hpos Hmax] Hargs. unfold Emplace. rewrite bind_get_this.
  cbn [this]. fold (Capacity v). rewrite Hsz.
  destruct (Z.ltb_spec 0 (Capacity v)); [|lia].
  apply bind_UB. by apply NoRealloc_empty.
Qed.

Lemma holds_emplaced h v l1 l2 x nx :
  holds h v (l1 ++ l2) → size_ v = Capacity v →
  (if size_ v =? 0 then 1 else 2 * size_ v) ≤ max_alloc →
  0 < nx → h !! nx = None →
  holds (delete (blk (begin_ v))
           (<[nx := map Live (l1 ++ x :: l2)
                    ++ replicate (Z.to_nat (if size_ v =? 0 then 1 else 2 * size_ v)
                                  - S (length (l1 ++ l2))) Raw]> h))
    {| data_ := {| buffer_ := Ptr nx 0;
                   capacity_ := if size_ v =? 0 then 1 else 2 * size_ v |};
       size_ := size_ v + 1 |}
    (l1 ++ x :: l2).
Proof.
  intros Hv Hfull Hnew Hnx Hnone.
  assert (Hne : blk (begin_ v) ≠ nx).
  { destruct (Z.eq_dec (Capacity v) 0) as [Hz|Hz].
    - destruct (holds_null _ _ _ Hv Hz) as [-> _]. lia.
    - destruct (holds_block _ _ _ Hv Hz) as [_ [b Hb]]. congruence. }
  destruct Hv as (Hsz & _).
  unfold holds, Capacity, RawMemory_Capacity.
  cbn [data_ size_ buffer_ capacity_ blk ofs].
  rewrite !length_app in *. cbn [length] in *.
  split; [lia|]. split; [destruct (Z.eqb_spec (size_ v) 0); lia|].
  split; [done|]. split; [done|].
  destruct (Z.eqb_spec (if size_ v =? 0 then 1 else 2 * size_ v) 0) as [He|_].
  { destruct (Z.eqb_spec (size_ v) 0); lia. }
  split; [lia|].
  rewrite lookup_delete_ne by done. rewrite lookup_insert_eq.
  do 3 f_equal. lia.
Qed.

(** ** The claims *)

(** C7. Copy assignment from a source with more elements than the
    destination has capacity ([other.size_ > data_.Capacity()]) builds a
    copy of the source and swaps.  When the copy constructor of an element
    throws, the call leaves with the exception, and the destination vector
    and the whole heap are what they were before the call; when no copy
    throws, the destination holds the elements of the source, in a block of
    exactly that size, and the source is unchanged. *)
Theorem C7_copy_assign_strong_guarantee s o l lo :
  holds (heap s) (this s) l → holds (heap s) o lo → fresh s →
  blk (begin_ (this s)) ≠ blk (begin_ o) →
  Capacity (this s) < Size o →
  (Exists (λ x, copy_throws x = true) lo →
     ∃ s', assign_copy (Another o) s = Throw s'
           ∧ this s' = this s ∧ heap s' = heap s)
  ∧ (Forall (λ x, copy_throws x = false) lo →
     ∃ s', assign_copy (Another o) s = Ok tt s'
           ∧ holds (heap s') (this s') lo ∧ holds (heap s') o lo
           ∧ Size (this s') = Size o ∧ Capacity (this s') = Size o).
Proof.
  destruct s as [v h nx c]. cbn [this heap]. intros Hv Ho Hf Hne Hlt.
  unfold Size in *.
  assert (Hpos : 0 < size_ o) by (destruct Hv as (? & ? & _); lia).
  split.
  - intros Hex. destruct (first_throw _ Hex) as (xs1 & x & xs2 & -> & Hxs & Hx).
    eexists. split.
    { unfold assign_copy. rewrite bind_get_this. cbn [this].
      destruct (Z.ltb_spec (Capacity v) (size_ o)); [|lia].
      apply bind_Throw. by apply (Vector_copy_Throw _ _ _ _ _ _ _ _ Ho). }
    done.
  - intros Hall.
    pose proof (holds_fresh_ne _ _ _ Hf Hv) as Hvnx.
    pose proof (holds_fresh_ne _ _ _ Hf Ho) as Honx. cbn [next] in *.
    assert (Hnx : 0 < nx) by apply Hf.
    set (copy := {| data_ := {| buffer_ := Ptr nx 0; capacity_ := size_ o |};
                    size_ := size_ o |}).
    set (h1 := <[nx := map Live lo]> h).
    set (c1 := counters_add c (times (size_ o) one_copy_ctor)).
    assert (Hrun : ∀ r, Vector_dtor v (State copy h1 (nx + 1) c1) = r →
                        assign_copy (Another o) (State v h nx c) = r).
    { intros r <-. unfold assign_copy. rewrite bind_get_this. cbn [this].
      destruct (Z.ltb_spec (Capacity v) (size_ o)); [|lia].
      rewrite (bind_Ok _ _ _ _ _ (Vector_copy_spec _ _ _ _ _ _ Ho Hf Hpos Hall)).
      unfold Swap. rewrite bind_assoc, bind_get_this.
      destruct v as [[bv cv] sv]. cbn [this swapped RawMemory_Swap].
      by rewrite bind_assoc, bind_put_this, bind_ret. }
    assert (Hcopy : ∀ h', h' !! nx = Some (map Live lo) → holds h' copy lo).
    { intros h' Hnxb. destruct Ho as (Hsz & Hle & Hmax & _).
      unfold holds, copy, Capacity, RawMemory_Capacity.
      cbn [data_ size_ capacity_ buffer_ blk ofs].
      repeat split; [done|lia|lia|].
      destruct (Z.eqb_spec (size_ o) 0); [lia|]. split; [lia|].
      rewrite Hnxb, Hsz, Nat2Z.id, Nat.sub_diag. by rewrite app_nil_r. }
    assert (Hv1 : holds h1 v l) by (by apply holds_insert).
    assert (Ho1 : holds h1 o lo) by (by apply holds_insert).
    destruct (Vector_dtor_spec copy h1 (nx + 1) c1 v l Hv1) as [HD|[Hz HD]];
      apply Hrun in HD; eexists; (split; [exact HD|]); cbn [this heap].
    + split; [|split; [by apply holds_delete|done]].
      apply Hcopy. rewrite lookup_delete_ne by done. apply lookup_insert_eq.
    + split; [|done]. apply Hcopy, lookup_insert_eq.
Qed.

(** C8. [Reserve(n)] with [n <= Capacity()] returns at once and changes
    nothing at all: the vector, the heap and the counters of element
    operations are the same.  [Reserve(n)] with [n > Capacity()], when
    [operator new] grants the [n * sizeof(T)] bytes asked for ([n <=
    max_alloc]) and no copy of an element throws, returns with [Capacity()
    == n], [Size()] unchanged and the same elements in the same order. *)
Theorem C8_reserve s l n :
  holds (heap s) (this s) l → fresh s →
  (n ≤ Capacity (this s) → Reserve n s = Ok tt s)
  ∧ (Capacity (this s) < n → n ≤ max_alloc →
     relocate_by_move = true ∨ Forall (λ x, copy_throws x = false) l →
     ∃ s', Reserve n s = Ok tt s'
           ∧ Capacity (this s') = n ∧ Size (this s') = Size (this s)
           ∧ holds (heap s') (this s') l).
Proof.
  destruct s as [v h nx c]. cbn [this heap]. intros Hv Hf. split.
  - intros Hn. unfold Reserve. rewrite bind_get_this. cbn [this].
    unfold Capacity in Hn. by destruct (Z.leb_spec n (RawMemory_Capacity (data_ v))); [|lia].
  - intros Hn Hmax Hrel. eexists. split; [by apply Reserve_grows|].
    cbn [this heap]. split; [done|]. split; [done|].
    apply holds_relocated; [done..|apply Hf|].
    apply (fresh_next _ _ Hf). cbn. lia.
Qed.

(** C5. Where live elements are relocated to a new block, in [Reserve] and
    on the reallocating path of [Emplace] (taken when [Size() ==
    Capacity()]), every element is move-constructed when
    [is_nothrow_move_constructible_v<T> || !is_copy_constructible_v<T>], and
    copy-constructed otherwise: the calls of the move and of the copy
    constructor grow by the number of elements accordingly, apart from the one
    call that constructs the inserted element from its arguments.  For a
    type with a non-throwing move constructor no element is copied.  The
    vector is left with a new block, which holds the relocated elements in
    their order (around the inserted one for [Emplace]), with the capacity
    asked for ([Reserve]) or twice the size ([Emplace]); the old block is
    released, after [Reserve] has destroyed every element in it. *)
Theorem C5_relocation_policy s l :
  holds (heap s) (this s) l → fresh s →
  let by_move := is_nothrow_move_constructible || negb is_copy_constructible in
  let moved := if by_move then Z.of_nat (length l) else 0 in
  let copied := if by_move then 0 else Z.of_nat (length l) in
  (∀ n, Capacity (this s) < n → n ≤ max_alloc →
     by_move = true ∨ Forall (λ x, copy_throws x = false) l →
     ∃ s', Reserve n s = Ok tt s'
           ∧ n_move_ctor (stats s') = n_move_ctor (stats s) + moved
           ∧ n_copy_ctor (stats s') = n_copy_ctor (stats s) + copied
           ∧ n_dtor (stats s') = n_dtor (stats s) + Z.of_nat (length l)
           ∧ n_leaked (stats s') = n_leaked (stats s)
           ∧ holds (heap s') (this s') l
           ∧ Size (this s') = Size (this s) ∧ Capacity (this s') = n
           ∧ begin_ (this s') = Ptr (next s) 0
           ∧ heap s' !! blk (begin_ (this s)) = None)
  ∧ (∀ l1 l2 args, l = l1 ++ l2 → Size (this s) = Capacity (this s) →
     (if Size (this s) =? 0 then 1 else 2 * Size (this s)) ≤ max_alloc →
     arg_throws args = false →
     by_move = true ∨ Forall (λ x, copy_throws x = false) l →
     ∃ p s', Emplace (ptr_add (begin_ (this s)) (Z.of_nat (length l1))) args s
             = Ok p s'
           ∧ n_move_ctor (stats s')
             = n_move_ctor (stats s) + n_move_ctor (arg_cost args) + moved
           ∧ n_copy_ctor (stats s')
             = n_copy_ctor (stats s) + n_copy_ctor (arg_cost args) + copied
           ∧ holds (heap s') (this s') (l1 ++ arg_value args :: l2)
           ∧ p = ptr_add (begin_ (this s')) (Z.of_nat (length l1))
           ∧ Size (this s') = Size (this s) + 1
           ∧ Capacity (this s')
             = (if Size (this s) =? 0 then 1 else 2 * Size (this s))
           ∧ begin_ (this s') = Ptr (next s) 0
           ∧ heap s' !! blk (begin_ (this s)) = None).
Proof.
  destruct s as [v h nx c]. cbn [this heap stats next]. intros Hv Hf.
  fold relocate_by_move. cbv zeta.
  assert (Hnx : 0 < nx) by apply Hf.
  assert (Hnone : h !! nx = None) by (apply (fresh_next _ _ Hf); cbn; lia).
  split.
  - intros n Hn Hmax Hrel. eexists. split; [by apply Reserve_grows|].
    cbn [stats this heap].
    split; [destruct relocate_by_move, c; cbn; lia|].
    split; [destruct relocate_by_move, c; cbn; lia|].
    split; [destruct relocate_by_move, c; cbn; lia|].
    split; [destruct relocate_by_move, c; cbn; lia|].
    split; [by apply holds_relocated|].
    split; [done|]. split; [done|]. split; [done|].
    apply lookup_delete_eq.
  - intros l1 l2 args -> Hfull Hnew Hargs Hrel. unfold Size in *. do 2 eexists.
    split; [by apply Emplace_realloc|].
    cbn [stats this heap].
    split; [destruct relocate_by_move, c, (arg_cost args); cbn; lia|].
    split; [destruct relocate_by_move, c, (arg_cost args); cbn; lia|].
    split; [by apply holds_emplaced|].
    split; [done|]. split; [done|]. split; [done|]. split; [done|].
    apply lookup_delete_eq.
Qed.

(** C6. [Erase(begin() + i)] for [i < Size()] move-assigns each element
    after index [i] to the slot on its left ([Size() - i - 1] move
    assignments), destroys the object in the last slot (one destructor call),
    and returns [begin() + i]: [Size()] is one less, the block and
    [Capacity()] are the same, and the elements are those before with the
    one at index [i] left out, in the same order.  On a vector that is not
    empty, [Erase(end())] does what [PopBack()] does, which removes the last
    element, and returns the new [end()]. *)
Theorem C6_erase s l :
  holds (heap s) (this s) l →
  (∀ l1 x l2, l = l1 ++ x :: l2 →
     ∃ s', Erase (ptr_add (begin_ (this s)) (Z.of_nat (length l1))) s
           = Ok (ptr_add (begin_ (this s')) (Z.of_nat (length l1))) s'
         ∧ holds (heap s') (this s') (l1 ++ l2)
         ∧ Size (this s') = Size (this s) - 1
         ∧ Capacity (this s') = Capacity (this s)
         ∧ begin_ (this s') = begin_ (this s)
         ∧ n_move_assign (stats s') = n_move_assign (stats s) + Z.of_nat (length l2)
         ∧ n_dtor (stats s') = n_dtor (stats s) + 1)
  ∧ (∀ l' x, l = l' ++ [x] →
     ∃ s', PopBack s = Ok tt s'
         ∧ Erase (end_ (this s)) s = Ok (end_ (this s')) s'
         ∧ holds (heap s') (this s') l'
         ∧ Size (this s') = Size (this s) - 1).
Proof.
  destruct s as [v h nx c]. cbn [this heap stats]. intros Hv. split.
  - intros l1 x l2 ->. pose proof (Erase_spec _ _ nx c _ _ _ Hv) as HE.
    match type of HE with _ = Ok _ ?st => exists st end.
    split; [exact HE|].
    cbn [this heap stats]. split; [by apply (holds_erased _ _ _ x)|].
    repeat split; destruct c; cbn; lia.
  - intros l' x ->. pose proof (PopBack_spec _ _ nx c _ _ Hv) as HP.
    match type of HP with _ = Ok _ ?st => exists st end.
    split; [exact HP|].
    cbn [this heap]. split; [|split; [|done]].
    + unfold Erase. rewrite bind_get_this. unfold ptr_ltb, cend_, end_. cbn [this].
      rewrite Z.ltb_irrefl. by rewrite (bind_Ok _ _ _ _ _ HP).
    + pose proof (holds_erased h v l' x [] Hv) as He.
      by rewrite app_nil_r in He.
Qed.

(** C10. On an empty vector [PopBack()] does nothing: the test
    [size_ > 0] fails, so no destructor runs and the state is unchanged; and
    [Erase(end())], which takes the branch that only calls [PopBack()], does
    nothing either and returns [end()]. *)
Theorem C10_pop_back_empty s :
  Size (this s) = 0 →
  PopBack s = Ok tt s ∧ Erase (end_ (this s)) s = Ok (end_ (this s)) s.
Proof.
  unfold Size. intros Hz. assert (HP : PopBack s = Ok tt s).
  { unfold PopBack. rewrite bind_get_this. by rewrite Hz. }
  split; [done|].
  unfold Erase. rewrite bind_get_this. unfold ptr_ltb, cend_, end_.
  rewrite Z.ltb_irrefl. by rewrite (bind_Ok _ _ _ _ _ HP).
Qed.

(** ** What a call ensures *)

Lemma ensures_ret {A} (a : A) s (Q : A → state → Prop) R :
  Q a s → ensures (ret a) s Q R.
Proof. done. Qed.

Lemma ensures_bind {A B} (c : M A) (k : A → M B) s Q' Q R :
  ensures c s Q' R → (∀ a s', Q' a s' → ensures (k a) s' Q R) →
  ensures (bind c k) s Q R.
Proof.
  unfold ensures, bind. intros Hc Hk. destruct (c s) as [a s'| |]; [|done..].
  by apply Hk.
Qed.

Lemma ensures_weaken {A} (c : M A) s (Q Q' : A → state → Prop) (R R' : state → Prop) :
  ensures c s Q' R' → (∀ a s', Q' a s' → Q a s') → (∀ s', R' s' → R s') →
  ensures c s Q R.
Proof. unfold ensures. destruct (c s); auto. Qed.

Lemma ensures_on_throw {A} (c : M A) h s Q R R' :
  ensures c s Q R' →
  (∀ s', R' s' → ensures h s' (λ _ s'', R s'') (λ _, True)) →
  ensures (on_throw c h) s Q R.
Proof.
  unfold ensures, on_throw. intros Hc Hh. destruct (c s) as [a s'|s'|]; [done| |done].
  specialize (Hh s' Hc). by destruct (h s').
Qed.

Lemma ensures_get_this {B} (k : Vector → M B) s Q R :
  ensures (k (this s)) s Q R → ensures (bind get_this k) s Q R.
Proof. done. Qed.

Lemma ensures_put_this {B} (k : unit → M B) v s Q R :
  ensures (k tt) (set_this v s) Q R → ensures (bind (put_this v) k) s Q R.
Proof. done. Qed.

Lemma ensures_frame {A B} (c : M A) (k : A → M B) s Q (R : state → Prop) :
  frame c →
  (∀ s', this s' = this s → R s') →
  (∀ a s', this s' = this s → ensures (k a) s' Q R) →
  ensures (bind c k) s Q R.
Proof.
  intros Hc HR Hk. eapply ensures_bind.
  - eapply ensures_weaken; [apply Hc| |]; [intros a s' H; exact H|done].
  - done.
Qed.

(** ** Calls that leave the data members alone *)

Lemma frame_ret {A} (a : A) : frame (ret a).
Proof. by intros s. Qed.

Lemma frame_throw {A} : frame (@throw A).
Proof. by intros s. Qed.

Lemma frame_undefined {A} : frame (@undefined A).
Proof. by intros s. Qed.

Lemma frame_bind {A B} (c : M A) (k : A → M B) :
  frame c → (∀ a, frame (k a)) → frame (bind c k).
Proof.
  intros Hc Hk s. eapply ensures_bind; [apply Hc|].
  intros a s' Hs'. cbn beta in Hs'. rewrite <- Hs'. apply Hk.
Qed.

Lemma frame_on_throw {A} (c : M A) h : frame c → frame h → frame (on_throw c h).
Proof.
  intros Hc Hh s. eapply ensures_on_throw; [apply Hc|].
  intros s' Hs'. cbn beta in Hs'. rewrite <- Hs'.
  eapply ensures_weaken; [apply Hh|done..].
Qed.

Lemma frame_if {A} (b : bool) (c1 c2 : M A) :
  frame c1 → frame c2 → frame (if b then c1 else c2).
Proof. by destruct b. Qed.

Lemma frame_count d : frame (count d).
Proof. by intros s. Qed.

Lemma frame_load p : frame (load p).
Proof.
  intros s. unfold ensures, load.
  destruct (heap s !! blk p); [|done]. destruct (0 <=? ofs p); [|done].
  by destruct (_ !! _).
Qed.

Lemma frame_store p x : frame (store p x).
Proof.
  intros s. unfold ensures, store.
  destruct (heap s !! blk p); [|done]. by destruct (_ && _).
Qed.

Lemma frame_operator_new n : frame (operator_new n).
Proof. intros s. unfold ensures, operator_new. by destruct (_ <? _). Qed.

Lemma frame_operator_delete p : frame (operator_delete p).
Proof.
  intros s. unfold ensures, operator_delete.
  destruct (ptr_eqb _ _); [done|]. destruct (heap s !! _); [|done].
  by destruct (_ =? _).
Qed.

Create HintDb frame.

#[local] Hint Resolve frame_ret frame_throw frame_undefined frame_on_throw
  frame_if frame_count frame_load frame_store frame_operator_new
  frame_operator_delete : frame.
#[local] Hint Extern 2 (frame (bind _ _)) =>
  apply frame_bind; [|intros ?] : frame.

Lemma frame_read p : frame (read p).
Proof. unfold read. apply frame_bind; [auto with frame|]. intros []; auto with frame. Qed.

#[local] Hint Resolve frame_read : frame.

Lemma frame_construct a : frame (construct a).
Proof. destruct a; cbn [construct]; auto with frame. Qed.

#[local] Hint Resolve frame_construct : frame.

Lemma frame_construct_at p a : frame (construct_at p a).
Proof. unfold construct_at. auto with frame. Qed.

Lemma frame_copy_construct_at p q : frame (copy_construct_at p q).
Proof. unfold copy_construct_at, construct_at. auto with frame. Qed.

Lemma frame_move_construct_at p q : frame (move_construct_at p q).
Proof. unfold move_construct_at. auto 10 with frame. Qed.

Lemma frame_value_construct_at p : frame (value_construct_at p).
Proof. unfold value_construct_at. auto with frame. Qed.

Lemma frame_copy_assign_at p q : frame (copy_assign_at p q).
Proof. unfold copy_assign_at. auto 10 with frame. Qed.

Lemma frame_move_assign_at p q : frame (move_assign_at p q).
Proof. unfold move_assign_at. auto 10 with frame. Qed.

Lemma frame_move_assign_value p x : frame (move_assign_value p x).
Proof. unfold move_assign_value. auto 10 with frame. Qed.

Lemma frame_destroy_at p : frame (destroy_at p).
Proof. unfold destroy_at. auto 10 with frame. Qed.

#[local] Hint Resolve frame_construct_at frame_copy_construct_at
  frame_move_construct_at frame_value_construct_at frame_copy_assign_at
  frame_move_assign_at frame_move_assign_value frame_destroy_at : frame.

Lemma frame_destroy_n p n : frame (destroy_n p n).
Proof.
  unfold destroy_n. generalize (Z.to_nat n) as k. intros k. revert p.
  induction k as [|k IH]; intros p; cbn [destroy_loop]; auto with frame.
Qed.

#[local] Hint Resolve frame_destroy_n : frame.

Lemma frame_destroy_constructed p q : frame (destroy_constructed p q).
Proof. unfold destroy_constructed. auto with frame. Qed.

#[local] Hint Resolve frame_destroy_constructed : frame.

Lemma frame_uninitialized_copy_n p n q : frame (uninitialized_copy_n p n q).
Proof.
  unfold uninitialized_copy_n. generalize q at 2 as cur. generalize (Z.to_nat n) as k.
  intros k. revert p.
  induction k as [|k IH]; intros p cur; cbn [uninitialized_copy_loop];
    auto 10 with frame.
Qed.

Lemma frame_uninitialized_move_n p n q : frame (uninitialized_move_n p n q).
Proof.
  unfold uninitialized_move_n. generalize q at 2 as cur. generalize (Z.to_nat n) as k.
  intros k. revert p.
  induction k as [|k IH]; intros p cur; cbn [uninitialized_move_loop];
    auto 10 with frame.
Qed.

Lemma frame_uninitialized_value_construct_n p n :
  frame (uninitialized_value_construct_n p n).
Proof.
  unfold uninitialized_value_construct_n. generalize p at 2 as cur.
  generalize (Z.to_nat n) as k.
  induction k as [|k IH]; intros cur; cbn [uninitialized_value_construct_loop];
    auto 10 with frame.
Qed.

Lemma frame_copy_n p n q : frame (copy_n p n q).
Proof.
  unfold copy_n. generalize (Z.to_nat n) as k. intros k. revert p q.
  induction k as [|k IH]; intros p q; cbn [copy_loop]; auto with frame.
Qed.

Lemma frame_move_range p q r : frame (move_range p q r).
Proof.
  unfold move_range. apply frame_if; [apply frame_undefined|].
  generalize (Z.to_nat (ptr_diff q p)) as k. intros k. revert p r.
  induction k as [|k IH]; intros p r; cbn [move_loop]; auto with frame.
Qed.

Lemma frame_move_backward p q r : frame (move_backward p q r).
Proof.
  unfold move_backward. apply frame_if; [apply frame_undefined|].
  generalize (Z.to_nat (ptr_diff q p)) as k. intros k.
  revert q r.
  induction k as [|k IH]; intros q r; cbn [move_backward_loop]; auto with frame.
Qed.

#[local] Hint Resolve frame_uninitialized_copy_n frame_uninitialized_move_n
  frame_uninitialized_value_construct_n frame_copy_n frame_move_range
  frame_move_backward : frame.

Lemma frame_Deallocate p : frame (Deallocate p).
Proof. unfold Deallocate. auto with frame. Qed.

Lemma frame_RawMemory_dtor r : frame (RawMemory_dtor r).
Proof. unfold RawMemory_dtor, Deallocate. auto with frame. Qed.

Lemma frame_RawMemory_plus r i : frame (RawMemory_plus r i).
Proof. unfold RawMemory_plus. auto with frame. Qed.

Lemma frame_RawMemory_at r i : frame (RawMemory_at r i).
Proof. unfold RawMemory_at. auto with frame. Qed.

Lemma frame_Vector_dtor v : frame (Vector_dtor v).
Proof. unfold Vector_dtor, RawMemory_dtor, Deallocate. auto with frame. Qed.

#[local] Hint Resolve frame_Deallocate frame_RawMemory_dtor frame_RawMemory_plus
  frame_RawMemory_at frame_Vector_dtor : frame.

Lemma ensures_tail {A} (c : M A) s (Q : A → state → Prop) (R : state → Prop) :
  frame c →
  (∀ a s', this s' = this s → Q a s') → (∀ s', this s' = this s → R s') →
  ensures c s Q R.
Proof. intros Hc HQ HR. eapply ensures_weaken; [apply Hc|done..]. Qed.

Lemma ensures_RawMemory_sized n s :
  0 ≤ n → n * sizeof_T < SIZE_MOD →
  ensures (RawMemory_sized n) s
    (λ r s', this s' = this s ∧ capacity_ r = n ∧ (n = 0 ∨ n ≤ max_alloc))
    (λ s', this s' = this s).
Proof.
  intros H0 Hfit. pose proof sizeof_bound.
  unfold ensures, RawMemory_sized, Allocate, bind.
  destruct (Z.eqb_spec n 0) as [->|Hn]; cbn; [auto|].
  rewrite wrap_small by nia.
  unfold operator_new. destruct (Z.ltb_spec max_bytes (n * sizeof_T)); cbn; [done|].
  repeat split; auto. right. by apply max_alloc_bytes.
Qed.

(** The size in bytes of as many elements as fit is a [size_t], and so is
    twice that size. *)
Lemma fits_twice n : 0 ≤ n → n ≤ max_alloc → 2 * n * sizeof_T < SIZE_MOD.
Proof.
  intros H0 Hn. apply max_alloc_bytes in Hn. pose proof max_bytes_bound.
  unfold SIZE_MOD. lia.
Qed.

Lemma is_count_spec n :
  is_count n = true → 0 ≤ n ∧ n * sizeof_T < SIZE_MOD.
Proof.
  unfold is_count, is_size_t.
  intros [[H%Z.leb_le _]%andb_prop H'%Z.ltb_lt]%andb_prop. done.
Qed.

(** ** The data members stay in range *)

Lemma grown_refl s : sized (this s) → grown s s.
Proof. intros Hs. split; [done|lia]. Qed.

Lemma grown_same s s' : sized (this s) → this s' = this s → grown s s'.
Proof. intros Hs H. unfold grown. rewrite H. split; [done|lia]. Qed.

Lemma grown_frame s s1 s' : grown s s1 → this s' = this s1 → grown s s'.
Proof. unfold grown. intros ? H. by rewrite H. Qed.

Lemma Reserve_ensures n s :
  sized (this s) → 0 ≤ n → n * sizeof_T < SIZE_MOD →
  ensures (Reserve n) s
    (λ _ s', size_ (this s') = size_ (this s) ∧ n ≤ Capacity (this s')
             ∧ grown s s')
    (grown s).
Proof.
  intros Hs Hn Hfit. pose proof Hs as (H0 & Hle & Hmax).
  unfold Reserve. apply ensures_get_this. unfold Capacity in *.
  destruct (Z.leb_spec n (RawMemory_Capacity (data_ (this s)))).
  { apply ensures_ret. repeat split; try done; unfold Capacity; lia. }
  eapply ensures_bind.
  { eapply ensures_weaken; [by apply ensures_RawMemory_sized|intros ? ? Hx; exact Hx|].
    intros s' Hs'. by apply grown_same. }
  intros nd s1 (H1 & H2 & H3). cbn beta in *.
  apply ensures_frame; [auto 10 with frame| |].
  { intros s' Hs'. apply grown_same; [done|congruence]. }
  intros _ s2 H4. cbn [RawMemory_Swap]. apply ensures_put_this.
  assert (Hg : grown s (set_this
            {| data_ := {| buffer_ := buffer_ nd; capacity_ := capacity_ nd |};
               size_ := size_ (this s) |} s2)).
  { unfold grown, sized, Capacity, RawMemory_Capacity in *.
    cbn [set_this this data_ size_ capacity_]. lia. }
  apply ensures_tail; [auto with frame| |].
  - intros _ s3 H5. cbn beta. rewrite H5. cbn [set_this this size_].
    split; [done|]. split; [|by eapply grown_frame].
    unfold Capacity, RawMemory_Capacity in *. cbn. lia.
  - intros s3 H5. by eapply grown_frame.
Qed.

Lemma ensures_put_this_tail v s (Q : unit → state → Prop) R :
  Q tt (set_this v s) → ensures (put_this v) s Q R.
Proof. done. Qed.

Lemma sized_bounds v : sized v → 0 ≤ size_ v ∧ 2 * Capacity v + 1 < SIZE_MOD.
Proof.
  intros (H0 & Hle & Hmax). split; [done|]. by apply max_alloc_small.
Qed.

Lemma Resize_ensures n s :
  sized (this s) → 0 ≤ n → n * sizeof_T < SIZE_MOD →
  ensures (Resize n) s (λ _ s', grown s s') (grown s).
Proof.
  intros Hs Hn Hfit. pose proof Hs as (H0 & Hle & Hmax).
  unfold Resize. apply ensures_get_this.
  eapply ensures_bind with
    (Q' := λ _ s1, grown s s1 ∧ n ≤ Capacity (this s1)).
  - destruct (Z.ltb_spec (size_ (this s)) n).
    + eapply ensures_bind; [by apply Reserve_ensures|].
      intros _ s1 (H1 & H2 & H3). cbn beta in *. apply ensures_get_this.
      apply ensures_tail; [auto with frame| |].
      * intros _ s2 H4. cbn beta. rewrite H4. split; [by eapply grown_frame|done].
      * intros s2 H4. by eapply grown_frame.
    + apply ensures_tail; [auto with frame| |].
      * intros _ s2 H4. cbn beta. rewrite H4. split; [by apply grown_same|lia].
      * intros s2 H4. by apply grown_same.
  - intros _ s1 ((Hs1 & Hc1) & Hn1). cbn beta in *. apply ensures_get_this.
    apply ensures_put_this_tail.
    unfold grown, sized, with_size, Capacity, RawMemory_Capacity in *.
    cbn [set_this this data_ size_]. lia.
Qed.

Lemma PopBack_ensures s :
  sized (this s) → ensures PopBack s (λ _ s', grown s s') (grown s).
Proof.
  intros Hs. pose proof (sized_bounds _ Hs) as [H0 Hb].
  pose proof Hs as (_ & Hle & Hmax).
  unfold PopBack. apply ensures_get_this.
  destruct (Z.ltb_spec 0 (size_ (this s))).
  - apply ensures_frame; [auto with frame|intros; by apply grown_same|].
    intros _ s1 H1. apply ensures_put_this_tail.
    unfold grown, sized, with_size, Capacity, RawMemory_Capacity in *.
    cbn [set_this this data_ size_]. rewrite wrap_small by lia. lia.
  - apply ensures_ret. by apply grown_refl.
Qed.

Lemma frame_NoRealloc i args : frame (NoRealloc i args).
Proof.
  unfold NoRealloc. apply frame_bind; [auto with frame|]. intros temp.
  apply frame_bind; [by intros s|]. intros v. auto 20 with frame.
Qed.

Lemma Realloc_ensures i args s :
  sized (this s) → size_ (this s) = Capacity (this s) →
  ensures (Realloc i args) s
    (λ _ s', size_ (this s') = size_ (this s)
             ∧ size_ (this s) + 1 ≤ Capacity (this s') ∧ grown s s')
    (grown s).
Proof.
  intros Hs Hfull. pose proof (sized_bounds _ Hs) as [H0 Hb].
  pose proof Hs as (_ & Hle & Hmax).
  unfold Realloc. apply ensures_get_this.
  eapply ensures_bind.
  { eapply ensures_weaken; [apply ensures_RawMemory_sized|intros ? ? Hx; exact Hx|].
    - destruct (Z.eqb_spec (size_ (this s)) 0); [lia|]. rewrite wrap_small; lia.
    - destruct (Z.eqb_spec (size_ (this s)) 0).
      + pose proof sizeof_bound. unfold SIZE_MOD. lia.
      + rewrite wrap_small by lia.
        pose proof (fits_twice (size_ (this s))). lia.
    - intros s' Hs'. by apply grown_same. }
  intros nd s1 (H1 & H2 & H3). cbn beta in *.
  assert (Hcap : size_ (this s) + 1 ≤ capacity_ nd ∧ capacity_ nd ≤ max_alloc).
  { rewrite H2 in *. destruct (Z.eqb_spec (size_ (this s)) 0).
    - pose proof max_alloc_bound. lia.
    - rewrite wrap_small in * by lia. lia. }
  set (v' := {| data_ := {| buffer_ := buffer_ nd; capacity_ := capacity_ nd |};
                size_ := size_ (this s) |}).
  assert (Hg : ∀ s', this s' = v' → grown s s').
  { intros s' Hv'. unfold grown, sized, Capacity, RawMemory_Capacity in *.
    rewrite Hv'. cbn. lia. }
  eapply ensures_bind with (Q' := λ _ s2, this s2 = v').
  - apply ensures_on_throw with (R' := λ s', this s' = this s).
    + unfold Realloc_body. apply ensures_get_this.
      apply ensures_frame; [auto with frame|congruence|]. intros p s2 H4.
      apply ensures_frame; [auto with frame|congruence|]. intros _ s3 H5.
      apply ensures_frame; [auto 10 with frame|congruence|]. intros _ s4 H6.
      apply ensures_frame; [auto with frame|congruence|]. intros _ s5 H7.
      cbn [RawMemory_Swap]. apply ensures_put_this. apply ensures_ret.
      by rewrite H1.
    + intros s' Hs'. apply ensures_tail; [auto with frame| |done].
      intros _ s'' Hs''. apply grown_same; [done|congruence].
  - intros nd' s2 H4. cbn beta in H4.
    apply ensures_tail; [auto with frame| |].
    + intros _ s3 H5. cbn beta. rewrite H5, H4. split; [done|].
      split; [unfold Capacity, RawMemory_Capacity; cbn; lia|].
      apply Hg. congruence.
    + intros s3 H5. apply Hg. congruence.
Qed.

Lemma Emplace_ensures pos args s :
  sized (this s) →
  ensures (Emplace pos args) s (λ _ s', grown s s') (grown s).
Proof.
  intros Hs. pose proof (sized_bounds _ Hs) as [H0 Hb].
  pose proof Hs as (_ & Hle & Hmax).
  unfold Emplace. apply ensures_get_this.
  eapply ensures_bind with
    (Q' := λ _ s1, size_ (this s1) = size_ (this s)
                   ∧ size_ (this s) + 1 ≤ Capacity (this s1) ∧ grown s s1).
  - destruct (Z.ltb_spec (size_ (this s)) (RawMemory_Capacity (data_ (this s)))).
    + apply ensures_tail; [apply frame_NoRealloc| |].
      * intros _ s1 H1. cbn beta. rewrite H1. split; [done|].
        split; [unfold Capacity; lia|by apply grown_same].
      * intros s1 H1. by apply grown_same.
    + apply Realloc_ensures; [done|]. unfold Capacity in *. lia.
  - intros _ s1 (H1 & H2 & Hg). cbn beta in *. apply ensures_get_this.
    apply ensures_put_this.
    assert (Hg' : grown s (set_this (with_size (this s1) (wrap (size_ (this s1) + 1))) s1)).
    { destruct Hg as ((? & ? & ?) & ?).
      unfold grown, sized, with_size, Capacity, RawMemory_Capacity in *.
      cbn [set_this this data_ size_]. rewrite wrap_small by lia. lia. }
    apply ensures_tail; [auto with frame| |].
    + intros _ s2 H3. by eapply grown_frame.
    + intros s2 H3. by eapply grown_frame.
Qed.

Lemma EmplaceBack_ensures args s :
  sized (this s) →
  ensures (EmplaceBack args) s (λ _ s', grown s s') (grown s).
Proof.
  intros Hs. unfold EmplaceBack. apply ensures_get_this.
  eapply ensures_bind; [by apply Emplace_ensures|].
  intros ? s1 Hg. cbn beta in Hg. apply ensures_get_this.
  apply ensures_tail; [auto with frame| |]; intros; by eapply grown_frame.
Qed.

Lemma PushBack_ensures args s :
  sized (this s) →
  ensures (bind (EmplaceBack args) (λ _, ret tt)) s (λ _ s', grown s s') (grown s).
Proof.
  intros Hs. eapply ensures_bind; [by apply EmplaceBack_ensures|].
  intros ? s1 Hg. by apply ensures_ret.
Qed.

Lemma Erase_ensures pos s :
  sized (this s) →
  ensures (Erase pos) s (λ _ s', grown s s') (grown s).
Proof.
  intros Hs. unfold Erase. apply ensures_get_this.
  assert (Hpop : ∀ (k : Vector → M ptr) s1, this s1 = this s →
            (∀ v, frame (k v)) →
            ensures (bind PopBack (λ _, bind get_this k)) s1
              (λ _ s', grown s s') (grown s)).
  { intros k s1 H1 Hk. assert (Hs1 : sized (this s1)) by (by rewrite H1).
    assert (Hgs : ∀ s', grown s1 s' → grown s s').
    { unfold grown. rewrite H1. tauto. }
    eapply ensures_bind.
    - eapply ensures_weaken; [by apply PopBack_ensures|intros ? ? Hx; exact Hx|].
      intros s' Hx. by apply Hgs.
    - intros ? s2 Hg. cbn beta in Hg. apply ensures_get_this.
      apply ensures_tail; [apply Hk| |]; intros; eapply grown_frame; eauto. }
  destruct (ptr_ltb pos (cend_ (this s))).
  - apply ensures_frame; [auto with frame|intros; by apply grown_same|].
    intros first s1 H1.
    apply ensures_frame; [auto with frame|intros; apply grown_same; [done|congruence]|].
    intros d_first s2 H2.
    apply ensures_frame; [auto with frame|intros; apply grown_same; [done|congruence]|].
    intros _ s3 H3. apply Hpop; [congruence|]. intros v. auto with frame.
  - apply Hpop; [done|]. intros v. auto with frame.
Qed.

Lemma swapped_sized v o :
  sized v → sized o → sized (swapped v o).1 ∧ sized (swapped v o).2.
Proof. by destruct v as [[] ?], o as [[] ?]. Qed.

Lemma Swap_spec o s :
  Swap o s = Ok (swapped (this s) o).2 (set_this (swapped (this s) o).1 s).
Proof. done. Qed.

Lemma Vector_copy_ensures o s :
  sized o →
  ensures (Vector_copy o) s
    (λ v s', this s' = this s ∧ sized v ∧ Capacity v = size_ o)
    (λ s', this s' = this s).
Proof.
  intros (H0 & Hle & Hmax). unfold Vector_copy.
  eapply ensures_bind.
  { apply ensures_RawMemory_sized; [done|].
    pose proof (fits_twice (size_ o)). pose proof sizeof_bound. nia. }
  intros d s1 (H1 & H2 & H3). cbn beta in *.
  apply ensures_frame; [auto with frame|congruence|].
  intros _ s2 H4. apply ensures_ret. split; [congruence|].
  unfold sized, Capacity, RawMemory_Capacity. cbn. lia.
Qed.

Lemma Vector_sized_ensures n s :
  0 ≤ n → n * sizeof_T < SIZE_MOD →
  ensures (Vector_sized n) s (λ v s', sized v) (λ _, True).
Proof.
  intros Hn Hfit. unfold Vector_sized.
  eapply ensures_bind.
  { eapply ensures_weaken;
      [by apply ensures_RawMemory_sized|intros ? ? Hx; exact Hx|done]. }
  intros d s1 (H1 & H2 & H3). cbn beta in *.
  apply ensures_frame; [auto with frame|done|].
  intros _ s2 H4. apply ensures_ret.
  unfold sized, Capacity, RawMemory_Capacity. cbn. pose proof max_alloc_bound. lia.
Qed.

Lemma assign_copy_ensures other s :
  sized (this s) → (∀ o, other = Another o → sized o) →
  ensures (assign_copy other) s (λ _ s', grown s s') (grown s).
Proof.
  intros Hs Ho. destruct other as [|o]; [by apply ensures_ret, grown_refl|].
  specialize (Ho o eq_refl). pose proof Hs as (H0 & Hle & Hmax).
  unfold assign_copy. apply ensures_get_this.
  destruct (Z.ltb_spec (Capacity (this s)) (size_ o)).
  - eapply ensures_bind.
    { eapply ensures_weaken; [by apply Vector_copy_ensures|intros ? ? Hx; exact Hx|].
      intros s' Hs'. by apply grown_same. }
    intros copy s1 (H1 & H2 & H3). cbn beta in *.
    unfold ensures at 1. unfold bind at 1. rewrite Swap_spec.
    fold (ensures (Vector_dtor (swapped (this s1) copy).2)
            (set_this (swapped (this s1) copy).1 s1) (λ _ s', grown s s') (grown s)).
    assert (Hg : grown s (set_this (swapped (this s1) copy).1 s1)).
    { unfold grown. cbn [set_this this]. destruct copy as [[] ?], (this s1) as [[] ?].
      unfold sized, Capacity, RawMemory_Capacity in *. cbn in *. lia. }
    apply ensures_tail; [auto with frame| |]; intros; by eapply grown_frame.
  - apply ensures_frame; [auto with frame|intros; by apply grown_same|].
    intros _ s1 H1. eapply ensures_bind with (Q' := λ _ s2, this s2 = this s).
    + destruct (size_ o <? size_ (this s)).
      * apply ensures_tail; [auto with frame|congruence|].
        intros s2 H2. apply grown_same; [done|congruence].
      * apply ensures_tail; [auto 10 with frame|congruence|].
        intros s2 H2. apply grown_same; [done|congruence].
    + intros ? s2 H2. cbn beta in H2. apply ensures_put_this_tail.
      destruct Ho as (? & ? & ?).
      unfold grown, sized, with_size, Capacity, RawMemory_Capacity in *.
      cbn [set_this this data_ size_]. lia.
Qed.

(** ** Worlds *)

Lemma call_on_ok {A} i (c : M A) w w' :
  all_sized w →
  (∀ v s, this s = v → sized v → ensures c s (λ _ s', grown s s') (grown s)) →
  call_on i c w = Some w' → step_ok w w'.
Proof.
  intros Hw Hc. unfold call_on. destruct (objects w !! i) as [v|] eqn:Hi; [|done].
  specialize (Hc v (set_this v (mem w)) eq_refl (Hw _ _ Hi)).
  unfold ensures in Hc.
  assert (Hgo : ∀ s', grown (set_this v (mem w)) s' →
            step_ok w {| objects := <[i := this s']> (objects w); mem := s' |}).
  { intros s' [Hs' Hcap]. split.
    - intros j vj. cbn [objects]. rewrite lookup_insert.
      destruct (decide (i = j)); [by intros [= <-]|]. apply Hw.
    - intros j vj vj' Hj. cbn [objects]. rewrite (lookup_insert (objects w)).
      destruct (decide (i = j)) as [<-|].
      + intros [= <-]. rewrite Hi in Hj. by injection Hj as <-.
      + rewrite Hj. intros [= <-]. lia. }
  destruct (c (set_this v (mem w))) as [a s'|s'|]; [| |done];
    intros [= <-]; by apply Hgo.
Qed.

Lemma construct_as_ok i c w w' :
  all_sized w → ensures c (mem w) (λ v _, sized v) (λ _, True) →
  construct_as i c w = Some w' → step_ok w w'.
Proof.
  intros Hw Hc. unfold construct_as, ensures in *.
  destruct (objects w !! i) as [v|] eqn:Hi; [done|].
  destruct (c (mem w)) as [v s'|s'|]; [| |done]; intros [= <-]; split.
  - intros j vj. cbn [objects]. rewrite lookup_insert.
    destruct (decide (i = j)); [by intros [= <-]|]. apply Hw.
  - intros j vj vj' Hj. cbn [objects]. rewrite lookup_insert.
    destruct (decide (i = j)) as [<-|]; [congruence|].
    rewrite Hj. intros [= <-]. lia.
  - done.
  - intros j vj vj' Hj. cbn [objects]. rewrite Hj. intros [= <-]. lia.
Qed.

Lemma call_with_sized i j c w w' :
  all_sized w →
  (∀ v s, this s = v → sized v →
     ensures c s (λ o' s', sized o' ∧ sized (this s')) (λ s', sized (this s'))) →
  call_with i j c w = Some w' → all_sized w'.
Proof.
  intros Hw Hc. unfold call_with. destruct (objects w !! i) as [v|] eqn:Hi; [|done].
  specialize (Hc v (set_this v (mem w)) eq_refl (Hw _ _ Hi)).
  unfold ensures in Hc.
  destruct (c (set_this v (mem w))) as [o' s'|s'|]; [| |done]; intros [= <-];
    intros k vk; cbn [objects]; rewrite lookup_insert.
  - destruct (decide (i = k)); [intros [= <-]; apply Hc|].
    rewrite lookup_insert. destruct (decide (j = k)); [intros [= <-]; apply Hc|].
    apply Hw.
  - destruct (decide (i = k)); [by intros [= <-]|]. apply Hw.
Qed.


Lemma exec_ok o w w' :
  all_sized w → exec o w = Some w' →
  all_sized w' ∧ (moves_or_swaps o = false →
    ∀ j v v', objects w !! j = Some v → objects w' !! j = Some v' →
      Capacity v ≤ Capacity v').
Proof.
  intros Hw. assert (Hok : step_ok w w' →
    all_sized w' ∧ (moves_or_swaps o = false →
      ∀ j v v', objects w !! j = Some v → objects w' !! j = Some v' →
        Capacity v ≤ Capacity v')) by (intros [? ?]; auto).
  destruct o; cbn [exec moves_or_swaps].
  - intros H. apply Hok. eapply construct_as_ok; [done| |exact H].
    apply ensures_ret. unfold sized. cbn. pose proof max_alloc_bound. lia.
  - destruct (is_count n) eqn:Hn; [|done]. intros H. apply Hok.
    apply is_count_spec in Hn as [Hn Hfit].
    eapply construct_as_ok; [done| |exact H].
    by apply Vector_sized_ensures.
  - destruct (objects w !! j) as [o|] eqn:Hj; [|done]. intros H. apply Hok.
    eapply construct_as_ok; [done| |exact H].
    eapply ensures_weaken; [apply Vector_copy_ensures, (Hw _ _ Hj)| |done].
    by intros v s' (_ & ? & _).
  - destruct (objects w !! i) eqn:Hi; [done|].
    destruct (objects w !! j) as [o|] eqn:Hj; [|done].
    unfold Vector_move.
    assert (Hd : sized Vector_default)
      by (unfold sized; cbn; pose proof max_alloc_bound; lia).
    destruct (swapped_sized _ _ Hd (Hw _ _ Hj)) as [H1 H2].
    destruct (swapped Vector_default o) as [v o']. cbn [fst snd] in H1, H2.
    intros [= <-]. split; [|done].
    intros k vk. cbn [objects]. rewrite lookup_insert.
    destruct (decide (i = k)); [by intros [= <-]|].
    rewrite lookup_insert. destruct (decide (j = k)); [by intros [= <-]|]. apply Hw.
  - destruct (objects w !! i) as [v|] eqn:Hi; [|done].
    destruct (Vector_dtor v (mem w)); [|done..]. intros [= <-]. split.
    + intros k vk. cbn [objects]. rewrite lookup_delete.
      destruct (decide (i = k)); [done|]. apply Hw.
    + intros _ k vk vk' Hk. cbn [objects]. rewrite lookup_delete.
      destruct (decide (i = k)); [done|]. rewrite Hk. intros [= <-]. lia.
  - destruct (is_count n) eqn:Hn; [|done]. intros H. apply Hok.
    apply is_count_spec in Hn as [Hn Hfit].
    eapply call_on_ok; [done| |exact H]. intros v s <- Hs.
    eapply ensures_weaken; [by apply Reserve_ensures| |done].
    by intros ? s' (_ & _ & ?).
  - destruct (is_count n) eqn:Hn; [|done]. intros H. apply Hok.
    apply is_count_spec in Hn as [Hn Hfit].
    eapply call_on_ok; [done| |exact H]. intros v s <- Hs.
    by apply Resize_ensures.
  - intros H. apply Hok. eapply call_on_ok; [done| |exact H].
    intros v s <- Hs. by apply PushBack_ensures.
  - intros H. apply Hok. eapply call_on_ok; [done| |exact H].
    intros v s <- Hs. by apply PushBack_ensures.
  - intros H. apply Hok. eapply call_on_ok; [done| |exact H].
    intros v s <- Hs. by apply EmplaceBack_ensures.
  - intros H. apply Hok. eapply call_on_ok; [done| |exact H].
    intros v s <- Hs. by apply PopBack_ensures.
  - destruct (objects w !! i) as [v|]; [|done]. destruct (valid_position v k); [|done].
    intros H. apply Hok. eapply call_on_ok; [done| |exact H].
    intros v' s <- Hs. by apply Emplace_ensures.
  - destruct (objects w !! i) as [v|]; [|done]. destruct (valid_position v k); [|done].
    intros H. apply Hok. eapply call_on_ok; [done| |exact H].
    intros v' s <- Hs. by apply Emplace_ensures.
  - destruct (objects w !! i) as [v|]; [|done]. destruct (valid_position v k); [|done].
    intros H. apply Hok. eapply call_on_ok; [done| |exact H].
    intros v' s <- Hs. by apply Emplace_ensures.
  - destruct (objects w !! i) as [v|]; [|done]. destruct (valid_position v k); [|done].
    intros H. apply Hok. eapply call_on_ok; [done| |exact H].
    intros v' s <- Hs. by apply Erase_ensures.
  - destruct (decide (i = j)).
    + intros H. apply Hok. eapply call_on_ok; [done| |exact H].
      intros v s <- Hs. by apply assign_copy_ensures.
    + destruct (objects w !! j) as [o|] eqn:Hj; [|done].
      intros H. apply Hok. eapply call_on_ok; [done| |exact H].
      intros v s <- Hs. apply assign_copy_ensures; [done|].
      intros o' [= <-]. apply (Hw _ _ Hj).
  - intros H. split; [|done]. destruct (decide (i = j)).
    + eapply call_on_ok in H as [? _]; [done..|].
      intros v s <- Hs. by apply ensures_ret, grown_refl.
    + destruct (objects w !! j) as [o|] eqn:Hj; [|done].
      eapply call_with_sized; [done| |exact H].
      intros v s <- Hs. unfold ensures, assign_move.
      rewrite bind_assoc. unfold bind at 1. rewrite Swap_spec. cbn [bind ret set_this this].
      destruct (swapped_sized _ _ Hs (Hw _ _ Hj)) as [H1 H2]. done.
  - intros H. split; [|done]. destruct (objects w !! j) as [o|] eqn:Hj; [|done].
    destruct (decide (i = j)).
    + unfold call_on in H. destruct (objects w !! i) as [v|] eqn:Hi; [|done].
      rewrite Swap_spec in H. injection H as <-.
      intros k vk. cbn [objects set_this this]. rewrite lookup_insert.
      destruct (decide (i = k)); [|apply Hw]. intros [= <-].
      apply (swapped_sized _ _ (Hw _ _ Hi) (Hw _ _ Hj)).
    + eapply call_with_sized; [done| |exact H].
      intros v s <- Hs. unfold ensures. rewrite Swap_spec. cbn [set_this this].
      destruct (swapped_sized _ _ Hs (Hw _ _ Hj)) as [H1 H2]. done.
Qed.

Lemma run_reachable ops w w' :
  reachable w → run ops w = Some w' → reachable w'.
Proof.
  revert w. induction ops as [|o ops IH]; intros w Hw; cbn [run].
  - by intros [= <-].
  - destruct (exec o w) as [w1|] eqn:Hex; [|done].
    apply IH. by apply (reachable_step w o).
Qed.

(** X24. Take a program that constructs and destroys vectors and calls
    their public member functions, in which every call has defined
    behaviour, positions passed to [Insert], [Emplace] and [Erase] lie in
    [begin(), end()], and every number of elements passed to a constructor,
    to [Reserve] or to [Resize] has a size in bytes that is a [size_t].  In
    every world such a program reaches, [Size() <= Capacity()] holds of every
    vector, also after a call that left with an exception; and a step that is
    not a move construction, a move assignment or a [Swap] leaves no vector
    with less capacity than it had.  Programs with a call without defined
    behaviour, such as [PushBack] on a vector with spare capacity, reach no
    world and are not covered. *)
Theorem size_le_capacity_invariant w :
  reachable w →
  (∀ i v, objects w !! i = Some v → Size v ≤ Capacity v)
  ∧ (∀ o w', exec o w = Some w' → moves_or_swaps o = false →
       ∀ i v v', objects w !! i = Some v → objects w' !! i = Some v' →
         Capacity v ≤ Capacity v').
Proof.
  intros Hr. assert (Hw : all_sized w).
  { induction Hr as [|w o w' _ IH Hex].
    { intros i v. unfold empty_world. cbn [objects]. by rewrite lookup_empty. }
    by apply (exec_ok _ _ _ IH Hex). }
  split.
  - intros i v Hi. apply (Hw _ _ Hi).
  - intros o w' Hex. by apply (exec_ok _ _ _ Hw Hex).
Qed.

(** ** Further properties of the two classes *)

(** *** Construction, copy and destruction *)

Lemma map_Live_replicate k (x : T) :
  map Live (replicate k x) = replicate k (Live x).
Proof. induction k as [|k IH]; [done|]. cbn. by rewrite IH. Qed.

Lemma uninitialized_value_construct_loop_spec ys : ∀ v h n c a p q first,
  h !! a = Some (p ++ ys ++ q) →
  uninitialized_value_construct_loop (length ys) first
    (Ptr a (Z.of_nat (length p))) (State v h n c)
  = Ok tt (State v (<[a := p ++ replicate (length ys) (Live value_init) ++ q]> h)
             n c).
Proof.
  induction ys as [|y ys IH]; intros v h n c a p q first Ha.
  - cbn [length uninitialized_value_construct_loop replicate app] in *.
    unfold ret. by rewrite insert_id.
  - cbn [length uninitialized_value_construct_loop replicate app] in *.
    erewrite bind_Ok; cycle 1.
    { apply on_throw_Ok. unfold value_construct_at.
      apply (store_mid _ _ _ _ _ _ _ _ _ Ha). }
    rewrite (ptr_next _ p (Live value_init)).
    rewrite (IH _ _ _ _ a _ q); [|by rewrite lookup_insert_eq, <- app_assoc].
    by rewrite insert_insert_eq, <- app_assoc.
Qed.

Lemma uninitialized_value_construct_n_spec ys v h n c a p q k i :
  k = Z.of_nat (length ys) → i = Z.of_nat (length p) →
  h !! a = Some (p ++ ys ++ q) →
  uninitialized_value_construct_n (Ptr a i) k (State v h n c)
  = Ok tt (State v (<[a := p ++ replicate (length ys) (Live value_init) ++ q]> h)
             n c).
Proof.
  intros -> -> Ha. unfold uninitialized_value_construct_n.
  rewrite Nat2Z.id. by apply uninitialized_value_construct_loop_spec.
Qed.

(** X1. [Vector(size)], for a [size] whose size in bytes [operator new]
    grants, gives a vector of [size] value-initialized elements in a block
    of exactly [size] slots ([Size() == Capacity() == size]; no block at all
    for [size == 0]), and touches no other block.  For a [size] whose size
    in bytes is a [size_t] that [operator new] does not grant, the
    allocation fails and the exception leaves the constructor with nothing
    changed. *)
Theorem Vector_sized_value_initializes s n :
  fresh s → 0 ≤ n →
  (n ≤ max_alloc →
     ∃ v s', Vector_sized n s = Ok v s'
       ∧ Size v = n ∧ Capacity v = n
       ∧ holds (heap s') v (replicate (Z.to_nat n) value_init)
       ∧ this s' = this s ∧ stats s' = stats s
       ∧ ∀ a b, heap s !! a = Some b → heap s' !! a = Some b)
  ∧ (max_alloc < n → n * sizeof_T < SIZE_MOD → Vector_sized n s = Throw s).
Proof.
  destruct s as [v0 h nx c]. intros Hf Hn. split.
  - intros Hmax. destruct (Z.eq_dec n 0) as [->|Hn0].
    + exists Vector_default, (State v0 h nx c). unfold Vector_sized.
      rewrite (bind_Ok _ _ _ _ _ (RawMemory_sized_0 _)).
      split; [done|]. pose proof max_alloc_bound.
      repeat split; try done; cbn; lia.
    + assert (Hnx : 0 < nx) by apply Hf.
      assert (Hnone : h !! nx = None) by (apply (fresh_next _ _ Hf); cbn; lia).
      do 2 eexists. split.
      { unfold Vector_sized.
        rewrite (bind_Ok _ _ _ _ _ (RawMemory_sized_Ok _ _ _ _ n ltac:(lia) Hmax)).
        unfold begin_, GetAddress. cbn [data_ buffer_].
        erewrite bind_Ok; cycle 1.
        { apply on_throw_Ok.
          apply (uninitialized_value_construct_n_spec (replicate (Z.to_nat n) Raw)
                   _ _ _ _ nx [] []).
          - rewrite length_replicate. lia.
          - done.
          - by rewrite lookup_insert_eq, app_nil_r. }
        done. }
      cbn [this heap stats]. rewrite insert_insert_eq, length_replicate.
      split; [done|]. split; [done|]. split; [|split; [done|split; [done|]]].
      * unfold holds, Capacity, RawMemory_Capacity.
        cbn [data_ size_ buffer_ capacity_ blk ofs].
        rewrite length_replicate. split; [lia|]. split; [lia|].
        split; [done|]. split; [done|].
        destruct (Z.eqb_spec n 0); [done|]. split; [lia|].
        rewrite lookup_insert_eq, map_Live_replicate, Nat.sub_diag. done.
      * intros a b Hab. rewrite lookup_insert_ne; [done|]. congruence.
  - intros Hmax Hfit. unfold Vector_sized. apply bind_Throw.
    by apply RawMemory_sized_Throw.
Qed.

Lemma Vector_copy_empty o s :
  size_ o = 0 → Vector_copy o s = Ok Vector_default s.
Proof.
  intros Hz. unfold Vector_copy. rewrite Hz.
  by rewrite (bind_Ok _ _ _ _ _ (RawMemory_sized_0 _)).
Qed.

Lemma holds_default h : holds h Vector_default [].
Proof.
  unfold holds. cbn. pose proof max_alloc_bound. repeat split; try done; lia.
Qed.

Lemma holds_nil_size h v l : holds h v l → size_ v = 0 → l = [].
Proof. intros [Hsz _] Hz. destruct l; [done|]. cbn in Hsz. lia. Qed.

(** X2. The copy constructor gives a vector with the elements of the source in
    a block of its own with exactly [other.Size()] slots, by one call of the
    copy constructor per element; the source is unchanged. *)
Theorem Vector_copy_copies s o lo :
  holds (heap s) o lo → fresh s →
  Forall (λ x, copy_throws x = false) lo →
  ∃ v s', Vector_copy o s = Ok v s'
    ∧ holds (heap s') v lo ∧ holds (heap s') o lo
    ∧ Size v = Size o ∧ Capacity v = Size o
    ∧ (lo ≠ [] → blk (begin_ v) ≠ blk (begin_ o))
    ∧ this s' = this s
    ∧ stats s' = counters_add (stats s) (times (Size o) one_copy_ctor).
Proof.
  destruct s as [v0 h nx c]. cbn [heap this stats]. intros Ho Hf Hall.
  destruct (Z.eq_dec (size_ o) 0) as [Hz|Hz].
  - pose proof (holds_nil_size _ _ _ Ho Hz) as ->.
    exists Vector_default, (State v0 h nx c).
    split; [by apply Vector_copy_empty|]. cbn [heap this stats].
    split; [apply holds_default|]. split; [done|]. unfold Size. rewrite Hz.
    repeat split; try done. by rewrite times_0, counters_add_0.
  - assert (Hpos : 0 < size_ o) by (destruct Ho as (? & _); lia).
    pose proof (holds_fresh_ne _ _ _ Hf Ho) as Hne. cbn [next] in Hne.
    assert (Hnx : 0 < nx) by apply Hf.
    do 2 eexists. split; [by apply (Vector_copy_spec _ _ _ _ _ lo)|].
    cbn [heap this stats]. split; [|split; [by apply holds_insert|]].
    + destruct Ho as (Hsz & Hle & Hmax & _).
      unfold holds, Capacity, RawMemory_Capacity.
      cbn [data_ size_ buffer_ capacity_ blk ofs].
      split; [done|]. split; [lia|]. split; [unfold Capacity, RawMemory_Capacity in *; lia|].
      split; [done|]. destruct (Z.eqb_spec (size_ o) 0); [done|]. split; [lia|].
      rewrite lookup_insert_eq, Hsz, Nat2Z.id, Nat.sub_diag. by rewrite app_nil_r.
    + repeat split. intros _. unfold begin_ at 1, GetAddress. cbn. congruence.
Qed.

(** X3. When the copy of an element throws, the copy constructor destroys the
    copies it has made (as many destructor calls as copy constructions),
    releases its block, and leaves with the exception: the heap is what it
    was and no live object is lost. *)
Theorem Vector_copy_failure_cleans_up s o lo :
  holds (heap s) o lo → fresh s →
  Exists (λ x, copy_throws x = true) lo →
  ∃ s', Vector_copy o s = Throw s'
    ∧ heap s' = heap s ∧ this s' = this s
    ∧ n_dtor (stats s') - n_dtor (stats s)
      = n_copy_ctor (stats s') - n_copy_ctor (stats s)
    ∧ n_leaked (stats s') = n_leaked (stats s).
Proof.
  destruct s as [v0 h nx c]. cbn [heap this stats]. intros Ho Hf Hex.
  destruct (first_throw _ Hex) as (xs1 & x & xs2 & -> & Hxs & Hx).
  eexists. split; [by apply (Vector_copy_Throw _ _ _ _ _ _ _ _ Ho)|].
  cbn [heap this stats]. repeat split; destruct c; cbn; lia.
Qed.

(** X4. The destructor of a vector destroys each of its elements once and
    releases its block: no other block changes and no live object is
    lost. *)
Theorem Vector_dtor_destroys_and_releases s v l :
  holds (heap s) v l → fresh s →
  ∃ s', Vector_dtor v s = Ok tt s'
    ∧ heap s' = delete (blk (begin_ v)) (heap s)
    ∧ this s' = this s
    ∧ stats s' = counters_add (stats s) (times (Size v) one_dtor).
Proof.
  destruct s as [v0 h nx c]. cbn [heap this stats]. intros Hv Hf.
  destruct (Vector_dtor_spec v0 h nx c _ _ Hv) as [HD|[Hz HD]].
  - eexists. split; [exact HD|]. cbn [heap this stats].
    destruct Hv as (Hsz & _). unfold Size. by rewrite Hsz.
  - eexists. split; [exact HD|]. cbn [heap this stats].
    destruct (holds_null _ _ _ Hv Hz) as [-> ->].
    rewrite delete_id by apply (fresh_null _ Hf).
    destruct Hv as (Hsz & _). unfold Size. rewrite Hsz. cbn [length].
    by rewrite times_0, counters_add_0.
Qed.

(** *** [Reserve] and [Resize] *)

Lemma Reserve_copy_Throw v h nx c xs1 x xs2 n :
  holds h v (xs1 ++ x :: xs2) → fresh (State v h nx c) →
  Capacity v < n → n ≤ max_alloc → relocate_by_move = false →
  Forall (λ z, copy_throws z = false) xs1 → copy_throws x = true →
  Reserve n (State v h nx c)
  = Throw (State v h (nx + 1)
      (counters_add c
         (counters_add (times (Z.of_nat (length xs1)) one_copy_ctor)
            (times (Z.of_nat (length xs1)) one_dtor)))).
Proof.
  destruct v as [[[a o] cap] sz].
  unfold holds, begin_, GetAddress, Capacity, RawMemory_Capacity.
  cbn [data_ size_ buffer_ capacity_ blk ofs].
  intros (-> & Hle & Hmax & -> & Hb) Hf Hn Hnmax Hrel Hxs Hx.
  assert (Hlen : length (xs1 ++ x :: xs2) = (length xs1 + S (length xs2))%nat)
    by (by rewrite length_app).
  destruct (Z.eqb_spec cap 0) as [->|Hcap]; [lia|]. destruct Hb as [Ha Hb].
  assert (Hanx : a ≠ nx) by (apply (fresh_lookup _ _ _ Hf) in Hb; cbn in Hb; lia).
  assert (Hnx : 0 < nx) by apply Hf.
  unfold Reserve. rewrite bind_get_this.
  unfold begin_, GetAddress, RawMemory_Capacity.
  cbn [this data_ size_ buffer_ capacity_].
  destruct (Z.leb_spec n cap); [lia|].
  rewrite (bind_Ok _ _ _ _ _ (RawMemory_sized_Ok _ _ _ _ n ltac:(lia) Hnmax)).
  cbn [buffer_ capacity_]. rewrite Hrel.
  apply bind_Throw. eapply on_throw_Throw.
  - apply bind_Throw.
    apply (uninitialized_copy_n_Throw xs1 x xs2 _ _ _ _ a nx []
             (replicate (Z.to_nat cap - length (xs1 ++ x :: xs2)) Raw) []
             (Z.to_nat n) []); try done.
    + lia.
    + by rewrite lookup_insert_ne.
    + by rewrite lookup_insert_eq, app_nil_r.
  - unfold RawMemory_dtor, Deallocate. cbn [buffer_].
    erewrite operator_delete_block; [|lia|by rewrite lookup_insert_eq].
    rewrite live_count_Raw, leaks_0.
    rewrite delete_insert_id; [done|].
    apply (fresh_next _ _ Hf). cbn. lia.
Qed.

(** X5. [Reserve(n)] beyond the capacity, for an [n] whose size in bytes
    is a [size_t], either succeeds or changes nothing: when the allocation
    fails ([operator new] does not grant that many bytes), and when the copy
    of an element throws (for an element type that is relocated by copy),
    the call leaves with the exception, the vector and the whole heap are
    what they were, and every copy made on the way was destroyed. *)
Theorem Reserve_failure_changes_nothing s l n :
  holds (heap s) (this s) l → fresh s → Capacity (this s) < n →
  (max_alloc < n → n * sizeof_T < SIZE_MOD → Reserve n s = Throw s)
  ∧ (n ≤ max_alloc → relocate_by_move = false →
     Exists (λ x, copy_throws x = true) l →
     ∃ s', Reserve n s = Throw s'
       ∧ this s' = this s ∧ heap s' = heap s
       ∧ n_dtor (stats s') - n_dtor (stats s)
         = n_copy_ctor (stats s') - n_copy_ctor (stats s)
       ∧ n_leaked (stats s') = n_leaked (stats s)).
Proof.
  destruct s as [v h nx c]. cbn [this heap stats]. intros Hv Hf Hn. split.
  - intros Hmax Hfit. unfold Reserve. rewrite bind_get_this. cbn [this].
    unfold Capacity in Hn.
    destruct (Z.leb_spec n (RawMemory_Capacity (data_ v))); [lia|].
    apply bind_Throw. by apply RawMemory_sized_Throw.
  - intros Hmax Hrel Hex.
    destruct (first_throw _ Hex) as (xs1 & x & xs2 & -> & Hxs & Hx).
    eexists. split; [by apply (Reserve_copy_Throw _ _ _ _ xs1 x xs2)|].
    cbn [this heap stats]. repeat split; destruct c; cbn; lia.
Qed.

(** X6. [Reserve(n)] beyond the capacity, for an [n] whose size in bytes
    [operator new] grants, destroys each element of the old block once and
    releases that block: no live object is lost with it, the vector's block
    is a new one, and no other block changes. *)
Theorem Reserve_releases_old_block s l n :
  holds (heap s) (this s) l → fresh s →
  Capacity (this s) < n → n ≤ max_alloc →
  relocate_by_move = true ∨ Forall (λ x, copy_throws x = false) l →
  ∃ s', Reserve n s = Ok tt s'
    ∧ n_dtor (stats s') = n_dtor (stats s) + Size (this s)
    ∧ n_leaked (stats s') = n_leaked (stats s)
    ∧ blk (begin_ (this s')) = next s
    ∧ heap s' !! blk (begin_ (this s)) = None
    ∧ ∀ a, a ≠ blk (begin_ (this s)) → a ≠ next s → heap s' !! a = heap s !! a.
Proof.
  destruct s as [v h nx c]. cbn [this heap stats next].
  intros Hv Hf Hn Hmax Hrel.
  eexists. split; [by apply Reserve_grows|]. cbn [this heap stats].
  destruct Hv as (Hsz & _). unfold Size. rewrite Hsz.
  split; [destruct c, relocate_by_move; cbn; lia|].
  split; [destruct c, relocate_by_move; cbn; lia|].
  split; [done|]. split; [by rewrite lookup_delete_eq|].
  intros a Ha Hanx. by rewrite lookup_delete_ne, lookup_insert_ne.
Qed.

Lemma value_construct_tail v h n c l k :
  holds h v l → size_ v + Z.of_nat k ≤ Capacity v →
  ∃ h', uninitialized_value_construct_n (ptr_add (begin_ v) (size_ v)) (Z.of_nat k)
          (State v h n c) = Ok tt (State v h' n c)
    ∧ holds h' (with_size v (size_ v + Z.of_nat k)) (l ++ replicate k value_init)
    ∧ ∀ a, a ≠ blk (begin_ v) → h' !! a = h !! a.
Proof.
  destruct k as [|k].
  { intros Hv _. exists h. split; [done|]. split; [|done].
    rewrite Z.add_0_r. cbn [replicate]. rewrite app_nil_r.
    by destruct v as [d sz]. }
  destruct v as [[[a o] cap] sz].
  unfold holds, begin_, GetAddress, Capacity, RawMemory_Capacity, with_size.
  cbn [data_ size_ buffer_ capacity_ blk ofs].
  intros (-> & Hle & Hmax & -> & Hb) Hk.
  destruct (Z.eqb_spec cap 0) as [->|Hcap]; [lia|]. destruct Hb as [Ha Hb].
  set (r := replicate (Z.to_nat cap - length l - S k) Raw).
  eexists. split.
  { rewrite ptr_add_Ptr.
    apply (uninitialized_value_construct_n_spec (replicate (S k) Raw)
             _ _ _ _ a (map Live l) r).
    - by rewrite length_replicate.
    - rewrite length_map. lia.
    - rewrite Hb. f_equal. f_equal. unfold r.
      rewrite <- replicate_add. f_equal. lia. }
  split; [|intros b Hb'; by rewrite lookup_insert_ne].
  rewrite length_app, !length_replicate.
  split; [lia|]. split; [lia|]. split; [done|]. split; [done|].
  split; [done|]. rewrite lookup_insert_eq. f_equal.
  rewrite map_app, map_Live_replicate, <- app_assoc. do 2 f_equal.
  unfold r. f_equal. lia.
Qed.

(** X7. [Resize(n)] with [n <= Size()] destroys the elements from index [n] on,
    one destructor call each, and keeps the first [n]; the block and the
    capacity stay, and nothing is allocated. *)
Theorem Resize_shrinks s l1 l2 :
  holds (heap s) (this s) (l1 ++ l2) →
  ∃ s', Resize (Z.of_nat (length l1)) s = Ok tt s'
    ∧ holds (heap s') (this s') l1
    ∧ Size (this s') = Z.of_nat (length l1)
    ∧ Capacity (this s') = Capacity (this s)
    ∧ begin_ (this s') = begin_ (this s)
    ∧ next s' = next s
    ∧ stats s' = counters_add (stats s) (times (Z.of_nat (length l2)) one_dtor).
Proof.
  destruct s as [v h nx c]. cbn [this heap stats next].
  destruct v as [[[a o] cap] sz].
  unfold holds, begin_, GetAddress, Capacity, RawMemory_Capacity, Size.
  cbn [data_ size_ buffer_ capacity_ blk ofs].
  intros (-> & Hle & Hmax & -> & Hb).
  pose proof (max_alloc_small _ Hmax) as Hsmall.
  rewrite length_app in *.
  unfold Resize. rewrite bind_get_this. cbn [this size_].
  destruct (Z.ltb_spec (Z.of_nat (length l1 + length l2)) (Z.of_nat (length l1)));
    [lia|].
  unfold begin_, GetAddress. cbn [data_ buffer_]. rewrite ptr_add_Ptr.
  rewrite wrap_small by lia.
  destruct l2 as [|y l2].
  { rewrite app_nil_r in *. cbn [length] in *.
    replace (Z.of_nat (length l1 + 0) - Z.of_nat (length l1)) with 0 by lia.
    rewrite (bind_Ok _ _ _ _ _ (destroy_n_0 _ _)), bind_get_this.
    unfold put_this, set_this, with_size. cbn [this heap stats next data_ size_].
    eexists. split; [done|].
    cbn [this heap stats next data_ size_ buffer_ capacity_ blk ofs].
    rewrite times_0, counters_add_0. rewrite Nat.add_0_r in *.
    repeat split; try done; lia. }
  destruct (Z.eqb_spec cap 0) as [->|Hcap]; [cbn [length] in Hle; lia|].
  destruct Hb as [Ha Hb].
  replace (Z.of_nat (length l1 + length (y :: l2)) - Z.of_nat (length l1))
    with (Z.of_nat (length (y :: l2))) by lia.
  erewrite bind_Ok; cycle 1.
  { apply (destroy_n_spec (y :: l2) _ _ _ _ a (map Live l1)
             (replicate (Z.to_nat cap - (length l1 + length (y :: l2))) Raw)).
    - done.
    - rewrite length_map. lia.
    - rewrite Hb, map_app. by rewrite <- app_assoc. }
  rewrite bind_get_this.
  unfold put_this, set_this, with_size. cbn [this heap stats next data_ size_].
  eexists. split; [done|].
  cbn [this heap stats next data_ size_ buffer_ capacity_ blk ofs].
  split; [|done]. split; [done|]. split; [lia|]. split; [done|]. split; [done|].
  destruct (Z.eqb_spec cap 0); [done|]. split; [done|].
  rewrite lookup_insert_eq. do 2 f_equal. rewrite <- replicate_add. f_equal.
  cbn [length] in *. lia.
Qed.

(** X8. [Resize(n)] with [n > Size()], for an [n] whose size in bytes
    [operator new] grants, appends [n - Size()] value-initialized elements
    after the elements there are, which keep their order; the capacity
    becomes [n] when it was less and stays otherwise. *)
Theorem Resize_grows s l n :
  holds (heap s) (this s) l → fresh s →
  Size (this s) < n → n ≤ max_alloc →
  relocate_by_move = true ∨ Forall (λ x, copy_throws x = false) l →
  ∃ s', Resize n s = Ok tt s'
    ∧ holds (heap s') (this s')
        (l ++ replicate (Z.to_nat (n - Size (this s))) value_init)
    ∧ Size (this s') = n
    ∧ Capacity (this s') = Z.max (Capacity (this s)) n.
Proof.
  destruct s as [v h nx c]. cbn [this heap]. unfold Size.
  intros Hv Hf Hn Hmax Hrel.
  assert (Hsz0 : 0 ≤ size_ v) by (destruct Hv as (-> & _); lia).
  pose proof (max_alloc_small _ Hmax) as Hsmall.
  assert (HR : ∃ v1 h1 n1 c1,
    Reserve n (State v h nx c) = Ok tt (State v1 h1 n1 c1)
    ∧ holds h1 v1 l ∧ size_ v1 = size_ v
    ∧ Capacity v1 = Z.max (Capacity v) n).
  { destruct (Z.le_gt_cases n (Capacity v)) as [Hle|Hgt].
    - exists v, h, nx, c. split; [|split; [done|split; [done|lia]]].
      unfold Reserve. rewrite bind_get_this. cbn [this]. unfold Capacity in Hle.
      by destruct (Z.leb_spec n (RawMemory_Capacity (data_ v))); [|lia].
    - do 4 eexists. split; [by apply (Reserve_grows _ _ _ _ l)|].
      split; [|split; [done|cbn; lia]].
      apply holds_relocated; [done|lia|done|apply Hf|].
      apply (fresh_next _ _ Hf). cbn. lia. }
  destruct HR as (v1 & h1 & n1 & c1 & HR & Hv1 & Hsz1 & Hcap1).
  destruct (value_construct_tail v1 h1 n1 c1 l (Z.to_nat (n - size_ v)) Hv1)
    as (h2 & HU & Hv2 & _); [lia|].
  eexists. split.
  { unfold Resize. rewrite bind_get_this. cbn [this].
    destruct (Z.ltb_spec (size_ v) n); [|lia].
    rewrite bind_assoc, (bind_Ok _ _ _ _ _ HR).
    rewrite bind_assoc, bind_get_this. cbn [this].
    rewrite Hsz1, wrap_small by lia. rewrite <- Hsz1.
    replace (n - size_ v1) with (Z.of_nat (Z.to_nat (n - size_ v))) by lia.
    rewrite (bind_Ok _ _ _ _ _ HU), bind_get_this. done. }
  unfold put_this, set_this, with_size in *. cbn [this heap size_ data_] in *.
  replace (size_ v1 + Z.of_nat (Z.to_nat (n - size_ v))) with n in Hv2 by lia.
  done.
Qed.

(** X25. The size in bytes [Reserve(n)] asks [operator new] for is the
    [size_t] product [n * sizeof(T)], which wraps around.  On an empty
    vector without storage, when the wrapped product is a size [operator
    new] grants, [Reserve(n)] returns normally with [Capacity() == n] and a
    new block of that many bytes, whatever [n] is; when the product has
    wrapped, the block has room for fewer than [n] elements. *)
Theorem Reserve_byte_size_wraps s n :
  this s = Vector_default → 0 < n →
  wrap (n * sizeof_T) ≤ max_bytes →
  ∃ s', Reserve n s = Ok tt s'
      ∧ Size (this s') = 0 ∧ Capacity (this s') = n
      ∧ begin_ (this s') = Ptr (next s) 0
      ∧ heap s' !! next s
        = Some (replicate (Z.to_nat (wrap (n * sizeof_T) / sizeof_T)) Raw)
      ∧ stats s' = stats s
      ∧ (SIZE_MOD ≤ n * sizeof_T → wrap (n * sizeof_T) / sizeof_T < n).
Proof.
  destruct s as [v h nx c]. cbn [this next stats]. intros -> Hn Hfit.
  pose proof sizeof_bound as Hsz.
  eexists. split.
  { unfold Reserve. rewrite bind_get_this.
    cbn [this Vector_default RawMemory_default data_ size_ RawMemory_Capacity capacity_].
    destruct (Z.leb_spec n 0); [lia|].
    unfold RawMemory_sized, Allocate. destruct (Z.eqb_spec n 0); [lia|].
    rewrite bind_assoc.
    rewrite (bind_Ok _ _ _ _ _ (operator_new_Ok _ _ _ _ _ Hfit)).
    rewrite bind_ret.
    destruct relocate_by_move; reflexivity. }
  cbn [this heap stats]. unfold Size, Capacity, RawMemory_Capacity, begin_, GetAddress.
  unfold set_this. cbn [this heap stats data_ size_ capacity_ buffer_].
  rewrite lookup_insert_eq.
  split; [done|]. split; [done|]. split; [done|]. split; [done|].
  split; [done|].
  intros Hbig. apply Z.div_lt_upper_bound; [lia|].
  unfold wrap. pose proof (Z.mod_le (n * sizeof_T) SIZE_MOD). 
  assert (n * sizeof_T mod SIZE_MOD ≤ n * sizeof_T - SIZE_MOD).
  { rewrite <- (Z.mod_add _ (-1)) by (unfold SIZE_MOD; lia).
    apply Z.mod_le; unfold SIZE_MOD in *; lia. }
  unfold SIZE_MOD in *. lia.
Qed.

(** *** Element access, [Swap] and moves *)

(** X9. [v[i]] for [i < Size()] is the address of the [i]-th slot of the block,
    where the [i]-th element lives; for [i >= Size()] the [assert] of
    [operator[]] fails, also where [i] is within the capacity. *)
Theorem Vector_at_within_size s l :
  holds (heap s) (this s) l →
  (∀ i x, l !! i = Some x →
     Vector_at (Z.of_nat i) s = Ok (ptr_add (begin_ (this s)) (Z.of_nat i)) s
     ∧ read (ptr_add (begin_ (this s)) (Z.of_nat i)) s = Ok x s)
  ∧ (∀ k, Size (this s) ≤ k → Vector_at k s = UB).
Proof.
  destruct s as [v h nx c]. cbn [this heap]. intros Hv. split.
  - intros i x Hi.
    pose proof (lookup_lt_Some _ _ _ Hi) as Hlt.
    pose proof (take_drop_middle _ _ _ Hi) as Hl.
    destruct v as [[[a o] cap] sz].
    unfold holds, begin_, GetAddress, Capacity, RawMemory_Capacity in *.
    cbn [data_ size_ buffer_ capacity_ blk ofs] in *.
    destruct Hv as (-> & Hle & Hmax & -> & Hb).
    destruct (Z.eqb_spec cap 0) as [->|Hcap]; [lia|]. destruct Hb as [Ha Hb].
    split.
    + unfold Vector_at, RawMemory_at. rewrite bind_get_this.
      cbn [this data_ size_ buffer_ capacity_].
      destruct (Z.ltb_spec (Z.of_nat i) (Z.of_nat (length l))); [|lia].
      by destruct (Z.ltb_spec (Z.of_nat i) cap); [|lia].
    + rewrite ptr_add_Ptr.
      apply (read_eq _ _ _ _ a (map Live (take i l))
               (map Live (drop (S i) l)
                ++ replicate (Z.to_nat cap - length l) Raw)).
      * rewrite length_map, length_take. lia.
      * rewrite Hb. rewrite <- Hl at 1. rewrite map_app. cbn [map].
        by rewrite <- app_assoc.
  - intros k Hk. unfold Size in Hk. unfold Vector_at. rewrite bind_get_this.
    cbn [this]. by destruct (Z.ltb_spec k (size_ v)); [lia|].
Qed.

Lemma swapped_eq (v o : Vector) : swapped v o = (o, v).
Proof. by destruct v as [[b cap] sz], o as [[b' cap'] sz']. Qed.

(** X10. [Swap] exchanges the data members of the two vectors and nothing else:
    each ends up with the block, the capacity and the elements of the
    other, no element is constructed, assigned or destroyed, and a second
    [Swap] undoes the first. *)
Theorem Swap_exchanges s o l lo :
  holds (heap s) (this s) l → holds (heap s) o lo →
  ∃ o' s', Swap o s = Ok o' s'
    ∧ holds (heap s') (this s') lo ∧ holds (heap s') o' l
    ∧ begin_ (this s') = begin_ o ∧ begin_ o' = begin_ (this s)
    ∧ heap s' = heap s ∧ stats s' = stats s ∧ next s' = next s
    ∧ Swap o' s' = Ok o s.
Proof.
  destruct s as [v h nx c]. cbn [this heap stats next]. intros Hv Ho.
  exists v, (State o h nx c). rewrite !Swap_spec, !swapped_eq. done.
Qed.

(** X11. Moves touch no element and release nothing.  The move constructor
    hands the block, capacity and size of the source to the new vector and
    leaves the source empty, without a block.  Move assignment from another
    vector swaps: the target gets the elements of [rhs], and [rhs] is left
    holding the elements the target had. *)
Theorem Vector_moves_exchange s o l lo :
  holds (heap s) (this s) l → holds (heap s) o lo →
  (∃ v o', Vector_move o = (v, o')
     ∧ holds (heap s) v lo ∧ begin_ v = begin_ o ∧ Capacity v = Capacity o
     ∧ Size o' = 0 ∧ Capacity o' = 0 ∧ begin_ o' = nullptr)
  ∧ (∃ o' s', assign_move (Another o) s = Ok (Another o') s'
     ∧ holds (heap s') (this s') lo ∧ holds (heap s') o' l
     ∧ heap s' = heap s ∧ stats s' = stats s).
Proof.
  destruct s as [v h nx c]. cbn [this heap stats]. intros Hv Ho. split.
  - exists o, Vector_default. unfold Vector_move. by rewrite swapped_eq.
  - exists v, (State o h nx c). unfold assign_move.
    by rewrite (bind_Ok _ _ _ _ _ (Swap_spec _ _)), swapped_eq.
Qed.

(** *** [RawMemory] *)

(** X12. [RawMemory(n)] for an [n] whose size in bytes [operator new]
    grants ([n * sizeof(T) <= max_bytes], so that the product does not
    wrap): capacity [n] and a new block of [n] slots without objects, or the
    null pointer and no allocation for [n == 0]; the address is null exactly
    when the capacity is 0.  Destroying the object at once gives back the
    heap there was. *)
Theorem RawMemory_sized_allocates s n :
  fresh s → 0 ≤ n → n ≤ max_alloc →
  ∃ r s', RawMemory_sized n s = Ok r s'
    ∧ RawMemory_Capacity r = n
    ∧ (GetAddress r = nullptr ↔ n = 0)
    ∧ (0 < n → heap s !! blk (GetAddress r) = None
               ∧ heap s' !! blk (GetAddress r) = Some (replicate (Z.to_nat n) Raw))
    ∧ (∀ a b, heap s !! a = Some b → heap s' !! a = Some b)
    ∧ fresh s'
    ∧ ∃ s'', RawMemory_dtor r s' = Ok tt s'' ∧ heap s'' = heap s
             ∧ stats s'' = stats s.
Proof.
  destruct s as [v h nx c]. cbn [heap stats]. intros Hf Hn Hmax.
  destruct (Z.eq_dec n 0) as [->|Hn0].
  - exists RawMemory_default, (State v h nx c).
    split; [apply RawMemory_sized_0|]. cbn [heap stats].
    split; [done|]. split; [done|]. split; [lia|]. split; [done|].
    split; [done|]. eexists. split; [apply operator_delete_null|]. done.
  - assert (Hnx : 0 < nx) by apply Hf.
    assert (Hnone : h !! nx = None) by (apply (fresh_next _ _ Hf); cbn; lia).
    do 2 eexists. split; [by apply RawMemory_sized_Ok; lia|].
    unfold GetAddress, RawMemory_Capacity. cbn [heap stats buffer_ capacity_ blk].
    split; [done|]. split; [split; [intros [=]; lia|lia]|].
    split; [intros _; by rewrite lookup_insert_eq|].
    split; [intros a b Hab; rewrite lookup_insert_ne; [done|congruence]|].
    split.
    + split; [cbn; lia|]. cbn [heap next].
      apply map_Forall_insert_2; [lia|].
      destruct Hf as [_ Hf]. cbn [heap next] in Hf.
      eapply map_Forall_impl; [exact Hf|]. cbn. intros; lia.
    + eexists. split.
      { unfold RawMemory_dtor, Deallocate. cbn [buffer_].
        apply operator_delete_block; [lia|apply lookup_insert_eq]. }
      cbn [heap stats]. rewrite live_count_Raw, leaks_0.
      by rewrite delete_insert_id.
Qed.

(** X13. Move assignment of [RawMemory] from another object gives the target the
    block and capacity of the source.  Into a target without a block it
    releases nothing and leaves the source empty (null address, capacity 0).
    Into a target that owns a block it releases that block, and the source
    is left with capacity 0 and the address of the released block. *)
Theorem RawMemory_move_assign_takes_over s self o :
  (buffer_ self = nullptr →
     RawMemory_move_assign self (Another o) s
     = Ok (o, Another RawMemory_default) s)
  ∧ (∀ b, blk (buffer_ self) ≠ 0 → ofs (buffer_ self) = 0 →
     heap s !! blk (buffer_ self) = Some b →
     ∃ s', RawMemory_move_assign self (Another o) s
           = Ok (o, Another {| buffer_ := buffer_ self; capacity_ := 0 |}) s'
       ∧ heap s' = delete (blk (buffer_ self)) (heap s)
       ∧ this s' = this s).
Proof.
  destruct s as [v h nx c], self as [[a k] cap], o as [bo capo].
  cbn [buffer_ blk ofs heap this]. split.
  - intros [= -> ->]. unfold RawMemory_move_assign, RawMemory_Swap.
    cbn [buffer_ capacity_]. unfold Deallocate.
    by rewrite (bind_Ok _ _ _ _ _ (operator_delete_null _)).
  - intros b Ha -> Hb. unfold RawMemory_move_assign, RawMemory_Swap.
    cbn [buffer_ capacity_]. unfold Deallocate.
    rewrite (bind_Ok _ _ _ _ _ (operator_delete_block _ _ _ _ _ _ Ha Hb)).
    eexists. split; [done|]. done.
Qed.

(** *** Copy assignment within the capacity *)

Lemma copy_assign_at_Ok v h n c a b pa qa pb qb x y :
  a ≠ b → copy_throws x = false →
  h !! a = Some (pa ++ Live x :: qa) → h !! b = Some (pb ++ Live y :: qb) →
  copy_assign_at (Ptr b (Z.of_nat (length pb))) (Ptr a (Z.of_nat (length pa)))
    (State v h n c)
  = Ok tt (State v (<[b := pb ++ Live x :: qb]> h) n
             (counters_add c one_copy_assign)).
Proof.
  intros Hab Hx Ha Hb. unfold copy_assign_at.
  rewrite (bind_Ok _ _ _ _ _ (read_mid _ _ _ _ _ _ _ _ Ha)).
  rewrite (bind_Ok _ _ _ _ _ (read_mid _ _ _ _ _ _ _ _ Hb)), Hx.
  by rewrite (bind_Ok _ _ _ _ _ (store_mid _ _ _ _ _ _ _ _ (Live x) Hb)).
Qed.

Lemma copy_assign_at_Throw v h n c a b pa qa pb qb x y :
  copy_throws x = true →
  h !! a = Some (pa ++ Live x :: qa) → h !! b = Some (pb ++ Live y :: qb) →
  copy_assign_at (Ptr b (Z.of_nat (length pb))) (Ptr a (Z.of_nat (length pa)))
    (State v h n c)
  = Throw (State v h n c).
Proof.
  intros Hx Ha Hb. unfold copy_assign_at.
  rewrite (bind_Ok _ _ _ _ _ (read_mid _ _ _ _ _ _ _ _ Ha)).
  by rewrite (bind_Ok _ _ _ _ _ (read_mid _ _ _ _ _ _ _ _ Hb)), Hx.
Qed.

Lemma copy_loop_spec xs : ∀ v h n c a b pa qa pb ys qb,
  a ≠ b → length ys = length xs →
  Forall (λ x, copy_throws x = false) xs →
  h !! a = Some (pa ++ map Live xs ++ qa) →
  h !! b = Some (pb ++ map Live ys ++ qb) →
  copy_loop (length xs) (Ptr a (Z.of_nat (length pa)))
    (Ptr b (Z.of_nat (length pb))) (State v h n c)
  = Ok tt (State v (<[b := pb ++ map Live xs ++ qb]> h) n
             (counters_add c (times (Z.of_nat (length xs)) one_copy_assign))).
Proof.
  induction xs as [|x xs IH]; intros v h n c a b pa qa pb ys qb Hab Hlen Hxs Ha Hb.
  - destruct ys; [|done]. cbn [length copy_loop map app] in *.
    unfold ret. rewrite (insert_id h b) by done.
    by rewrite times_0, counters_add_0.
  - destruct ys as [|y ys]; [done|]. cbn [length copy_loop map app] in *.
    apply Forall_cons in Hxs as [Hx Hxs].
    rewrite (bind_Ok _ _ _ _ _ (copy_assign_at_Ok _ _ _ _ _ _ _ _ _ _ _ _ Hab Hx Ha Hb)).
    rewrite (ptr_next _ pa (Live x)), (ptr_next _ pb (Live x)).
    rewrite (IH _ _ _ _ a b _ qa _ ys qb); [|done|lia|done| |].
    + rewrite insert_insert_eq.
      by rewrite times_succ, counters_add_assoc, <- !app_assoc.
    + rewrite lookup_insert_ne by done. by rewrite <- app_assoc.
    + by rewrite lookup_insert_eq, <- app_assoc.
Qed.

Lemma copy_loop_Throw xs1 : ∀ v h n c a b pa qa pb ys qb x xs2,
  a ≠ b → length ys = length (xs1 ++ x :: xs2) →
  Forall (λ z, copy_throws z = false) xs1 → copy_throws x = true →
  h !! a = Some (pa ++ map Live (xs1 ++ x :: xs2) ++ qa) →
  h !! b = Some (pb ++ map Live ys ++ qb) →
  copy_loop (length (xs1 ++ x :: xs2)) (Ptr a (Z.of_nat (length pa)))
    (Ptr b (Z.of_nat (length pb))) (State v h n c)
  = Throw (State v
      (<[b := pb ++ map Live (xs1 ++ drop (length xs1) ys) ++ qb]> h) n
      (counters_add c (times (Z.of_nat (length xs1)) one_copy_assign))).
Proof.
  induction xs1 as [|x1 xs1 IH];
    intros v h n c a b pa qa pb ys qb x xs2 Hab Hlen Hxs Hx Ha Hb.
  - destruct ys as [|y ys]; [done|]. cbn [length copy_loop map app drop] in *.
    apply bind_Throw.
    rewrite (copy_assign_at_Throw _ _ _ _ _ _ _ _ _ _ _ _ Hx Ha Hb).
    rewrite (insert_id h b) by done.
    by rewrite times_0, counters_add_0.
  - destruct ys as [|y ys]; [done|]. cbn [length copy_loop map app drop] in *.
    apply Forall_cons in Hxs as [Hx1 Hxs].
    rewrite (bind_Ok _ _ _ _ _
               (copy_assign_at_Ok _ _ _ _ _ _ _ _ _ _ _ _ Hab Hx1 Ha Hb)).
    rewrite (ptr_next _ pa (Live x1)), (ptr_next _ pb (Live x1)).
    rewrite (IH _ _ _ _ a b _ qa _ ys qb x xs2); [|done|lia|done|done| |].
    + rewrite insert_insert_eq.
      by rewrite times_succ, counters_add_assoc, <- !app_assoc.
    + rewrite lookup_insert_ne by done. by rewrite <- app_assoc.
    + by rewrite lookup_insert_eq, <- app_assoc.
Qed.

(** The algorithms on a source that may be empty, in which case it needs
    no block. *)
Lemma copy_n_spec xs ys v h n c a b pa qa pb qb k i j :
  k = Z.of_nat (length xs) → i = Z.of_nat (length pa) →
  j = Z.of_nat (length pb) → length ys = length xs →
  Forall (λ x, copy_throws x = false) xs →
  xs = [] ∨ (a ≠ b ∧ h !! a = Some (pa ++ map Live xs ++ qa)) →
  h !! b = Some (pb ++ map Live ys ++ qb) →
  copy_n (Ptr a i) k (Ptr b j) (State v h n c)
  = Ok tt (State v (<[b := pb ++ map Live xs ++ qb]> h) n
             (counters_add c (times k one_copy_assign))).
Proof.
  intros -> -> -> Hlen Hxs [->|[Hab Ha]] Hb; unfold copy_n; rewrite Nat2Z.id.
  - destruct ys; [|done]. cbn [length copy_loop map app] in *. unfold ret.
    rewrite (insert_id h b) by done. by rewrite times_0, counters_add_0.
  - by apply copy_loop_spec with (qa := qa) (ys := ys).
Qed.

Lemma uninitialized_copy_n_opt xs v h n c a b pa qa pb ys qb k i j :
  k = Z.of_nat (length xs) → i = Z.of_nat (length pa) →
  j = Z.of_nat (length pb) → length ys = length xs →
  Forall (λ x, copy_throws x = false) xs →
  xs = [] ∨ (a ≠ b ∧ h !! a = Some (pa ++ map Live xs ++ qa)) →
  h !! b = Some (pb ++ ys ++ qb) →
  uninitialized_copy_n (Ptr a i) k (Ptr b j) (State v h n c)
  = Ok tt (State v (<[b := pb ++ map Live xs ++ qb]> h) n
             (counters_add c (times k one_copy_ctor))).
Proof.
  intros Hk Hi Hj Hlen Hxs [->|[Hab Ha]] Hb.
  - destruct ys; [|done]. subst k. cbn [length map app] in *.
    unfold uninitialized_copy_n. cbn [Z.to_nat Z.of_nat uninitialized_copy_loop].
    unfold ret. rewrite (insert_id h b) by done.
    by rewrite times_0, counters_add_0.
  - by apply uninitialized_copy_n_spec with (pa := pa) (qa := qa) (ys := ys).
Qed.

(** What [holds] says of a source of copies: it is empty or has a block. *)
Lemma holds_source h o lo :
  holds h o lo →
  lo = [] ∨ (blk (begin_ o) ≠ 0 ∧ h !! blk (begin_ o)
               = Some ([] ++ map Live lo
                          ++ replicate (Z.to_nat (Capacity o) - length lo) Raw)).
Proof.
  intros Ho. destruct (Z.eq_dec (Capacity o) 0) as [Hz|Hz].
  - left. by destruct (holds_null _ _ _ Ho Hz).
  - right. destruct Ho as (_ & _ & _ & _ & Hb). unfold begin_, GetAddress.
    by destruct (Z.eqb_spec (Capacity o) 0).
Qed.

(** X14. Copy assignment from a source that fits in the capacity of the target
    reuses the target's block: the first [min(Size(), other.Size())]
    elements are copy-assigned, the elements the target has in excess are
    destroyed, the elements the source has in excess are copy-constructed,
    and nothing is allocated.  The target ends with the elements of the
    source, its block and its capacity as before; the source is
    unchanged. *)
Theorem assign_copy_within_capacity s o l lo :
  holds (heap s) (this s) l → holds (heap s) o lo →
  (Capacity o ≠ 0 → blk (begin_ (this s)) ≠ blk (begin_ o)) →
  Size o ≤ Capacity (this s) →
  Forall (λ x, copy_throws x = false) lo →
  ∃ s', assign_copy (Another o) s = Ok tt s'
    ∧ holds (heap s') (this s') lo ∧ holds (heap s') o lo
    ∧ begin_ (this s') = begin_ (this s)
    ∧ Capacity (this s') = Capacity (this s)
    ∧ next s' = next s
    ∧ stats s' = counters_add (stats s)
        (counters_add (times (Z.min (Size (this s)) (Size o)) one_copy_assign)
           (counters_add (times (Z.max 0 (Size o - Size (this s))) one_copy_ctor)
              (times (Z.max 0 (Size (this s) - Size o)) one_dtor))).
Proof.
  destruct s as [v h nx c]. cbn [this heap stats next].
  intros Hv Ho Hne Hfit Hlo.
  pose proof (holds_source _ _ _ Ho) as Hsrc.
  destruct v as [[[a k] cap] sz], o as [[[b kb] capo] szo].
  unfold holds, begin_, GetAddress, Capacity, RawMemory_Capacity, Size in *.
  cbn [data_ size_ buffer_ capacity_ blk ofs] in *.
  destruct Hv as (-> & Hle & Hmax & -> & Hb).
  destruct Ho as (-> & Hleo & Hmaxo & -> & Hbo).
  pose proof (max_alloc_small _ Hmax) as Hsmall.
  pose proof (max_alloc_small _ Hmaxo) as Hsmallo.
  unfold assign_copy. rewrite bind_get_this.
  unfold Capacity, RawMemory_Capacity, begin_, GetAddress, RawMemory_plus, with_size.
  cbn [this data_ size_ buffer_ capacity_].
  destruct (Z.ltb_spec cap (Z.of_nat (length lo))); [lia|].
  destruct (Z.eqb_spec cap 0) as [->|Hcap].
  { (* neither vector has an element *)
    destruct lo; [|cbn [length] in *; lia]. destruct l; [|cbn [length] in *; lia].
    injection Hb as ->. change (Z.of_nat (length [])) with 0 in *.
    destruct (Z.leb_spec 0 capo) as [_|?]; [|lia].
    exists (State {| data_ := {| buffer_ := Ptr 0 0; capacity_ := 0 |}; size_ := 0 |}
              h nx c).
    split; [reflexivity|].
    cbn [this heap next stats data_ size_ buffer_ capacity_ blk ofs].
    split; [done|]. split; [done|].
    repeat split; try done. cbn. by rewrite !times_0, !counters_add_0. }
  destruct Hb as [Ha Hb].
  assert (Hba : b ≠ a).
  { destruct (Z.eqb_spec capo 0) as [->|Hcapo]; [injection Hbo as ->; lia|].
    intros ->. by apply Hne. }
  assert (Hsrc' : lo = [] ∨ h !! b
            = Some ([] ++ map Live lo ++ replicate (Z.to_nat capo - length lo) Raw))
    by (destruct Hsrc as [?|[_ ?]]; auto).
  clear Hsrc.
  destruct (Z.ltb_spec (Z.of_nat (length lo)) (Z.of_nat (length l))) as [Hlt|Hge].
  - (* the target has elements in excess *)
    rewrite Z.min_r by lia.
    pose proof (take_drop (length lo) l) as Hl.
    set (l1 := take (length lo) l) in *. set (l2 := drop (length lo) l) in *.
    assert (Hl1 : length l1 = length lo) by (unfold l1; rewrite length_take; lia).
    assert (Hl2 : (length l2 = length l - length lo)%nat)
      by (unfold l2; by rewrite length_drop).
    set (R := replicate (Z.to_nat cap - length l) Raw) in *.
    erewrite bind_Ok; cycle 1.
    { apply (copy_n_spec lo l1 _ _ _ _ b a []
               (replicate (Z.to_nat capo - length lo) Raw) [] (map Live l2 ++ R));
        try done.
      - destruct Hsrc' as [?|?]; auto.
      - rewrite Hb. cbn [app]. rewrite <- Hl at 1. rewrite map_app.
        by rewrite <- app_assoc. }
    rewrite ptr_add_Ptr, wrap_small by lia.
    erewrite bind_Ok; cycle 1.
    { apply (destroy_n_spec l2 _ _ _ _ a (map Live lo) R).
      - lia.
      - rewrite length_map. lia.
      - by rewrite lookup_insert_eq. }
    unfold put_this, set_this. cbn [this heap next stats].
    eexists. split; [done|].
    cbn [this heap next stats data_ size_ buffer_ capacity_ blk ofs].
    rewrite insert_insert_eq.
    split; [|split].
    + split; [done|]. split; [lia|]. split; [done|]. split; [done|].
      destruct (Z.eqb_spec cap 0); [done|]. split; [done|].
      rewrite lookup_insert_eq. do 2 f_equal. unfold R.
      rewrite <- replicate_add. f_equal. lia.
    + split; [done|]. split; [done|]. split; [done|]. split; [done|].
      destruct (Z.eqb_spec capo 0); [done|]. split; [apply Hbo|].
      rewrite lookup_insert_ne by done. apply Hbo.
    + repeat split; try done.
      rewrite Z.max_l, Z.max_r by lia. rewrite times_0. counters_eq.
  - (* the source has as many elements or more *)
    rewrite Z.min_l by lia.
    pose proof (take_drop (length l) lo) as Hlo'.
    set (lo1 := take (length l) lo) in *. set (lo2 := drop (length l) lo) in *.
    assert (Hl1 : length lo1 = length l) by (unfold lo1; rewrite length_take; lia).
    assert (Hl2 : (length lo2 = length lo - length l)%nat)
      by (unfold lo2; by rewrite length_drop).
    set (Rb := replicate (Z.to_nat capo - length lo) Raw) in *.
    set (R' := replicate (Z.to_nat cap - length lo) Raw).
    assert (Hall : Forall (λ x, copy_throws x = false) lo1 ∧
                   Forall (λ x, copy_throws x = false) lo2).
    { rewrite <- Hlo' in Hlo. by apply Forall_app in Hlo. }
    destruct Hall as [Hlo1 Hlo2].
    erewrite bind_Ok; cycle 1.
    { apply (copy_n_spec lo1 l _ _ _ _ b a [] (map Live lo2 ++ Rb) []
               (replicate (length lo2) Raw ++ R')); try done.
      - lia.
      - destruct Hsrc' as [Hnil|Hsrc'].
        + left. unfold lo1. by rewrite Hnil, take_nil.
        + right. split; [done|]. rewrite Hsrc'. cbn [app].
          rewrite <- Hlo' at 1. rewrite map_app. by rewrite <- app_assoc.
      - rewrite Hb. cbn [app]. do 2 f_equal. unfold R'.
        rewrite <- replicate_add. f_equal. lia. }
    destruct (Z.ltb_spec (Z.of_nat (length lo)) (Z.of_nat (length l))); [lia|].
    destruct (Z.leb_spec (Z.of_nat (length l)) capo); [|lia].
    rewrite bind_assoc, bind_ret.
    destruct (Z.leb_spec (Z.of_nat (length l)) cap); [|lia].
    rewrite bind_assoc, bind_ret, !ptr_add_Ptr, wrap_small by lia.
    erewrite bind_Ok; cycle 1.
    { apply (uninitialized_copy_n_opt lo2 _ _ _ _ b a (map Live lo1) Rb
               (map Live lo1) (replicate (length lo2) Raw) R'); try done.
      - lia.
      - rewrite length_map. lia.
      - rewrite length_map. lia.
      - by rewrite length_replicate.
      - destruct Hsrc' as [Hnil|Hsrc'].
        + left. unfold lo2. by rewrite Hnil, drop_nil.
        + right. split; [done|]. rewrite lookup_insert_ne by done.
          rewrite Hsrc'. cbn [app]. rewrite <- Hlo' at 1. rewrite map_app.
          by rewrite <- app_assoc.
      - by rewrite lookup_insert_eq. }
    unfold put_this, set_this. cbn [this heap next stats].
    eexists. split; [done|].
    cbn [this heap next stats data_ size_ buffer_ capacity_ blk ofs].
    rewrite insert_insert_eq.
    split; [|split].
    + split; [done|]. split; [lia|]. split; [done|]. split; [done|].
      destruct (Z.eqb_spec cap 0); [done|]. split; [done|].
      rewrite lookup_insert_eq. f_equal. rewrite <- Hlo' at 1.
      rewrite map_app. by rewrite <- app_assoc.
    + split; [done|]. split; [done|]. split; [done|]. split; [done|].
      destruct (Z.eqb_spec capo 0); [done|]. split; [apply Hbo|].
      rewrite lookup_insert_ne by done. apply Hbo.
    + repeat split; try done.
      rewrite Z.max_r, Z.max_l by lia. rewrite times_0. counters_eq.
Qed.

Lemma copy_n_Throw xs1 x xs2 ys v h n c a b pa qa pb qb k i j :
  k = Z.of_nat (length (xs1 ++ x :: xs2)) → i = Z.of_nat (length pa) →
  j = Z.of_nat (length pb) →
  a ≠ b → length ys = length (xs1 ++ x :: xs2) →
  Forall (λ z, copy_throws z = false) xs1 → copy_throws x = true →
  h !! a = Some (pa ++ map Live (xs1 ++ x :: xs2) ++ qa) →
  h !! b = Some (pb ++ map Live ys ++ qb) →
  copy_n (Ptr a i) k (Ptr b j) (State v h n c)
  = Throw (State v
      (<[b := pb ++ map Live (xs1 ++ drop (length xs1) ys) ++ qb]> h) n
      (counters_add c (times (Z.of_nat (length xs1)) one_copy_assign))).
Proof.
  intros -> -> -> Hab Hlen Hxs Hx Ha Hb. unfold copy_n. rewrite Nat2Z.id.
  by apply copy_loop_Throw with (qa := qa).
Qed.

(** X15. When the copy of an element throws during a copy assignment from a
    source that fits in the capacity of the target, the call
    leaves with the exception and the target is still a vector of as many
    elements as before, but not the one it was: the elements before the one
    whose copy failed have already been overwritten with those of the
    source (up to the target's size), the others are as they were.  The
    source is unchanged and no live object is lost. *)
Theorem assign_copy_within_capacity_failure s o l xs1 x xs2 :
  holds (heap s) (this s) l → holds (heap s) o (xs1 ++ x :: xs2) →
  blk (begin_ (this s)) ≠ blk (begin_ o) →
  Size o ≤ Capacity (this s) →
  Forall (λ z, copy_throws z = false) xs1 → copy_throws x = true →
  ∃ s', assign_copy (Another o) s = Throw s'
    ∧ this s' = this s
    ∧ holds (heap s') (this s') (take (length l) xs1 ++ drop (length xs1) l)
    ∧ holds (heap s') o (xs1 ++ x :: xs2)
    ∧ next s' = next s
    ∧ n_leaked (stats s') = n_leaked (stats s).
Proof.
  destruct s as [v h nx c]. cbn [this heap stats next].
  intros Hv Ho Hne Hfit Hxs Hx.
  destruct v as [[[a k] cap] sz], o as [[[b kb] capo] szo].
  unfold holds, begin_, GetAddress, Capacity, RawMemory_Capacity, Size in *.
  cbn [data_ size_ buffer_ capacity_ blk ofs] in *.
  destruct Hv as (-> & Hle & Hmax & -> & Hb).
  destruct Ho as (-> & Hleo & Hmaxo & -> & Hbo).
  pose proof (max_alloc_small _ Hmax) as Hsmall.
  pose proof (max_alloc_small _ Hmaxo) as Hsmallo.
  assert (Hlen : length (xs1 ++ x :: xs2) = (length xs1 + S (length xs2))%nat)
    by (by rewrite length_app).
  destruct (Z.eqb_spec cap 0) as [->|Hcap]; [lia|]. destruct Hb as [Ha Hb].
  destruct (Z.eqb_spec capo 0) as [->|Hcapo]; [lia|]. destruct Hbo as [Hb0 Hbo].
  assert (Hba : b ≠ a) by congruence.
  set (lo := xs1 ++ x :: xs2) in *.
  set (R := replicate (Z.to_nat cap - length l) Raw) in *.
  set (Rb := replicate (Z.to_nat capo - length lo) Raw) in *.
  unfold assign_copy. rewrite bind_get_this.
  unfold Capacity, RawMemory_Capacity, begin_, GetAddress, RawMemory_plus, with_size.
  cbn [this data_ size_ buffer_ capacity_].
  destruct (Z.ltb_spec cap (Z.of_nat (length lo))); [lia|].
  destruct (Nat.lt_ge_cases (length xs1) (length l)) as [Hk|Hk].
  - (* the copy assignment of an element throws *)
    set (m := Nat.min (length l) (length lo)).
    replace (Z.min (Z.of_nat (length l)) (Z.of_nat (length lo)))
      with (Z.of_nat m) by (unfold m; lia).
    set (xs2' := take (m - S (length xs1)) xs2).
    assert (Hlo1 : take m lo = xs1 ++ x :: xs2').
    { unfold lo, xs2'. rewrite take_app_ge by (unfold m; lia).
      f_equal. replace (m - length xs1)%nat with (S (m - S (length xs1)))
        by (unfold m; lia). done. }
    pose proof (take_drop m lo) as Hlo. rewrite Hlo1 in Hlo.
    pose proof (take_drop m l) as Hl.
    set (ys := take m l) in *. set (l2 := drop m l) in *.
    assert (Hys : length ys = m) by (unfold ys, m; rewrite length_take; lia).
    assert (Hm : length (xs1 ++ x :: xs2') = m).
    { rewrite <- Hlo1, length_take. unfold m. lia. }
    eexists. split.
    { apply bind_Throw.
      apply (copy_n_Throw xs1 x xs2' ys _ _ _ _ b a [] (map Live (drop m lo) ++ Rb)
               [] (map Live l2 ++ R)); try done.
      - lia.
      - by rewrite Hm.
      - rewrite Hbo. cbn [app]. rewrite <- Hlo at 1. rewrite map_app.
        by rewrite <- app_assoc.
      - rewrite Hb. cbn [app]. rewrite <- Hl at 1. rewrite map_app.
        by rewrite <- app_assoc. }
    cbn [this heap next stats data_ size_ buffer_ capacity_ blk ofs].
    split; [done|]. split; [|split; [|split; [done|destruct c; cbn; lia]]].
    + assert (Heq : take (length l) xs1 ++ drop (length xs1) l
                    = (xs1 ++ drop (length xs1) ys) ++ l2).
      { rewrite take_ge by lia. rewrite <- Hl at 1.
        rewrite drop_app_le by lia. by rewrite <- app_assoc. }
      rewrite Heq.
      assert (Hlen' : length ((xs1 ++ drop (length xs1) ys) ++ l2) = length l).
      { rewrite !length_app, length_drop.
        assert (length l = length ys + length l2)%nat
          by (by rewrite <- length_app, Hl).
        lia. }
      rewrite Hlen'.
      split; [done|]. split; [done|]. split; [done|]. split; [done|].
      destruct (Z.eqb_spec cap 0); [done|]. split; [done|].
      rewrite lookup_insert_eq. cbn [app]. by rewrite (map_app _ _ l2), <- app_assoc.
    + split; [done|]. split; [done|]. split; [done|]. split; [done|].
      destruct (Z.eqb_spec capo 0); [done|]. split; [done|].
      by rewrite lookup_insert_ne.
  - (* the copy construction of an element throws *)
    assert (Hll : (length l < length lo)%nat) by lia.
    rewrite Z.min_l by lia.
    pose proof (take_drop (length l) lo) as Hlo.
    set (lo1 := take (length l) lo) in *.
    assert (Hlo1 : lo1 = take (length l) xs1).
    { unfold lo1, lo. by rewrite take_app_le. }
    assert (Hlo2 : drop (length l) lo = drop (length l) xs1 ++ x :: xs2).
    { unfold lo. by rewrite drop_app_le. }
    assert (Hl1 : length lo1 = length l) by (unfold lo1; rewrite length_take; lia).
    rewrite Hlo2 in Hlo.
    set (xs1' := drop (length l) xs1) in *.
    assert (Hxs1' : (length xs1' = length xs1 - length l)%nat)
      by (unfold xs1'; by rewrite length_drop).
    set (R' := replicate (Z.to_nat cap - length lo) Raw).
    assert (Hall1 : Forall (λ z, copy_throws z = false) lo1).
    { rewrite Hlo1. by apply Forall_take. }
    assert (Hall2 : Forall (λ z, copy_throws z = false) xs1').
    { by apply Forall_drop. }
    eexists. split.
    { erewrite bind_Ok; cycle 1.
      { apply (copy_n_spec lo1 l _ _ _ _ b a [] (map Live (xs1' ++ x :: xs2) ++ Rb)
                 [] (replicate (length (xs1' ++ x :: xs2)) Raw ++ R')); try done.
        - lia.
        - right. split; [done|]. rewrite Hbo. cbn [app]. rewrite <- Hlo at 1.
          rewrite map_app. by rewrite <- app_assoc.
        - rewrite Hb. cbn [app]. do 2 f_equal. unfold R, R'.
          rewrite <- replicate_add. f_equal. rewrite length_app. cbn [length]. lia. }
      apply bind_Throw.
      destruct (Z.ltb_spec (Z.of_nat (length lo)) (Z.of_nat (length l))); [lia|].
      destruct (Z.leb_spec (Z.of_nat (length l)) capo); [|lia].
      rewrite bind_ret.
      destruct (Z.leb_spec (Z.of_nat (length l)) cap); [|lia].
      rewrite bind_ret, !ptr_add_Ptr, wrap_small by lia.
      apply (uninitialized_copy_n_Throw xs1' x xs2 _ _ _ _ b a (map Live lo1) Rb
               (map Live lo1) (length (xs1' ++ x :: xs2)) R'); try done.
      - rewrite length_app. cbn [length]. lia.
      - rewrite length_map. lia.
      - rewrite length_map. lia.
      - rewrite length_app. lia.
      - rewrite lookup_insert_ne by done. rewrite Hbo. rewrite <- Hlo at 1.
        rewrite map_app. by rewrite <- app_assoc.
      - by rewrite lookup_insert_eq. }
    cbn [this heap next stats data_ size_ buffer_ capacity_ blk ofs].
    split; [done|]. split; [|split; [|split; [done|destruct c; cbn; lia]]].
    + rewrite drop_ge by lia. rewrite app_nil_r, <- Hlo1, Hl1.
      split; [done|]. split; [done|]. split; [done|]. split; [done|].
      destruct (Z.eqb_spec cap 0); [done|]. split; [done|].
      rewrite lookup_insert_eq. cbn [app]. do 2 f_equal. unfold R'.
      rewrite <- replicate_add. f_equal. rewrite length_app. cbn [length]. lia.
    + split; [done|]. split; [done|]. split; [done|]. split; [done|].
      destruct (Z.eqb_spec capo 0); [done|]. split; [done|].
      by rewrite lookup_insert_ne.
Qed.

(** *** Insertion *)

(** X16. [Emplace] at index [i] of a full vector ([Size() == Capacity()])
    allocates a block of twice the size (of one slot when the vector is
    empty) and leaves in it the elements before [i], the new element, and
    the elements from [i] on, in their order.  The result is the address of
    the new element in the new block. *)
Theorem Emplace_full_inserts s l1 l2 args :
  holds (heap s) (this s) (l1 ++ l2) → fresh s →
  Size (this s) = Capacity (this s) →
  (if Size (this s) =? 0 then 1 else 2 * Size (this s)) ≤ max_alloc →
  arg_throws args = false →
  relocate_by_move = true ∨ Forall (λ x, copy_throws x = false) (l1 ++ l2) →
  ∃ p s', Emplace (ptr_add (begin_ (this s)) (Z.of_nat (length l1))) args s
          = Ok p s'
    ∧ holds (heap s') (this s') (l1 ++ arg_value args :: l2)
    ∧ p = ptr_add (begin_ (this s')) (Z.of_nat (length l1))
    ∧ read p s' = Ok (arg_value args) s'
    ∧ Size (this s') = Size (this s) + 1
    ∧ Capacity (this s') = (if Size (this s) =? 0 then 1 else 2 * Size (this s))
    ∧ blk (begin_ (this s')) = next s.
Proof.
  destruct s as [v h nx c]. cbn [this heap next]. unfold Size.
  intros Hv Hf Hfull Hnew Hargs Hrel.
  assert (Hnx : 0 < nx) by apply Hf.
  assert (Hnone : h !! nx = None) by (apply (fresh_next _ _ Hf); cbn; lia).
  pose proof (holds_emplaced _ _ _ _ (arg_value args) _ Hv Hfull Hnew Hnx Hnone)
    as Hv'.
  do 2 eexists. split; [by apply Emplace_realloc|].
  cbn [this heap]. split; [done|]. split; [done|]. split; [|done].
  destruct Hv' as (_ & _ & _ & _ & Hb). unfold Capacity, RawMemory_Capacity in Hb.
  cbn [data_ buffer_ capacity_ blk] in Hb.
  destruct (Z.eqb_spec (if size_ v =? 0 then 1 else 2 * size_ v) 0) as [He|_].
  { destruct (Z.eqb_spec (size_ v) 0); lia. }
  destruct Hb as [_ Hb].
  eapply (read_eq _ _ _ _ nx (map Live l1)); [by rewrite length_map|].
  rewrite Hb, map_app. cbn [map]. by rewrite <- app_assoc.
Qed.

Lemma emplace_until_release_spec v h nx c l1 l2 args :
  holds h v (l1 ++ l2) → fresh (State v h nx c) →
  size_ v = Capacity v →
  (if size_ v =? 0 then 1 else 2 * size_ v) ≤ max_alloc →
  arg_throws args = false →
  relocate_by_move = true ∨ Forall (λ x, copy_throws x = false) (l1 ++ l2) →
  ∃ s1, emplace_until_release (ptr_add (begin_ v) (Z.of_nat (length l1))) args
          (State v h nx c) = Ok (data_ v) s1
      ∧ block_at s1 (buffer_ (data_ v))
        = replicate (length l2) Raw
          ++ map Live (drop (length l2)
                         (if relocate_by_move then map moved_from (l1 ++ l2)
                          else l1 ++ l2)).
Proof.
  destruct v as [[[a o] cap] sz].
  unfold holds, begin_, GetAddress, Capacity, RawMemory_Capacity.
  cbn [data_ size_ buffer_ capacity_ blk ofs].
  intros (-> & _ & Hmax & -> & Hb) Hf <- Hnew Hargs Hrel.
  pose proof (max_alloc_small _ Hmax) as Hsmall.
  assert (Hnx : 0 < nx) by apply Hf.
  unfold emplace_until_release. rewrite bind_get_this.
  unfold cbegin_, begin_, GetAddress, ptr_diff.
  cbn [this data_ size_ buffer_ capacity_ ptr_add blk ofs].
  set (sz := Z.of_nat (length (l1 ++ l2))) in *.
  assert (HS : sz = Z.of_nat (length l1) + Z.of_nat (length l2))
    by (unfold sz; rewrite length_app; lia).
  replace (0 + Z.of_nat (length l1) - 0) with (Z.of_nat (length l1)) by lia.
  rewrite (wrap_small (Z.of_nat (length l1))) by lia.
  rewrite (wrap_small (sz * 2)) by lia.
  replace (sz * 2) with (2 * sz) by lia.
  set (new_cap := if sz =? 0 then 1 else 2 * sz) in *.
  assert (Hcap : sz + 1 ≤ new_cap)
    by (unfold new_cap; destruct (Z.eqb_spec sz 0); lia).
  rewrite (bind_Ok _ _ _ _ _ (RawMemory_sized_Ok _ _ _ _ new_cap ltac:(lia) Hnew)).
  destruct (Z.eqb_spec sz 0) as [Hz|Hz].
  - destruct l1; [|unfold sz in Hz; cbn in Hz; lia].
    destruct l2; [|unfold sz in Hz; cbn in Hz; lia].
    injection Hb as ->. unfold sz, new_cap. cbn [app length].
    change (Z.of_nat 0) with 0. cbn [Z.eqb].
    assert (Hnone : ∀ p q p' q' s,
      (if relocate_by_move
       then bind (uninitialized_move_n p 0 q) (λ _, uninitialized_move_n p' 0 q')
       else bind (uninitialized_copy_n p 0 q) (λ _, uninitialized_copy_n p' 0 q')) s
      = Ok tt s) by (intros; by destruct relocate_by_move).
    eexists. split.
    { unfold Realloc_body. rewrite bind_get_this.
      cbn [RawMemory_plus capacity_ Z.leb Z.compare buffer_ ptr_add blk ofs Z.add].
      rewrite bind_ret. unfold construct_at. rewrite bind_assoc.
      rewrite (bind_Ok _ _ _ _ _ (construct_Ok _ _ _ _ _ Hargs)).
      erewrite bind_Ok; cycle 1.
      { apply (store_eq _ _ _ _ nx [] [] Raw); [done|by rewrite lookup_insert_eq]. }
      rewrite insert_insert_eq. cbn [this size_ Z.sub Z.opp Z.add].
      change (wrap 0) with 0.
      rewrite (bind_Ok _ _ _ _ _ (Hnone _ _ _ _ _)).
      reflexivity. }
    unfold block_at, set_this. cbn [heap buffer_ blk].
    rewrite lookup_insert_ne by lia.
    pose proof (fresh_null _ Hf) as H0. cbn [heap] in H0.
    rewrite H0. by destruct relocate_by_move.
  - destruct Hb as [Ha Hb].
    replace (Z.to_nat sz - length (l1 ++ l2))%nat with 0%nat in Hb by lia.
    cbn [replicate] in Hb. rewrite app_nil_r in Hb.
    assert (Hanx : a ≠ nx) by (apply (fresh_lookup _ _ _ Hf) in Hb; cbn in Hb; lia).
    eexists. split.
    { apply Realloc_body_spec; try done.
      - by rewrite lookup_insert_ne.
      - by rewrite lookup_insert_eq. }
    unfold block_at. cbn [heap buffer_ blk]. by rewrite lookup_insert_eq.
Qed.

(** X17. [Emplace] at index [i] of a full vector reallocates, and [Realloc]
    calls [std::destroy_n(begin(), size_ - index)]: it destroys the objects
    in the first [Size() - i] slots of the old block, not all of them.  At
    the end of the body of [Realloc] the old block has no object in its
    first [Size() - i] slots and still has the objects of its last [i]
    slots (the last [i] elements, after a move what the move left of them);
    the block is released with them, and these [i] objects are lost without
    a destructor call.  Insertion at [begin()] loses none, [PushBack] all. *)
Theorem Emplace_full_destroys_suffix_only s l1 l2 args :
  holds (heap s) (this s) (l1 ++ l2) → fresh s →
  Size (this s) = Capacity (this s) →
  (if Size (this s) =? 0 then 1 else 2 * Size (this s)) ≤ max_alloc →
  arg_throws args = false →
  relocate_by_move = true ∨ Forall (λ x, copy_throws x = false) (l1 ++ l2) →
  (∃ p s', Emplace (ptr_add (begin_ (this s)) (Z.of_nat (length l1))) args s
           = Ok p s'
     ∧ n_dtor (stats s') = n_dtor (stats s) + Z.of_nat (length l2)
     ∧ n_leaked (stats s') = n_leaked (stats s) + Z.of_nat (length l1)
     ∧ heap s' !! blk (begin_ (this s)) = None)
  ∧ (∃ s1, emplace_until_release
             (ptr_add (begin_ (this s)) (Z.of_nat (length l1))) args s
           = Ok (data_ (this s)) s1
     ∧ block_at s1 (begin_ (this s))
       = replicate (length l2) Raw
         ++ map Live (drop (length l2)
                        (if relocate_by_move then map moved_from (l1 ++ l2)
                         else l1 ++ l2))
     ∧ live_count (block_at s1 (begin_ (this s))) = Z.of_nat (length l1)).
Proof.
  destruct s as [v h nx c]. cbn [this heap next stats]. unfold Size.
  intros Hv Hf Hfull Hnew Hargs Hrel. split.
  - do 2 eexists. split; [by apply Emplace_realloc|].
    cbn [this heap stats]. rewrite lookup_delete_eq.
    repeat split; destruct c, args, relocate_by_move; cbn; lia.
  - destruct (emplace_until_release_spec _ _ _ _ _ _ _ Hv Hf Hfull Hnew Hargs Hrel)
      as (s1 & Hrun & Hblock).
    exists s1. split; [exact Hrun|]. unfold begin_, GetAddress.
    split; [exact Hblock|]. rewrite Hblock.
    rewrite live_count_app, live_count_Raw, live_count_Live, length_drop.
    destruct relocate_by_move; rewrite ?length_map, length_app; lia.
Qed.

(** X18. [EmplaceBack] on a full vector appends the new element and returns the
    address of the last slot in use, where the new element lives; the two
    [PushBack] do the same with a copy and with a move of their argument. *)
Theorem EmplaceBack_full_appends s l args :
  holds (heap s) (this s) l → fresh s →
  Size (this s) = Capacity (this s) →
  (if Size (this s) =? 0 then 1 else 2 * Size (this s)) ≤ max_alloc →
  arg_throws args = false →
  relocate_by_move = true ∨ Forall (λ x, copy_throws x = false) l →
  ∃ p s', EmplaceBack args s = Ok p s'
    ∧ holds (heap s') (this s') (l ++ [arg_value args])
    ∧ p = ptr_add (begin_ (this s')) (Size (this s))
    ∧ read p s' = Ok (arg_value args) s'
    ∧ Capacity (this s') = (if Size (this s) =? 0 then 1 else 2 * Size (this s))
    ∧ (∀ y, args = CopyOf y → PushBack y s = Ok tt s')
    ∧ (∀ y, args = MoveOf y → PushBack_move y s = Ok tt s').
Proof.
  destruct s as [v h nx c]. cbn [this heap next]. unfold Size.
  intros Hv Hf Hfull Hnew Hargs Hrel.
  assert (Hnx : 0 < nx) by apply Hf.
  assert (Hnone : h !! nx = None) by (apply (fresh_next _ _ Hf); cbn; lia).
  rewrite <- (app_nil_r l) in Hv, Hrel.
  pose proof (holds_emplaced _ _ _ _ (arg_value args) _ Hv Hfull Hnew Hnx Hnone)
    as Hv'.
  pose proof (Emplace_realloc _ _ _ c _ _ _ Hv Hf Hfull Hnew Hargs Hrel) as HE.
  assert (Hsz : size_ v = Z.of_nat (length l))
    by (destruct Hv as (-> & _); by rewrite app_nil_r).
  assert (Hmax : size_ v ≤ max_alloc).
  { destruct Hv as (_ & _ & ? & _). lia. }
  pose proof (max_alloc_small _ Hmax) as Hsmall.
  assert (HEB : ∃ s', EmplaceBack args (State v h nx c)
                      = Ok (Ptr nx (Z.of_nat (length l))) s'
                    ∧ Emplace (end_ v) args (State v h nx c)
                      = Ok (Ptr nx (Z.of_nat (length l))) s'
                    ∧ holds (heap s') (this s') (l ++ [arg_value args])
                    ∧ begin_ (this s') = Ptr nx 0
                    ∧ Capacity (this s') = if size_ v =? 0 then 1 else 2 * size_ v).
  { match type of HE with _ = Ok _ ?st => exists st end.
    split; [|split; [|split; [exact Hv'|done]]].
    - unfold EmplaceBack. rewrite bind_get_this. cbn [this].
      replace (end_ v) with (ptr_add (begin_ v) (Z.of_nat (length l)))
        by (unfold end_, begin_; by rewrite Hsz).
      rewrite (bind_Ok _ _ _ _ _ HE), bind_get_this.
      unfold RawMemory_at. cbn [this data_ size_ buffer_ capacity_].
      rewrite wrap_small by lia.
      replace (size_ v + 1 - 1) with (size_ v) by lia.
      destruct (Z.ltb_spec (size_ v) (if size_ v =? 0 then 1 else 2 * size_ v))
        as [_|Hge]; [|destruct (Z.eqb_spec (size_ v) 0); lia].
      unfold ret. by rewrite ptr_add_Ptr, Hsz.
    - replace (end_ v) with (ptr_add (begin_ v) (Z.of_nat (length l)))
        by (unfold end_, begin_; by rewrite Hsz).
      exact HE. }
  destruct HEB as (s' & HEB & HEm & Hs' & Hbeg & Hcap').
  exists (Ptr nx (Z.of_nat (length l))), s'.
  split; [done|]. split; [done|].
  split; [by rewrite Hbeg, ptr_add_Ptr, Hsz|].
  split; [|split; [done|]].
  - destruct s' as [v' h' n' c']. cbn [this heap] in *.
    destruct Hs' as (_ & _ & _ & _ & Hb).
    destruct (Z.eqb_spec (Capacity v') 0) as [He|_].
    { rewrite He in Hcap'. destruct (Z.eqb_spec (size_ v) 0); lia. }
    destruct Hb as [_ Hb]. unfold begin_, GetAddress in Hbeg. rewrite Hbeg in Hb.
    cbn [blk] in Hb.
    eapply (read_eq _ _ _ _ nx (map Live l)); [by rewrite length_map|].
    rewrite Hb, map_app. cbn [map]. by rewrite <- app_assoc.
  - split; intros y ->; unfold PushBack, PushBack_move;
      by rewrite (bind_Ok _ _ _ _ _ HEB).
Qed.

(** X19. [Emplace] before an element of a vector with spare capacity works in
    place: the last element is move-constructed into the first free slot,
    the elements from the position to the one before the last are
    move-assigned one slot to the right, and the new value, built in a
    local object first, is move-assigned to the position.  Block and
    capacity stay, nothing is allocated, and the result is the position. *)
Theorem Emplace_spare_capacity_before_element s l1 m z args :
  holds (heap s) (this s) (l1 ++ m ++ [z]) →
  Size (this s) < Capacity (this s) → arg_throws args = false →
  ∃ s', Emplace (ptr_add (begin_ (this s)) (Z.of_nat (length l1))) args s
        = Ok (ptr_add (begin_ (this s)) (Z.of_nat (length l1))) s'
    ∧ holds (heap s') (this s') (l1 ++ arg_value args :: m ++ [z])
    ∧ begin_ (this s') = begin_ (this s)
    ∧ Capacity (this s') = Capacity (this s)
    ∧ next s' = next s
    ∧ stats s' = counters_add (stats s)
        (counters_add (arg_cost args) (counters_add one_move_ctor
           (counters_add (times (Z.of_nat (length m) + 1) one_move_assign)
              one_dtor))).
Proof.
  destruct s as [v h nx c]. cbn [this heap next stats]. unfold Size.
  intros Hv Hlt Hargs.
  pose proof (NoRealloc_middle _ _ nx c _ _ _ _ Hv Hlt Hargs) as HN.
  destruct Hv as (Hsz & Hle & Hmax & Ho & Hb).
  eexists. split.
  { apply Emplace_in_place; [|done..|exact HN].
    rewrite Hsz, !length_app. lia. }
  cbn [this heap next stats]. split; [|done].
  unfold holds, with_size, Capacity, RawMemory_Capacity in *.
  cbn [data_ size_]. rewrite !length_app in *. cbn [length] in *.
  rewrite !length_app in *. cbn [length] in *.
  split; [lia|]. split; [lia|]. split; [done|]. split; [done|].
  destruct (Z.eqb_spec (capacity_ (data_ v)) 0) as [|_]; [lia|].
  destruct Hb as [Ha _]. split; [done|].
  unfold begin_, GetAddress. rewrite lookup_insert_eq. do 2 f_equal.
  repeat (rewrite ?length_app; cbn [length]). f_equal. lia.
Qed.

(** X20. With spare capacity, [Emplace] at [end()], and with it [EmplaceBack] and
    both [PushBack], has no defined behaviour, whatever the vector holds:
    on an empty vector [NoRealloc] indexes [data_[size_ - 1]] with
    [size_ = 0], on any other it calls [std::move_backward] with
    [first = end()] and [last = end() - 1]. *)
Theorem EmplaceBack_spare_capacity_undefined s l args :
  holds (heap s) (this s) l →
  Size (this s) < Capacity (this s) → arg_throws args = false →
  Emplace (end_ (this s)) args s = UB ∧ EmplaceBack args s = UB
  ∧ (∀ y, args = CopyOf y → PushBack y s = UB)
  ∧ (∀ y, args = MoveOf y → PushBack_move y s = UB).
Proof.
  destruct s as [v h nx c]. cbn [this heap]. unfold Size.
  intros Hv Hlt Hargs.
  assert (HE : Emplace (end_ v) args (State v h nx c) = UB).
  { destruct l as [|z l _] using rev_ind.
    - apply Emplace_in_place_empty; [by destruct Hv as (-> & _)| |done].
      destruct Hv as (Hsz & _ & Hmax & _). cbn [length] in Hsz. lia.
    - by apply (Emplace_in_place_end _ _ _ _ l z). }
  assert (HB : EmplaceBack args (State v h nx c) = UB).
  { unfold EmplaceBack. rewrite bind_get_this. cbn [this]. by apply bind_UB. }
  split; [done|]. split; [done|].
  split; intros y ->; unfold PushBack, PushBack_move; by apply bind_UB.
Qed.

(** X21. [Insert] at index [i] of a full vector and [Erase] at the position it
    returns give back the elements there were, in their order, now in the
    new block with the grown capacity. *)
Theorem Insert_then_Erase_full s l1 l2 y :
  holds (heap s) (this s) (l1 ++ l2) → fresh s →
  Size (this s) = Capacity (this s) →
  (if Size (this s) =? 0 then 1 else 2 * Size (this s)) ≤ max_alloc →
  copy_throws y = false →
  relocate_by_move = true ∨ Forall (λ x, copy_throws x = false) (l1 ++ l2) →
  ∃ p s', (p <- Insert (ptr_add (begin_ (this s)) (Z.of_nat (length l1))) y ;;
           Erase p) s = Ok p s'
    ∧ holds (heap s') (this s') (l1 ++ l2)
    ∧ p = ptr_add (begin_ (this s')) (Z.of_nat (length l1))
    ∧ Size (this s') = Size (this s)
    ∧ Capacity (this s') = (if Size (this s) =? 0 then 1 else 2 * Size (this s)).
Proof.
  destruct s as [v h nx c]. cbn [this heap next]. unfold Size.
  intros Hv Hf Hfull Hnew Hy Hrel.
  assert (Hnx : 0 < nx) by apply Hf.
  assert (Hnone : h !! nx = None) by (apply (fresh_next _ _ Hf); cbn; lia).
  pose proof (holds_emplaced _ _ _ _ y _ Hv Hfull Hnew Hnx Hnone) as Hv'.
  pose proof (Emplace_realloc _ _ _ c _ _ (CopyOf y) Hv Hf Hfull Hnew Hy Hrel)
    as HE.
  match type of HE with _ = Ok _ (State ?v1 ?h1 ?n1 ?c1) =>
    pose proof (Erase_spec v1 h1 n1 c1 _ _ _ Hv') as HR;
    pose proof (holds_erased _ _ _ _ _ Hv') as Hv''
  end.
  do 2 eexists. split.
  { unfold Insert. rewrite (bind_Ok _ _ _ _ _ HE). exact HR. }
  cbn [this heap]. split; [exact Hv''|]. unfold with_size, Capacity, RawMemory_Capacity.
  cbn [data_ size_ capacity_]. split; [done|]. split; [lia|done].
Qed.

(** X22. [Emplace] with an argument whose copy throws leaves the vector, the
    heap and the counts of element operations as they were, on both paths:
    without reallocation the local object is built before anything else; on
    the reallocating path the element is built in the new block first, and
    the block is released again. *)
Theorem Emplace_throwing_argument s l i args :
  holds (heap s) (this s) l → fresh s →
  0 ≤ i ≤ Size (this s) → arg_throws args = true →
  (Size (this s) = Capacity (this s) →
   (if Size (this s) =? 0 then 1 else 2 * Size (this s)) ≤ max_alloc) →
  ∃ s', Emplace (ptr_add (begin_ (this s)) i) args s = Throw s'
    ∧ this s' = this s ∧ heap s' = heap s ∧ stats s' = stats s.
Proof.
  destruct s as [v h nx c]. cbn [this heap next stats]. unfold Size.
  intros Hv Hf Hi Hargs Hnew.
  assert (Hnx : 0 < nx) by apply Hf.
  assert (Hnone : h !! nx = None) by (apply (fresh_next _ _ Hf); cbn; lia).
  destruct v as [[[a o] cap] sz].
  unfold holds, begin_, GetAddress, Capacity, RawMemory_Capacity in *.
  cbn [data_ size_ buffer_ capacity_ blk ofs] in *.
  destruct Hv as (Hsz & Hle & Hmax & -> & Hb).
  pose proof (max_alloc_small _ Hmax) as Hsmall.
  unfold Emplace. rewrite bind_get_this.
  unfold cbegin_, GetAddress, RawMemory_Capacity, ptr_diff.
  cbn [this data_ size_ buffer_ capacity_ ptr_add blk ofs].
  replace (0 + i - 0) with i by lia. rewrite (wrap_small i) by lia.
  destruct (Z.ltb_spec sz cap) as [Hlt|Hge].
  - eexists. split.
    { apply bind_Throw. unfold NoRealloc.
      apply bind_Throw. by apply construct_Throw. }
    done.
  - assert (sz = cap) by lia. subst cap. specialize (Hnew eq_refl).
    set (new_cap := if sz =? 0 then 1 else 2 * sz) in *.
    assert (Hcap : sz + 1 ≤ new_cap)
      by (unfold new_cap; destruct (Z.eqb_spec sz 0); lia).
    eexists. split.
    { apply bind_Throw. unfold Realloc. rewrite bind_get_this. cbn [this size_].
      rewrite (wrap_small (sz * 2)) by lia.
      replace (sz * 2) with (2 * sz) by lia. fold new_cap.
      rewrite (bind_Ok _ _ _ _ _
                 (RawMemory_sized_Ok _ _ _ _ new_cap ltac:(lia) Hnew)).
      apply bind_Throw. eapply on_throw_Throw.
      - unfold Realloc_body. rewrite bind_get_this.
        unfold RawMemory_plus. cbn [capacity_ buffer_].
        destruct (Z.leb_spec i new_cap); [|lia].
        rewrite bind_ret. apply bind_Throw. unfold construct_at.
        apply bind_Throw. by apply construct_Throw.
      - unfold RawMemory_dtor, Deallocate. cbn [buffer_].
        apply operator_delete_block; [lia|apply lookup_insert_eq]. }
    cbn [this heap stats]. split; [done|].
    by rewrite live_count_Raw, leaks_0, delete_insert_id.
Qed.

Lemma throws_or_not (l : list T) :
  Forall (λ x, copy_throws x = false) l ∨ Exists (λ x, copy_throws x = true) l.
Proof.
  induction l as [|x l [IH|IH]]; [by left| |right; by apply Exists_cons_tl].
  destruct (copy_throws x) eqn:Hx.
  - right. by apply Exists_cons_hd.
  - left. by constructor.
Qed.

Lemma throws_not_both (l : list T) :
  Forall (λ x, copy_throws x = false) l →
  Exists (λ x, copy_throws x = true) l → False.
Proof.
  intros Hall Hex. apply Exists_exists in Hex as (x & Hin & Hx).
  rewrite Forall_forall in Hall. specialize (Hall _ Hin). congruence.
Qed.

(** An element's copy throws while [Realloc] fills the new block: what the
    block holds at that moment. *)
Lemma Realloc_body_copy_Throw a h n c l1 l2 args nx new_cap :
  let l := l1 ++ l2 in
  let sz := Z.of_nat (length l) in
  let v := {| data_ := {| buffer_ := Ptr a 0; capacity_ := sz |}; size_ := sz |} in
  h !! a = Some (map Live l) → h !! nx = Some (replicate (Z.to_nat new_cap) Raw) →
  a ≠ nx → sz + 1 ≤ new_cap → sz ≤ max_alloc →
  arg_throws args = false → relocate_by_move = false →
  Exists (λ x, copy_throws x = true) l →
  ∃ b' c' k,
    Realloc_body {| buffer_ := Ptr nx 0; capacity_ := new_cap |}
      (Z.of_nat (length l1)) args (State v h n c)
    = Throw (State v (<[nx := b']> h) n c')
    ∧ live_count b' = 1 + k ∧ n_leaked c' = n_leaked c
    ∧ (Exists (λ x, copy_throws x = true) l2 → k = 0)
    ∧ (Forall (λ x, copy_throws x = false) l2 → k = Z.of_nat (length l2)).
Proof.
  intros l sz v Ha Hb Hne Hcap Hmax Hargs Hrbm Hex.
  pose proof (max_alloc_small _ Hmax) as Hsmall.
  assert (Hsz : sz = Z.of_nat (length l1) + Z.of_nat (length l2))
    by (unfold sz, l; rewrite length_app; lia).
  set (r3 := replicate (Z.to_nat new_cap - S (length l)) Raw).
  assert (Hb0 : h !! nx = Some (replicate (length l1) Raw ++ Raw ::
                                  replicate (length l2) Raw ++ r3)).
  { rewrite Hb. f_equal. unfold r3, l.
    change (Raw :: ?x) with (replicate 1 Raw ++ x).
    rewrite !app_assoc, <- !replicate_add. f_equal. rewrite length_app. lia. }
  unfold Realloc_body. rewrite bind_get_this.
  unfold RawMemory_plus, begin_, GetAddress.
  cbn [this data_ size_ buffer_ capacity_].
  destruct (Z.leb_spec (Z.of_nat (length l1)) new_cap); [|lia].
  rewrite bind_ret. unfold construct_at. rewrite bind_assoc.
  rewrite (bind_Ok _ _ _ _ _ (construct_Ok _ _ _ _ _ Hargs)).
  rewrite !ptr_add_Ptr.
  erewrite bind_Ok; cycle 1.
  { eapply (store_eq _ _ _ _ nx (replicate (length l1) Raw));
      [rewrite length_replicate; lia | exact Hb0]. }
  fold sz. rewrite (wrap_small (sz - _)) by lia.
  set (x := arg_value args). set (r1 := replicate (length l1) Raw).
  set (r2 := replicate (length l2) Raw).
  unfold v. cbn [data_ buffer_ size_]. rewrite !ptr_add_Ptr, Hrbm.
  destruct (throws_or_not l2) as [Hall2|Hex2].
  - (* the copies of the elements after the position succeed *)
    assert (Hex1 : Exists (λ x, copy_throws x = true) l1).
    { apply Exists_app in Hex as [?|Hex2]; [done|].
      destruct (throws_not_both _ Hall2 Hex2). }
    destruct (first_throw _ Hex1) as (xs1 & x' & xs2 & Hl1 & Hxs1 & Hx').
    do 2 eexists. exists (Z.of_nat (length l2)). split.
    { apply bind_Throw. erewrite bind_Ok; cycle 1.
      { apply (uninitialized_copy_n_spec l2 _ _ _ _ a nx (map Live l1) []
                 (r1 ++ [Live x]) r2 r3).
        - lia.
        - rewrite length_map. lia.
        - rewrite length_app. unfold r1. rewrite length_replicate. cbn [length]. lia.
        - done.
        - unfold r2. by rewrite length_replicate.
        - done.
        - rewrite lookup_insert_ne by done. unfold l in Ha.
          by rewrite Ha, map_app, app_nil_r.
        - rewrite lookup_insert_eq. by rewrite <- app_assoc. }
      rewrite insert_insert_eq.
      apply (uninitialized_copy_n_Throw xs1 x' xs2 _ _ _ _ a nx [] (map Live l2)
               [] (length l1) ([Live x] ++ map Live l2 ++ r3)).
      - by rewrite Hl1.
      - done.
      - done.
      - done.
      - rewrite Hl1, length_app. lia.
      - done.
      - done.
      - rewrite lookup_insert_ne by done. unfold l in Ha.
        by rewrite Ha, map_app, Hl1.
      - rewrite lookup_insert_eq. by rewrite <- app_assoc. }
    split; [|split; [destruct c, args; cbn; lia|split; [|done]]].
    + change [Live x] with (map Live [x]).
      rewrite !live_count_app, !live_count_Live. unfold r1, r3.
      rewrite !live_count_Raw. cbn [length]. lia.
    + intros Hex2. destruct (throws_not_both _ Hall2 Hex2).
  - (* the copy of an element after the position throws *)
    destruct (first_throw _ Hex2) as (ys1 & y & ys2 & Hl2 & Hys1 & Hy).
    do 2 eexists. exists 0. split.
    { apply bind_Throw. apply bind_Throw.
      apply (uninitialized_copy_n_Throw ys1 y ys2 _ _ _ _ a nx (map Live l1) []
               (r1 ++ [Live x]) (length l2) r3).
      - rewrite <- Hl2. lia.
      - rewrite length_map. lia.
      - rewrite length_app. unfold r1. rewrite length_replicate. cbn [length]. lia.
      - done.
      - rewrite Hl2, length_app. lia.
      - done.
      - done.
      - rewrite lookup_insert_ne by done. unfold l in Ha.
        by rewrite Ha, map_app, app_nil_r, Hl2.
      - rewrite lookup_insert_eq. by rewrite <- app_assoc. }
    split; [|split; [destruct c, args; cbn; lia|split; [done|]]].
    + change (Live x :: r2 ++ r3) with (map Live [x] ++ r2 ++ r3).
      rewrite !live_count_app, live_count_Live. unfold r1, r2, r3.
      rewrite !live_count_Raw. cbn [length]. lia.
    + intros Hall2. destruct (throws_not_both _ Hall2 Hex2).
Qed.

(** X23. On the reallocating path, for an element type that is relocated by
    copy, an element whose copy throws makes [Emplace] leave with the
    exception, the vector and the heap being what they were.  But the new
    element, built in the new block before the others are copied, is never
    destroyed, and when the throwing element is before the position neither
    are the copies of the elements after it: the new block is released with
    these objects alive. *)
Theorem Emplace_full_copy_failure s l1 l2 args :
  holds (heap s) (this s) (l1 ++ l2) → fresh s →
  Size (this s) = Capacity (this s) →
  (if Size (this s) =? 0 then 1 else 2 * Size (this s)) ≤ max_alloc →
  arg_throws args = false → relocate_by_move = false →
  Exists (λ x, copy_throws x = true) (l1 ++ l2) →
  ∃ s', Emplace (ptr_add (begin_ (this s)) (Z.of_nat (length l1))) args s
        = Throw s'
    ∧ this s' = this s ∧ heap s' = heap s
    ∧ (Exists (λ x, copy_throws x = true) l2 →
       n_leaked (stats s') = n_leaked (stats s) + 1)
    ∧ (Forall (λ x, copy_throws x = false) l2 →
       n_leaked (stats s') = n_leaked (stats s) + 1 + Z.of_nat (length l2)).
Proof.
  destruct s as [v h nx c]. cbn [this heap next stats]. unfold Size.
  destruct v as [[[a o] cap] sz].
  unfold holds, begin_, GetAddress, Capacity, RawMemory_Capacity.
  cbn [data_ size_ buffer_ capacity_ blk ofs].
  intros (-> & _ & Hmax & -> & Hb) Hf <- Hnew Hargs Hrbm Hex.
  pose proof (max_alloc_small _ Hmax) as Hsmall.
  assert (Hnx : 0 < nx) by apply Hf.
  assert (Hnone : h !! nx = None) by (apply (fresh_next _ _ Hf); cbn; lia).
  set (sz := Z.of_nat (length (l1 ++ l2))) in *.
  assert (HS : sz = Z.of_nat (length l1) + Z.of_nat (length l2))
    by (unfold sz; rewrite length_app; lia).
  assert (Hpos : 0 < sz).
  { unfold sz. destruct (l1 ++ l2); [by apply Exists_nil in Hex|cbn; lia]. }
  destruct (Z.eqb_spec sz 0) as [|_]; [lia|]. destruct Hb as [Ha Hb].
  replace (Z.to_nat sz - length (l1 ++ l2))%nat with 0%nat in Hb by lia.
  cbn [replicate] in Hb. rewrite app_nil_r in Hb.
  assert (Hanx : a ≠ nx) by congruence.
  destruct (Realloc_body_copy_Throw a (<[nx := replicate (Z.to_nat (2 * sz)) Raw]> h)
              (nx + 1) c l1 l2 args nx (2 * sz))
    as (b' & c' & k & HB & Hlive & Hleak & Hk2 & Hk1); try done.
  { by rewrite lookup_insert_ne. }
  { by rewrite lookup_insert_eq. }
  { fold sz. lia. }
  eexists. split.
  { unfold Emplace. rewrite bind_get_this.
    unfold cbegin_, GetAddress, RawMemory_Capacity, ptr_diff.
    cbn [this data_ size_ buffer_ capacity_ ptr_add blk ofs].
    rewrite Z.ltb_irrefl.
    replace (0 + Z.of_nat (length l1) - 0) with (Z.of_nat (length l1)) by lia.
    rewrite (wrap_small (Z.of_nat (length l1))) by lia.
    apply bind_Throw. unfold Realloc. rewrite bind_get_this. cbn [this size_].
    destruct (Z.eqb_spec sz 0) as [|_]; [lia|].
    rewrite (wrap_small (sz * 2)) by lia.
    replace (sz * 2) with (2 * sz) by lia.
    rewrite (bind_Ok _ _ _ _ _
               (RawMemory_sized_Ok _ _ _ _ (2 * sz) ltac:(lia) Hnew)).
    apply bind_Throw. eapply on_throw_Throw; [exact HB|].
    unfold RawMemory_dtor, Deallocate. cbn [buffer_].
    apply operator_delete_block; [lia|apply lookup_insert_eq]. }
  cbn [this heap stats]. split; [done|].
  split; [by rewrite insert_insert_eq, delete_insert_id|].
  rewrite Hlive.
  split; [intros H2; rewrite (Hk2 H2)|intros H1; rewrite (Hk1 H1)];
    destruct c'; cbn in *; lia.
Qed.

End Vec.

Arguments Ok {T A} a s.
Arguments Throw {T A} s.
Arguments UB {T A}.
Arguments Itself {A}.
Arguments Another {A} o.

(** * Scenarios on concrete element types *)

(** C1, at the input of the claim.  On an empty [Vector<int>], [PushBack]
    of 1, 2, 3 leaves sizes 1, 2, 3 and capacities 1, 2, 4, with the values
    pushed so far in the order of insertion.  The fourth call finds size 3
    and capacity 4 and takes the path without reallocation with [index =
    size_]: [NoRealloc] calls [std::move_backward(begin() + 3, end() - 1,
    end())], whose first iterator is one past its second.  That pair is not
    a range, the call has no defined behaviour, and neither have the fourth
    call of [PushBack] and the sequence of five. *)
Theorem C1_fourth_push_back_undefined :
  push_all (E := int_element) [1; 2; 3] initial
  = [ (1, 1, Ptr 1 0, [Live 1]);
      (2, 2, Ptr 2 0, [Live 1; Live 2]);
      (3, 4, Ptr 3 0, [Live 1; Live 2; Live 3]) ]
  ∧ (∃ s3, push_each (E := int_element) [1; 2; 3] initial = Ok tt s3
           ∧ observe s3 = (3, 4, Ptr 3 0, [Live 1; Live 2; Live 3])
           ∧ PushBack (E := int_element) 4 s3 = UB)
  ∧ push_each (E := int_element) [1; 2; 3; 4; 5] initial = UB.
Proof.
  split; [vm_compute; reflexivity|]. split; [|vm_compute; reflexivity].
  eexists. split; [vm_compute; reflexivity|].
  split; vm_compute; reflexivity.
Qed.

(** C2, at the input where the code departs from the claim: [PushBack(2)] on
    the full vector [[1]].  [Realloc] calls [std::destroy_n(begin(), size_ -
    index)] with [index = 1], which destroys no element: at the end of its
    body the old block, now held by [new_data], still contains the live
    element 1, and the block is released with it.  In all of [PushBack(2)]
    no destructor runs. *)
Theorem C2_realloc_leaves_elements_alive :
  ∃ s1 old s2 s3,
    PushBack (E := int_element) 1 initial = Ok tt s1
    ∧ observe s1 = (1, 1, Ptr 1 0, [Live 1])
    ∧ push_back_until_release (E := int_element) 2 s1 = Ok old s2
    ∧ block_at s2 (buffer_ old) = [Live 1]
    ∧ PushBack (E := int_element) 2 s1 = Ok tt s3
    ∧ n_dtor (stats s3) = n_dtor (stats s1)
    ∧ n_leaked (stats s3) = n_leaked (stats s1) + 1.
Proof.
  do 4 eexists. split; [vm_compute; reflexivity|].
  split; [vm_compute; reflexivity|].
  split; [vm_compute; reflexivity|].
  split; [vm_compute; reflexivity|].
  split; [vm_compute; reflexivity|].
  split; vm_compute; reflexivity.
Qed.

(** C3, at the input where the code departs from the claim: [a =
    std::move(b)] for two [RawMemory] objects that own a block each.  The
    source [b] is left with capacity 0 but with the address of the block
    [a] had, which the assignment has released: its address is not null, the
    block is no longer allocated, and the destructor of [b] releases it a
    second time. *)
Theorem C3_move_assign_leaves_dangling_source :
  ∃ a b s,
    move_assign_scenario (E := int_element) initial = Ok (a, Another b) s
    ∧ capacity_ b = 0
    ∧ buffer_ b = Ptr 1 0 ∧ buffer_ b ≠ nullptr
    ∧ heap s !! blk (buffer_ b) = None
    ∧ RawMemory_dtor (T := Z) b s = UB.
Proof.
  do 3 eexists. split; [vm_compute; reflexivity|].
  split; [reflexivity|]. split; [reflexivity|]. split; [discriminate|].
  split; vm_compute; reflexivity.
Qed.

(** C4, at two inputs where the code departs from the claim.  On an empty
    [Vector<int>] with capacity 1, [Insert(begin(), 7)] takes the path
    without reallocation, where [NoRealloc] evaluates [data_[size_ - 1]]
    with [size_ = 0]: the index is [SIZE_MAX], outside the block, and the
    [assert] of [RawMemory::operator[]] fails.  On a vector of three
    elements with capacity 4, [Insert(end(), 4)] takes the same path with
    [index = size_] and calls [std::move_backward(end(), end() - 1,
    end())], which is undefined.  On that vector insertion before an
    element, [Insert(begin() + 1, 4)], does what the claim says. *)
Theorem C4_insert_without_reallocation_fails :
  reserve_then_insert (E := int_element) 7 initial = UB
  ∧ insert_at_end (E := tracked_element) 4 (three_of_four 1 2 3) = UB
  ∧ ∃ s, Insert (E := tracked_element) (Ptr 1 1) 4 (three_of_four 1 2 3)
         = Ok (Ptr 1 1) s
         ∧ observe s = (4, 4, Ptr 1 0, [Live 1; Live 4; Live 2; Live 3]).
Proof.
  split; [vm_compute; reflexivity|]. split; [vm_compute; reflexivity|].
  eexists. split; vm_compute; reflexivity.
Qed.


(** * The general theorems at concrete inputs *)

(** Facts about concrete states, by evaluation. *)
Ltac by_eval := vm_compute; first [done | intros; discriminate].

Ltac holds_here := unfold holds; vm_compute; repeat split; first [done | intros; discriminate].

Ltac fresh_here :=
  split; [cbn; lia|];
  repeat (apply map_Forall_insert_2; [cbn; lia|]);
  first [apply map_Forall_singleton; cbn; lia | apply map_Forall_empty].

Lemma C5_relocation_policy_witness :
  (∃ s', Reserve (E := int_element) 5 (two_of_two 1 2) = Ok tt s'
         ∧ n_move_ctor (stats s') = 2 ∧ n_copy_ctor (stats s') = 0
         ∧ n_dtor (stats s') = 2 ∧ n_leaked (stats s') = 0
         ∧ holds (E := int_element) (heap s') (this s') [1; 2]
         ∧ Size (this s') = 2 ∧ Capacity (this s') = 5
         ∧ begin_ (this s') = Ptr 2 0
         ∧ heap s' !! 1 = None)
  ∧ (∃ p s', Emplace (E := tracked_element) (Ptr 1 1) (Build 9) (two_of_two 1 2)
             = Ok p s'
         ∧ n_move_ctor (stats s') = 0 ∧ n_copy_ctor (stats s') = 2
         ∧ holds (E := tracked_element) (heap s') (this s') [1; 9; 2]
         ∧ p = ptr_add (begin_ (this s')) 1
         ∧ Size (this s') = 3 ∧ Capacity (this s') = 4
         ∧ begin_ (this s') = Ptr 2 0
         ∧ heap s' !! 1 = None).
Proof.
  split.
  - assert (Hv : holds (E := int_element) (heap (two_of_two 1 2))
                   (this (two_of_two 1 2)) [1; 2]).
    { holds_here. }
    assert (Hf : fresh (two_of_two (T := Z) 1 2)).
    { fresh_here. }
    destruct (C5_relocation_policy (E := int_element) _ _ Hv Hf) as [HR _].
    apply (HR 5); [by_eval|by_eval|by left].
  - assert (Hv : holds (E := tracked_element) (heap (two_of_two 1 2))
                   (this (two_of_two 1 2)) [1; 2]).
    { holds_here. }
    assert (Hf : fresh (two_of_two (T := Z) 1 2)).
    { fresh_here. }
    destruct (C5_relocation_policy (E := tracked_element) _ _ Hv Hf) as [_ HE].
    apply (HE [1] [2] (Build 9)); [done|done|by_eval|done|].
    right. repeat constructor.
Defined.

Lemma C6_erase_witness :
  ∃ s', Erase (E := int_element)
          (ptr_add (begin_ (this (three_of_four 1 2 3))) 1) (three_of_four 1 2 3)
        = Ok (ptr_add (begin_ (this s')) 1) s'
      ∧ holds (E := int_element) (heap s') (this s') [1; 3]
      ∧ Size (this s') = 2 ∧ Capacity (this s') = 4
      ∧ n_move_assign (stats s') = 1 ∧ n_dtor (stats s') = 1.
Proof.
  set (s := three_of_four (T := Z) 1 2 3).
  assert (Hv : holds (E := int_element) (heap s) (this s) [1; 2; 3]).
  { holds_here. }
  destruct (C6_erase (E := int_element) _ _ Hv) as [HE _].
  destruct (HE [1] 2 [3] eq_refl) as (s' & Hrun & Hh & Hs & Hc & _ & Hm & Hd).
  exists s'. split; [exact Hrun|]. split; [exact Hh|].
  cbn in Hs, Hc, Hm, Hd. repeat split; lia.
Defined.

Lemma C7_copy_assign_witness :
  ∃ s', assign_copy (E := tracked_element)
          (Another (this (three_of_four 1 13 3)))
          (set_this Vector_default (three_of_four 1 13 3))
        = Throw s'
      ∧ this s' = Vector_default
      ∧ heap s' = heap (three_of_four 1 13 3).
Proof.
  set (s := set_this Vector_default (three_of_four (T := Z) 1 13 3)).
  set (o := this (three_of_four (T := Z) 1 13 3)).
  assert (Hv : holds (E := tracked_element) (heap s) (this s) []).
  { holds_here. }
  assert (Ho : holds (E := tracked_element) (heap s) o [1; 13; 3]).
  { holds_here. }
  assert (Hf : fresh s).
  { fresh_here. }
  destruct (C7_copy_assign_strong_guarantee (E := tracked_element) s o _ _ Hv Ho Hf)
    as [HT _]; [by_eval|by_eval|].
  apply HT. apply Exists_cons_tl, Exists_cons_hd. reflexivity.
Defined.

Lemma C8_reserve_witness :
  Reserve (E := int_element) 3 (three_of_four 1 2 3) = Ok tt (three_of_four 1 2 3)
  ∧ ∃ s', Reserve (E := int_element) 10 (three_of_four 1 2 3) = Ok tt s'
          ∧ Capacity (this s') = 10 ∧ Size (this s') = 3
          ∧ holds (E := int_element) (heap s') (this s') [1; 2; 3].
Proof.
  assert (Hv : holds (E := int_element) (heap (three_of_four 1 2 3))
                 (this (three_of_four 1 2 3)) [1; 2; 3]).
  { holds_here. }
  assert (Hf : fresh (three_of_four (T := Z) 1 2 3)).
  { fresh_here. }
  split.
  - apply (C8_reserve (E := int_element) _ _ 3 Hv Hf). cbn. lia.
  - apply (C8_reserve (E := int_element) _ _ 10 Hv Hf); [by_eval|by_eval|by left].
Defined.

Lemma C10_pop_back_empty_witness :
  PopBack (T := Z) initial = Ok tt initial
  ∧ Erase (E := int_element) (end_ (this (T := Z) initial)) initial
    = Ok (end_ (this (T := Z) initial)) initial.
Proof. apply (C10_pop_back_empty (E := int_element) initial). reflexivity. Defined.

(** * The further properties at concrete inputs *)

Lemma Vector_sized_value_initializes_witness :
  (∃ v s', Vector_sized (E := int_element) 3 initial = Ok v s'
     ∧ Size v = 3 ∧ Capacity v = 3
     ∧ holds (E := int_element) (heap s') v [0; 0; 0])
  ∧ Vector_sized (E := tracked_element) 1001 initial = Throw initial.
Proof.
  assert (Hf : fresh (initial (T := Z))) by fresh_here.
  split.
  - destruct (Vector_sized_value_initializes (E := int_element) initial 3 Hf
                ltac:(lia)) as [H _].
    destruct H as (v & s' & Hrun & Hs & Hc & Hh & _); [by_eval|].
    exists v, s'. split; [exact Hrun|]. split; [exact Hs|]. split; [exact Hc|exact Hh].
  - apply (Vector_sized_value_initializes (E := tracked_element) initial 1001 Hf);
      by_eval.
Defined.

Lemma Vector_copy_copies_witness :
  ∃ v s', Vector_copy (E := int_element) (this (three_of_four 1 2 3))
            (three_of_four 1 2 3) = Ok v s'
    ∧ holds (E := int_element) (heap s') v [1; 2; 3]
    ∧ holds (E := int_element) (heap s') (this (three_of_four 1 2 3)) [1; 2; 3]
    ∧ Size v = 3 ∧ Capacity v = 3.
Proof.
  set (s := three_of_four (T := Z) 1 2 3).
  assert (Hv : holds (E := int_element) (heap s) (this s) [1; 2; 3]) by holds_here.
  assert (Hf : fresh s) by fresh_here.
  destruct (Vector_copy_copies (E := int_element) s (this s) [1; 2; 3] Hv Hf)
    as (v & s' & Hrun & Hc & Ho & Hs & Hcap & _).
  { repeat constructor. }
  exists v, s'. split; [exact Hrun|]. split; [exact Hc|]. split; [exact Ho|].
  split; [exact Hs|exact Hcap].
Defined.

Lemma Vector_copy_failure_cleans_up_witness :
  ∃ s', Vector_copy (E := tracked_element) (this (three_of_four 1 13 3))
          (three_of_four 1 13 3) = Throw s'
    ∧ heap s' = heap (three_of_four 1 13 3)
    ∧ this s' = this (three_of_four 1 13 3)
    ∧ n_dtor (stats s') - n_dtor (stats (three_of_four (T := Z) 1 13 3))
      = n_copy_ctor (stats s') - n_copy_ctor (stats (three_of_four (T := Z) 1 13 3))
    ∧ n_leaked (stats s') = n_leaked (stats (three_of_four (T := Z) 1 13 3)).
Proof.
  set (s := three_of_four (T := Z) 1 13 3).
  assert (Hv : holds (E := tracked_element) (heap s) (this s) [1; 13; 3])
    by holds_here.
  assert (Hf : fresh s) by fresh_here.
  apply (Vector_copy_failure_cleans_up (E := tracked_element) s (this s) _ Hv Hf).
  apply Exists_cons_tl, Exists_cons_hd. reflexivity.
Defined.

Lemma Vector_dtor_destroys_and_releases_witness :
  ∃ s', Vector_dtor (T := Z) (this (three_of_four 1 2 3))
          (three_of_four 1 2 3) = Ok tt s'
    ∧ heap s' = delete 1 (heap (three_of_four 1 2 3))
    ∧ this s' = this (three_of_four 1 2 3)
    ∧ stats s' = counters_add no_counts (times 3 one_dtor).
Proof.
  set (s := three_of_four (T := Z) 1 2 3).
  assert (Hv : holds (E := int_element) (heap s) (this s) [1; 2; 3]) by holds_here.
  assert (Hf : fresh s) by fresh_here.
  exact (Vector_dtor_destroys_and_releases (E := int_element) s (this s) _ Hv Hf).
Defined.

Lemma Reserve_failure_changes_nothing_witness :
  Reserve (E := tracked_element) 2000 (three_of_four 1 13 3)
  = Throw (three_of_four 1 13 3)
  ∧ ∃ s', Reserve (E := tracked_element) 10 (three_of_four 1 13 3) = Throw s'
      ∧ this s' = this (three_of_four 1 13 3)
      ∧ heap s' = heap (three_of_four 1 13 3).
Proof.
  set (s := three_of_four (T := Z) 1 13 3).
  assert (Hv : holds (E := tracked_element) (heap s) (this s) [1; 13; 3])
    by holds_here.
  assert (Hf : fresh s) by fresh_here.
  destruct (Reserve_failure_changes_nothing (E := tracked_element) s _ 2000 Hv Hf)
    as [H1 _]; [by_eval|].
  destruct (Reserve_failure_changes_nothing (E := tracked_element) s _ 10 Hv Hf)
    as [_ H2]; [by_eval|].
  split; [apply H1; by_eval|].
  destruct H2 as (s' & Hrun & Ht & Hh & _); [by_eval|reflexivity| |].
  { apply Exists_cons_tl, Exists_cons_hd. reflexivity. }
  exists s'. split; [exact Hrun|]. split; [exact Ht|exact Hh].
Defined.

Lemma Reserve_releases_old_block_witness :
  ∃ s', Reserve (E := int_element) 10 (three_of_four 1 2 3) = Ok tt s'
    ∧ n_dtor (stats s') = 0 + 3
    ∧ n_leaked (stats s') = 0
    ∧ blk (begin_ (this s')) = 2
    ∧ heap s' !! 1 = None.
Proof.
  set (s := three_of_four (T := Z) 1 2 3).
  assert (Hv : holds (E := int_element) (heap s) (this s) [1; 2; 3]) by holds_here.
  assert (Hf : fresh s) by fresh_here.
  destruct (Reserve_releases_old_block (E := int_element) s _ 10 Hv Hf)
    as (s' & Hrun & Hd & Hl & Hb & Hn & _); [by_eval|by_eval|by left|].
  exists s'. split; [exact Hrun|]. split; [exact Hd|]. split; [exact Hl|].
  split; [exact Hb|exact Hn].
Defined.

Lemma Resize_shrinks_witness :
  ∃ s', Resize (E := int_element) 1 (three_of_four 1 2 3) = Ok tt s'
    ∧ holds (E := int_element) (heap s') (this s') [1]
    ∧ Size (this s') = 1 ∧ Capacity (this s') = 4.
Proof.
  set (s := three_of_four (T := Z) 1 2 3).
  assert (Hv : holds (E := int_element) (heap s) (this s) ([1] ++ [2; 3]))
    by holds_here.
  destruct (Resize_shrinks (E := int_element) s [1] [2; 3] Hv)
    as (s' & Hrun & Hh & Hs & Hc & _).
  exists s'. split; [exact Hrun|]. split; [exact Hh|]. split; [exact Hs|exact Hc].
Defined.

Lemma Resize_grows_witness :
  ∃ s', Resize (E := int_element) 6 (three_of_four 1 2 3) = Ok tt s'
    ∧ holds (E := int_element) (heap s') (this s') [1; 2; 3; 0; 0; 0]
    ∧ Size (this s') = 6 ∧ Capacity (this s') = 6.
Proof.
  set (s := three_of_four (T := Z) 1 2 3).
  assert (Hv : holds (E := int_element) (heap s) (this s) [1; 2; 3]) by holds_here.
  assert (Hf : fresh s) by fresh_here.
  destruct (Resize_grows (E := int_element) s _ 6 Hv Hf)
    as (s' & Hrun & Hh & Hs & Hc); [by_eval|by_eval|by left|].
  exists s'. split; [exact Hrun|]. split; [exact Hh|]. split; [exact Hs|exact Hc].
Defined.

Lemma Vector_at_within_size_witness :
  (Vector_at (T := Z) 1 (three_of_four 1 2 3) = Ok (Ptr 1 1) (three_of_four 1 2 3)
   ∧ read (Ptr 1 1) (three_of_four 1 2 3) = Ok 2 (three_of_four 1 2 3))
  ∧ Vector_at (T := Z) 3 (three_of_four 1 2 3) = UB.
Proof.
  set (s := three_of_four (T := Z) 1 2 3).
  assert (Hv : holds (E := int_element) (heap s) (this s) [1; 2; 3]) by holds_here.
  destruct (Vector_at_within_size (E := int_element) s _ Hv) as [H1 H2].
  split; [exact (H1 1%nat 2 eq_refl)|]. apply H2. cbn. lia.
Defined.

Lemma Swap_exchanges_witness :
  ∃ o' s', Swap (this (three_of_four 1 2 3))
             (set_this Vector_default (three_of_four (T := Z) 1 2 3)) = Ok o' s'
    ∧ holds (E := int_element) (heap s') (this s') [1; 2; 3]
    ∧ holds (E := int_element) (heap s') o' []
    ∧ Swap o' s' = Ok (this (three_of_four 1 2 3))
                     (set_this Vector_default (three_of_four (T := Z) 1 2 3)).
Proof.
  set (s := set_this Vector_default (three_of_four (T := Z) 1 2 3)).
  set (o := this (three_of_four (T := Z) 1 2 3)).
  assert (Hv : holds (E := int_element) (heap s) (this s) []) by holds_here.
  assert (Ho : holds (E := int_element) (heap s) o [1; 2; 3]) by holds_here.
  destruct (Swap_exchanges (E := int_element) s o _ _ Hv Ho)
    as (o' & s' & Hrun & H1 & H2 & _ & _ & _ & _ & _ & Hback).
  exists o', s'. split; [exact Hrun|]. split; [exact H1|]. split; [exact H2|exact Hback].
Defined.

Lemma Vector_moves_exchange_witness :
  (∃ v o', Vector_move (this (three_of_four (T := Z) 1 2 3)) = (v, o')
     ∧ holds (E := int_element) (heap (three_of_four 1 2 3)) v [1; 2; 3]
     ∧ Size o' = 0 ∧ Capacity o' = 0 ∧ begin_ o' = nullptr)
  ∧ (∃ o' s', assign_move (Another (this (three_of_four 1 2 3)))
                (set_this Vector_default (three_of_four (T := Z) 1 2 3))
              = Ok (Another o') s'
     ∧ holds (E := int_element) (heap s') (this s') [1; 2; 3]
     ∧ holds (E := int_element) (heap s') o' []).
Proof.
  set (s := set_this Vector_default (three_of_four (T := Z) 1 2 3)).
  set (o := this (three_of_four (T := Z) 1 2 3)).
  assert (Hv : holds (E := int_element) (heap s) (this s) []) by holds_here.
  assert (Ho : holds (E := int_element) (heap s) o [1; 2; 3]) by holds_here.
  destruct (Vector_moves_exchange (E := int_element) s o _ _ Hv Ho) as [H1 H2].
  split.
  - destruct H1 as (v & o' & Hm & Hh & _ & _ & Hs & Hc & Hb).
    exists v, o'. split; [exact Hm|]. split; [exact Hh|].
    split; [exact Hs|]. split; [exact Hc|exact Hb].
  - destruct H2 as (o' & s' & Hrun & Hh1 & Hh2 & _).
    exists o', s'. split; [exact Hrun|]. split; [exact Hh1|exact Hh2].
Defined.

Lemma RawMemory_sized_allocates_witness :
  ∃ r s', RawMemory_sized (E := int_element) 2 initial = Ok r s'
    ∧ RawMemory_Capacity r = 2
    ∧ (GetAddress r = nullptr ↔ 2 = 0)
    ∧ ∃ s'', RawMemory_dtor r s' = Ok tt s'' ∧ heap s'' = heap (initial (T := Z)).
Proof.
  assert (Hf : fresh (initial (T := Z))) by fresh_here.
  destruct (RawMemory_sized_allocates (E := int_element) initial 2 Hf)
    as (r & s' & Hrun & Hc & Hn & _ & _ & _ & s'' & Hd & Hh & _); [lia|by_eval|].
  exists r, s'. split; [exact Hrun|]. split; [exact Hc|]. split; [exact Hn|].
  exists s''. split; [exact Hd|exact Hh].
Defined.

Lemma RawMemory_move_assign_takes_over_witness :
  RawMemory_move_assign RawMemory_default
    (Another (data_ (this (three_of_four 1 2 3)))) (three_of_four (T := Z) 1 2 3)
  = Ok (data_ (this (three_of_four 1 2 3)), Another RawMemory_default)
       (three_of_four 1 2 3)
  ∧ ∃ s', RawMemory_move_assign (data_ (this (three_of_four 1 2 3)))
            (Another RawMemory_default) (three_of_four (T := Z) 1 2 3)
          = Ok (RawMemory_default,
                Another {| buffer_ := Ptr 1 0; capacity_ := 0 |}) s'
      ∧ heap s' = delete 1 (heap (three_of_four 1 2 3)).
Proof.
  set (s := three_of_four (T := Z) 1 2 3).
  split.
  - destruct (RawMemory_move_assign_takes_over (T := Z) s RawMemory_default
                (data_ (this s))) as [H _].
    apply H. reflexivity.
  - destruct (RawMemory_move_assign_takes_over (T := Z) s (data_ (this s))
                RawMemory_default) as [_ H].
    destruct (H [Live 1; Live 2; Live 3; Raw]) as (s' & Hrun & Hh & _);
      [by_eval|reflexivity|reflexivity|].
    exists s'. split; [exact Hrun|exact Hh].
Defined.

Lemma assign_copy_within_capacity_witness :
  ∃ s', assign_copy (E := int_element) (Another second_vector)
          (three_and_two 1 2 3 7 8) = Ok tt s'
    ∧ holds (E := int_element) (heap s') (this s') [7; 8]
    ∧ holds (E := int_element) (heap s') second_vector [7; 8]
    ∧ begin_ (this s') = Ptr 1 0 ∧ Capacity (this s') = 4.
Proof.
  set (s := three_and_two (T := Z) 1 2 3 7 8).
  assert (Hv : holds (E := int_element) (heap s) (this s) [1; 2; 3]) by holds_here.
  assert (Ho : holds (E := int_element) (heap s) second_vector [7; 8])
    by holds_here.
  destruct (assign_copy_within_capacity (E := int_element) s second_vector _ _ Hv Ho)
    as (s' & Hrun & H1 & H2 & Hb & Hc & _).
  { intros _. cbn. lia. }
  { cbn. lia. }
  { repeat constructor. }
  exists s'. split; [exact Hrun|]. split; [exact H1|]. split; [exact H2|].
  split; [exact Hb|exact Hc].
Defined.

Lemma assign_copy_within_capacity_failure_witness :
  ∃ s', assign_copy (E := tracked_element) (Another second_vector)
          (three_and_two 1 2 3 7 13) = Throw s'
    ∧ this s' = this (three_and_two 1 2 3 7 13)
    ∧ holds (E := tracked_element) (heap s') (this s') [7; 2; 3]
    ∧ holds (E := tracked_element) (heap s') second_vector [7; 13].
Proof.
  set (s := three_and_two (T := Z) 1 2 3 7 13).
  assert (Hv : holds (E := tracked_element) (heap s) (this s) [1; 2; 3])
    by holds_here.
  assert (Ho : holds (E := tracked_element) (heap s) second_vector ([7] ++ 13 :: []))
    by holds_here.
  destruct (assign_copy_within_capacity_failure (E := tracked_element) s
              second_vector _ [7] 13 [] Hv Ho)
    as (s' & Hrun & Ht & H1 & H2 & _).
  { cbn. lia. }
  { cbn. lia. }
  { repeat constructor. }
  { reflexivity. }
  exists s'. split; [exact Hrun|]. split; [exact Ht|]. split; [exact H1|exact H2].
Defined.

Lemma Emplace_full_inserts_witness :
  ∃ p s', Emplace (E := int_element) (Ptr 1 1) (CopyOf 9) (two_of_two 1 2) = Ok p s'
    ∧ holds (E := int_element) (heap s') (this s') [1; 9; 2]
    ∧ p = ptr_add (begin_ (this s')) 1
    ∧ read p s' = Ok 9 s'
    ∧ Size (this s') = 3 ∧ Capacity (this s') = 4.
Proof.
  set (s := two_of_two (T := Z) 1 2).
  assert (Hv : holds (E := int_element) (heap s) (this s) ([1] ++ [2]))
    by holds_here.
  assert (Hf : fresh s) by fresh_here.
  destruct (Emplace_full_inserts (E := int_element) s [1] [2] (CopyOf 9) Hv Hf)
    as (p & s' & Hrun & Hh & Hp & Hr & Hs & Hc & _);
    [reflexivity|by_eval|reflexivity|by left|].
  exists p, s'. split; [exact Hrun|]. split; [exact Hh|]. split; [exact Hp|].
  split; [exact Hr|]. split; [exact Hs|exact Hc].
Defined.

Lemma Emplace_full_destroys_suffix_only_witness :
  (∃ p s', Emplace (E := int_element) (Ptr 1 1) (CopyOf 9) (two_of_two 1 2) = Ok p s'
     ∧ n_dtor (stats s') = 0 + 1
     ∧ n_leaked (stats s') = 0 + 1
     ∧ heap s' !! 1 = None)
  ∧ (∃ s1, emplace_until_release (E := int_element) (Ptr 1 1) (CopyOf 9)
             (two_of_two 1 2)
           = Ok {| buffer_ := Ptr 1 0; capacity_ := 2 |} s1
     ∧ block_at s1 (Ptr 1 0) = [Raw; Live 2]
     ∧ live_count (block_at s1 (Ptr 1 0)) = 1).
Proof.
  set (s := two_of_two (T := Z) 1 2).
  assert (Hv : holds (E := int_element) (heap s) (this s) ([1] ++ [2]))
    by holds_here.
  assert (Hf : fresh s) by fresh_here.
  apply (Emplace_full_destroys_suffix_only (E := int_element) s [1] [2] (CopyOf 9)
           Hv Hf); [reflexivity|by_eval|reflexivity|by left].
Defined.

Lemma EmplaceBack_full_appends_witness :
  ∃ p s', EmplaceBack (E := int_element) (CopyOf 9) (two_of_two 1 2) = Ok p s'
    ∧ holds (E := int_element) (heap s') (this s') [1; 2; 9]
    ∧ read p s' = Ok 9 s'
    ∧ Capacity (this s') = 4
    ∧ PushBack (E := int_element) 9 (two_of_two 1 2) = Ok tt s'.
Proof.
  set (s := two_of_two (T := Z) 1 2).
  assert (Hv : holds (E := int_element) (heap s) (this s) [1; 2]) by holds_here.
  assert (Hf : fresh s) by fresh_here.
  destruct (EmplaceBack_full_appends (E := int_element) s [1; 2] (CopyOf 9) Hv Hf)
    as (p & s' & Hrun & Hh & _ & Hr & Hc & Hpush & _);
    [reflexivity|by_eval|reflexivity|by left|].
  exists p, s'. split; [exact Hrun|]. split; [exact Hh|]. split; [exact Hr|].
  split; [exact Hc|exact (Hpush 9 eq_refl)].
Defined.

Lemma Emplace_spare_capacity_before_element_witness :
  ∃ s', Emplace (E := int_element) (Ptr 1 1) (MoveOf 9) (three_of_four 1 2 3)
        = Ok (Ptr 1 1) s'
    ∧ holds (E := int_element) (heap s') (this s') [1; 9; 2; 3]
    ∧ begin_ (this s') = Ptr 1 0
    ∧ Capacity (this s') = 4.
Proof.
  set (s := three_of_four (T := Z) 1 2 3).
  assert (Hv : holds (E := int_element) (heap s) (this s) ([1] ++ [2] ++ [3]))
    by holds_here.
  destruct (Emplace_spare_capacity_before_element (E := int_element) s [1] [2] 3
              (MoveOf 9) Hv)
    as (s' & Hrun & Hh & Hb & Hc & _); [by_eval|reflexivity|].
  exists s'. split; [exact Hrun|]. split; [exact Hh|]. split; [exact Hb|exact Hc].
Defined.

Lemma EmplaceBack_spare_capacity_undefined_witness :
  Emplace (E := int_element) (end_ (this (three_of_four 1 2 3))) (CopyOf 4)
    (three_of_four 1 2 3) = UB
  ∧ EmplaceBack (E := int_element) (CopyOf 4) (three_of_four 1 2 3) = UB
  ∧ PushBack (E := int_element) 4 (three_of_four 1 2 3) = UB.
Proof.
  set (s := three_of_four (T := Z) 1 2 3).
  assert (Hv : holds (E := int_element) (heap s) (this s) [1; 2; 3]) by holds_here.
  destruct (EmplaceBack_spare_capacity_undefined (E := int_element) s _ (CopyOf 4) Hv)
    as (H1 & H2 & H3 & _); [by_eval|reflexivity|].
  split; [exact H1|]. split; [exact H2|exact (H3 4 eq_refl)].
Defined.

Lemma Insert_then_Erase_full_witness :
  ∃ p s', bind (Insert (E := int_element) (Ptr 1 1) 9) (λ q, Erase (E := int_element) q)
            (two_of_two 1 2) = Ok p s'
    ∧ holds (E := int_element) (heap s') (this s') [1; 2]
    ∧ Size (this s') = 2
    ∧ Capacity (this s') = 4.
Proof.
  set (s := two_of_two (T := Z) 1 2).
  assert (Hv : holds (E := int_element) (heap s) (this s) ([1] ++ [2]))
    by holds_here.
  assert (Hf : fresh s) by fresh_here.
  destruct (Insert_then_Erase_full (E := int_element) s [1] [2] 9 Hv Hf)
    as (p & s' & Hrun & Hh & _ & Hs & Hc);
    [reflexivity|by_eval|reflexivity|by left|].
  exists p, s'. split; [exact Hrun|]. split; [exact Hh|]. split; [exact Hs|exact Hc].
Defined.

Lemma Emplace_throwing_argument_witness :
  ∃ s', Emplace (E := tracked_element) (Ptr 1 1) (CopyOf 13) (two_of_two 1 2)
        = Throw s'
    ∧ this s' = this (two_of_two 1 2)
    ∧ heap s' = heap (two_of_two 1 2)
    ∧ stats s' = stats (two_of_two (T := Z) 1 2).
Proof.
  set (s := two_of_two (T := Z) 1 2).
  assert (Hv : holds (E := tracked_element) (heap s) (this s) [1; 2]) by holds_here.
  assert (Hf : fresh s) by fresh_here.
  apply (Emplace_throwing_argument (E := tracked_element) s _ 1 (CopyOf 13) Hv Hf);
    [by_eval|reflexivity|by_eval].
Defined.

Lemma Emplace_full_copy_failure_witness :
  ∃ s', Emplace (E := tracked_element) (Ptr 1 1) (Build 9) (two_of_two 13 2)
        = Throw s'
    ∧ this s' = this (two_of_two 13 2)
    ∧ heap s' = heap (two_of_two 13 2)
    ∧ n_leaked (stats s') = 0 + 1 + 1.
Proof.
  set (s := two_of_two (T := Z) 13 2).
  assert (Hv : holds (E := tracked_element) (heap s) (this s) ([13] ++ [2]))
    by holds_here.
  assert (Hf : fresh s) by fresh_here.
  destruct (Emplace_full_copy_failure (E := tracked_element) s [13] [2] (Build 9)
              Hv Hf)
    as (s' & Hrun & Ht & Hh & _ & Hl);
    [reflexivity|by_eval|reflexivity|reflexivity| |].
  { apply Exists_cons_hd. reflexivity. }
  exists s'. split; [exact Hrun|]. split; [exact Ht|]. split; [exact Hh|].
  apply Hl. repeat constructor.
Defined.

Lemma size_le_capacity_invariant_witness :
  ∃ w w' v0 v1 v0',
    run (E := int_element)
      [NewSized 0 3; CallPopBack 0; NewCopy 1 0; CallReserve 1 10; CallErase 0 0;
       CallResize 1 1]
      empty_world = Some w
    ∧ exec (E := int_element) (CallReserve 0 20) w = Some w'
    ∧ objects w !! 0%nat = Some v0 ∧ objects w !! 1%nat = Some v1
    ∧ objects w' !! 0%nat = Some v0'
    ∧ (Size v0, Capacity v0) = (1, 3) ∧ (Size v1, Capacity v1) = (1, 10)
    ∧ (Size v0', Capacity v0') = (1, 20)
    ∧ (∀ i v, objects w !! i = Some v → Size v ≤ Capacity v)
    ∧ (∀ i v v', objects w !! i = Some v → objects w' !! i = Some v' →
         Capacity v ≤ Capacity v').
Proof.
  do 5 eexists.
  split; [vm_compute; reflexivity|]. split; [vm_compute; reflexivity|].
  split; [vm_compute; reflexivity|]. split; [vm_compute; reflexivity|].
  split; [vm_compute; reflexivity|].
  split; [vm_compute; reflexivity|]. split; [vm_compute; reflexivity|].
  split; [vm_compute; reflexivity|].
  match goal with
  | |- (∀ i v, objects ?w !! i = Some v → _) ∧ _ =>
      assert (Hr : reachable (E := int_element) w)
  end.
  { apply (run_reachable
             [NewSized 0 3; CallPopBack 0; NewCopy 1 0; CallReserve 1 10;
              CallErase 0 0; CallResize 1 1]
             empty_world _ (reachable_start (E := int_element))).
    vm_compute; reflexivity. }
  destruct (size_le_capacity_invariant (E := int_element) _ Hr) as [Hsize Hcap].
  split; [exact Hsize|].
  apply (Hcap (CallReserve 0 20)); [vm_compute; reflexivity|reflexivity].
Defined.

Lemma Reserve_byte_size_wraps_witness :
  ∃ s', Reserve (E := int_element) (2 ^ 62 + 1) initial = Ok tt s'
      ∧ Size (this s') = 0 ∧ Capacity (this s') = 2 ^ 62 + 1
      ∧ begin_ (this s') = Ptr 1 0
      ∧ heap s' !! 1 = Some [Raw]
      ∧ stats s' = no_counts.
Proof.
  destruct (Reserve_byte_size_wraps (E := int_element) initial (2 ^ 62 + 1)
              eq_refl ltac:(lia) ltac:(by_eval))
    as (s' & Hrun & Hs & Hc & Hb & Hh & Hst & _).
  exists s'. split; [exact Hrun|]. split; [exact Hs|]. split; [exact Hc|].
  split; [exact Hb|]. split; [exact Hh|exact Hst].
Defined.
